(** * ilu: traffic-signal networks, scenario loaders, rollout merge, experiment runner

    A shallow embedding of the Python sources

    - [src/ilurl/networks/base.py]   (module [Net])
    - [src/ilurl/scenarios/base.py]  (module [Scenarios])
    - [src/jobs/rollouts.py]         (module [Rollouts])
    - [src/ilurl/core/experiment.py] (module [Exp])

    Python functions that can raise are functions into [result]; dictionaries
    are finite maps; lists are lists. *)

From Stdlib Require Import ZArith String Ascii List Lia.
From Stdlib Require QArith.
From stdpp Require Import base option list gmap sets strings sorting fin_maps.

Local Open Scope string_scope.
Local Open Scope Z_scope.

(** ** Python values that raise *)

Module Py.

Inductive exn :=
| KeyError (key : string)
| IndexError
| ValueError
| TypeError
| AttributeError (name : string)
| ParseError
| ZeroDivisionError.

Inductive result (A : Type) :=
| Ok (a : A)
| Raise (e : exn).
Arguments Ok {A} a.
Arguments Raise {A} e.

#[export] Instance result_ret : MRet result := @Ok.
#[export] Instance result_bind : MBind result := fun A B f m =>
  match m with Ok a => f a | Raise e => Raise e end.

Definition is_ok {A} (r : result A) : Prop := exists a, r = Ok a.
Definition raises {A} (r : result A) : Prop := exists e, r = Raise e.

(** [d[k]] on a dictionary with string keys. *)
Definition getitem {V} (d : gmap string V) (k : string) : result V :=
  match d !! k with
  | Some v => Ok v
  | None => Raise (KeyError k)
  end.

(** A dictionary key held in a record field: absent keys raise. *)
Definition field {V} (k : string) (o : option V) : result V :=
  match o with
  | Some v => Ok v
  | None => Raise (KeyError k)
  end.

(** [[f x for x in l if cond x]]: for each [x] the condition is evaluated,
    then the element expression. *)
Fixpoint list_comp {A B} (cond : A -> result bool) (f : A -> result B)
    (l : list A) : result (list B) :=
  match l with
  | [] => Ok []
  | x :: l =>
      c ← cond x;
      if (c : bool)
      then y ← f x; ys ← list_comp cond f l; Ok (y :: ys)
      else list_comp cond f l
  end.

(** A [for] loop threading its state, stopping at the first exception. *)
Fixpoint foldM {A B} (f : B -> A -> result B) (b : B) (l : list A)
    : result B :=
  match l with
  | [] => Ok b
  | x :: l => b' ← f b x; foldM f b' l
  end.

(** [{key x: val x for x in l if cond x}]: condition, key and value are
    evaluated in this order; a key met again overwrites its entry. *)
Definition dict_comp {A} `{Countable K} {V} (cond : A -> result bool)
    (key : A -> result K) (val : A -> result V) (l : list A)
    : result (gmap K V) :=
  foldM (fun m x =>
           c ← cond x;
           if (c : bool)
           then k ← key x; v ← val x; Ok (<[k := v]> m)
           else Ok m)
        ∅ l.

(** [{f x for x in l if cond x}] *)
Definition set_comp {A} `{Countable K} (cond : A -> result bool)
    (f : A -> result K) (l : list A) : result (gset K) :=
  foldM (fun acc x =>
           c ← cond x;
           if (c : bool) then k ← f x; Ok ({[k]} ∪ acc) else Ok acc)
        ∅ l.

(** A comprehension without an [if]. *)
Definition always {A} (x : A) : result bool := Ok true.

(** [s[i]] on a string: negative indices count from the end. *)
Definition str_index (s : string) (i : Z) : result ascii :=
  let n := Z.of_nat (String.length s) in
  let j := if i <? 0 then i + n else i in
  if (0 <=? j) && (j <? n)
  then match String.get (Z.to_nat j) s with
       | Some c => Ok c
       | None => Raise IndexError
       end
  else Raise IndexError.

(** [sorted(X)] for a set of strings. *)
Definition sorted (X : gset string) : list string :=
  merge_sort String.le (elements X).

(** [int(s)] on sign-and-digits literals; the embedding of the sources takes
    [int] as a parameter, this instance serves to run it. *)
Fixpoint digits (acc : Z) (s : string) : result Z :=
  match s with
  | "" => Ok acc
  | String c s =>
      match Ascii.is_nat c with
      | Some d => digits (10 * acc + Z.of_nat d) s
      | None => Raise ValueError
      end
  end.

Definition dec_int (s : string) : result Z :=
  match s with
  | String "-" (String c s) => z ← digits 0 (String c s); Ok (- z)
  | String "+" (String c s) => digits 0 (String c s)
  | String c s => digits 0 (String c s)
  | "" => Raise ValueError
  end.

End Py.

(** ** Network: approaches, states, durations and phases
    ([src/ilurl/networks/base.py]) *)

Module Net.
Import Py.

(** The loaders hand the network lists of XML attribute dictionaries; the
    properties below read the attributes [id], [type], [to], [from], [tl] and
    [linkIndex], all of them strings.  [traffic_lights.get_properties()] is a
    dictionary from node id to the registered program, itself a dictionary
    with the keys [type], [programID] and [phases], each of which may be
    absent. *)
Record tl_config := {
  cfg_type : option string;
  cfg_programID : option Z;
  cfg_phases : option (list (gmap string string))
}.

Record Network := {
  nodes : list (gmap string string);
  edges : list (gmap string string);
  connections : list (gmap string string);
  traffic_lights : gmap string tl_config
}.

Section WithInt.
(** The builtin [int] applied to a string. *)
Variable int : string -> result Z.

(** Each property computes its value on first access and keeps it in an
    attribute of the network; the functions below are that computation.
    [approaches], [states] and [durations] assign their attribute once the
    value is computed, so an access returns or raises what the function
    below does.  [phases] assigns its attribute before it fills it; the
    function [phases] below is its first access, and [NetCache] has the
    attribute and the accesses after the first.

    [[n['id'] for n in self.nodes if n['type'] == 'traffic_light']] *)
Definition tls_ids (self : Network) : result (list string) :=
  list_comp (fun n => t ← getitem n "type";
                      Ok (bool_decide (t = "traffic_light")))
            (fun n => getitem n "id")
            (nodes self).

(** The value expression of the [approaches] comprehension for one node. *)
Definition approaches_of (self : Network) (nid : string)
    : result (list string) :=
  list_comp (fun e => t ← getitem e "to"; Ok (bool_decide (t = nid)))
            (fun e => getitem e "id")
            (edges self).

Definition approaches (self : Network) : result (gmap string (list string)) :=
  ids ← tls_ids self;
  dict_comp always Ok (approaches_of self) ids.

(** [fn] of [states] and [durations]:
    [x['type'] == 'static' and x['programID'] == 1] *)
Definition fn (x : tl_config) : result bool :=
  t ← field "type" (cfg_type x);
  if bool_decide (t = "static")
  then pid ← field "programID" (cfg_programID x); Ok (bool_decide (pid = 1))
  else Ok false.

(** [[p['state'] for p in configs[nid]['phases'] if fn(configs[nid])]] *)
Definition states_of (configs : gmap string tl_config) (nid : string)
    : result (list string) :=
  cfg ← getitem configs nid;
  ps ← field "phases" (cfg_phases cfg);
  list_comp (fun _ => cfg ← getitem configs nid; fn cfg)
            (fun p => getitem p "state")
            ps.

Definition states (self : Network) : result (gmap string (list string)) :=
  ids ← tls_ids self;
  dict_comp always Ok (states_of (traffic_lights self)) ids.

(** [[int(p['duration']) for p in configs[nid]['phases'] if fn(configs[nid])]] *)
Definition durations_of (configs : gmap string tl_config) (nid : string)
    : result (list Z) :=
  cfg ← getitem configs nid;
  ps ← field "phases" (cfg_phases cfg);
  list_comp (fun _ => cfg ← getitem configs nid; fn cfg)
            (fun p => d ← getitem p "duration"; int d)
            ps.

Definition durations (self : Network) : result (gmap string (list Z)) :=
  ids ← tls_ids self;
  dict_comp always Ok (durations_of (traffic_lights self)) ids.

(** [fn] of [phases]: [x.get('tl') == nid and 'linkIndex' in x] *)
Definition fn_conn (nid : string) (x : gmap string string) : bool :=
  bool_decide (x !! "tl" = Some nid) && bool_decide (is_Some (x !! "linkIndex")).

(** [{int(conn['linkIndex']): conn['from'] for conn in connections
      if 'linkIndex' in conn}]; the key expression is evaluated before the
    value expression. *)
Definition links_of (conns : list (gmap string string))
    : result (gmap Z string) :=
  dict_comp (fun conn => Ok (bool_decide (is_Some (conn !! "linkIndex"))))
            (fun conn => li ← getitem conn "linkIndex"; int li)
            (fun conn => getitem conn "from")
            conns.

Definition is_green (c : ascii) : bool :=
  bool_decide (c = "G"%char) || bool_decide (c = "g"%char).

(** [{eid for lnk, eid in links.items() if state[lnk] in ('G','g')}] *)
Definition components_of (links : gmap Z string) (state : string)
    : result (gset string) :=
  set_comp (fun '(lnk, _) => c ← str_index state lnk; Ok (is_green c))
           (fun '(_, eid) => Ok eid)
           (map_to_list links).

(** One turn of the loop over the states of a node; the pair is the counter
    [i] and [self._cached_phases[nid]]. *)
Definition phase_step (links : gmap Z string)
    (acc : nat * gmap nat (list string)) (state : string)
    : result (nat * gmap nat (list string)) :=
  let '(i, ph) := acc in
  components ← components_of links state;
  if bool_decide (components ≠ ∅)
  then Ok (S i, <[i := sorted components]> ph)
  else Ok (i, ph).

Definition phases_loop (links : gmap Z string) (sts : list string)
    : result (nat * gmap nat (list string)) :=
  foldM (phase_step links) (0%nat, ∅) sts.

(** The body of the loop over [self.tls_ids] in [phases]. *)
Definition phases_of (self : Network) (nid : string)
    : result (gmap nat (list string)) :=
  let conns := filter (fun c => fn_conn nid c = true) (connections self) in
  all_states ← states self;
  sts ← getitem all_states nid;
  links ← links_of conns;
  '(_, ph) ← phases_loop links sts;
  Ok ph.

Definition phases (self : Network)
    : result (gmap string (gmap nat (list string))) :=
  ids ← tls_ids self;
  dict_comp always Ok (phases_of self) ids.

End WithInt.

Definition attrs (l : list (string * string)) : gmap string string :=
  list_to_map l.

(** The state list of the docstring of [states]. *)
Definition docstring_states : list string :=
  ["GGrrrGGrrr"; "yyrrryyrrr"; "rrGGGrrGGG"; "rryyyrryyy"].

(** The junction of the docstrings: ten signals, four states. *)
Definition intersection : Network := {|
  nodes := [attrs [("id", "247123161"); ("type", "traffic_light")];
            attrs [("id", "gneJ0"); ("type", "priority")]];
  edges := [attrs [("id", "-238059324"); ("from", "gneJ0"); ("to", "247123161")];
            attrs [("id", "383432312"); ("from", "gneJ1"); ("to", "247123161")];
            attrs [("id", "-238059328"); ("from", "gneJ2"); ("to", "247123161")];
            attrs [("id", "309265401"); ("from", "gneJ3"); ("to", "247123161")]];
  connections :=
    [attrs [("from", "-238059324"); ("to", "a"); ("tl", "247123161"); ("linkIndex", "0")];
     attrs [("from", "-238059324"); ("to", "b"); ("tl", "247123161"); ("linkIndex", "1")];
     attrs [("from", "-238059328"); ("to", "c"); ("tl", "247123161"); ("linkIndex", "2")];
     attrs [("from", "-238059328"); ("to", "d"); ("tl", "247123161"); ("linkIndex", "3")];
     attrs [("from", "-238059328"); ("to", "e"); ("tl", "247123161"); ("linkIndex", "4")];
     attrs [("from", "383432312"); ("to", "f"); ("tl", "247123161"); ("linkIndex", "5")];
     attrs [("from", "383432312"); ("to", "g"); ("tl", "247123161"); ("linkIndex", "6")];
     attrs [("from", "309265401"); ("to", "h"); ("tl", "247123161"); ("linkIndex", "7")];
     attrs [("from", "309265401"); ("to", "i"); ("tl", "247123161"); ("linkIndex", "8")];
     attrs [("from", "309265401"); ("to", "j"); ("tl", "247123161"); ("linkIndex", "9")];
     attrs [("from", ":247123161_0"); ("to", "a")]];
  traffic_lights :=
    {[ "247123161" :=
         {| cfg_type := Some "static"; cfg_programID := Some 1;
            cfg_phases := Some
              [attrs [("duration", "39"); ("state", "GGrrrGGrrr")];
               attrs [("duration", "6"); ("state", "yyrrryyrrr")];
               attrs [("duration", "39"); ("state", "rrGGGrrGGG")];
               attrs [("duration", "6"); ("state", "rryyyrryyy")]] |} ]}
|}.

(** The same junction when only the signals 0, 1, 5 and 6 gate vehicle
    connections (the other positions of the state strings being, say,
    pedestrian crossings, which are not [connection] elements). *)
Definition crossing_network : Network := {|
  nodes := nodes intersection;
  edges := edges intersection;
  connections :=
    filter (fun c => c !! "from" = Some "-238059324" \/
                     c !! "from" = Some "383432312")
           (connections intersection);
  traffic_lights := traffic_lights intersection
|}.

(** A traffic-light junction for which no program was registered. *)
Definition unregistered_network : Network := {|
  nodes := [attrs [("id", "n"); ("type", "traffic_light")]];
  edges := [attrs [("id", "e1"); ("from", "m"); ("to", "n")]];
  connections := [];
  traffic_lights := ∅
|}.

(** A junction [n] whose signal 0 gates a connection leaving edge [e1],
    an edge that ends at another junction. *)
Definition shared_signal_network : Network := {|
  nodes := [attrs [("id", "n"); ("type", "traffic_light")];
            attrs [("id", "m"); ("type", "priority")]];
  edges := [attrs [("id", "e1"); ("from", "a"); ("to", "m")];
            attrs [("id", "e2"); ("from", "m"); ("to", "n")]];
  connections :=
    [attrs [("from", "e1"); ("to", "e2"); ("tl", "n"); ("linkIndex", "0")]];
  traffic_lights :=
    {[ "n" := {| cfg_type := Some "static"; cfg_programID := Some 1;
                 cfg_phases := Some [attrs [("duration", "30");
                                            ("state", "G")]] |} ]}
|}.

(** A junction whose only program is actuated. *)
Definition actuated_network : Network := {|
  nodes := [attrs [("id", "n"); ("type", "traffic_light")]];
  edges := [attrs [("id", "e1"); ("from", "m"); ("to", "n")]];
  connections :=
    [attrs [("from", "e1"); ("to", "e2"); ("tl", "n"); ("linkIndex", "0")]];
  traffic_lights :=
    {[ "n" := {| cfg_type := Some "actuated"; cfg_programID := Some 1;
                 cfg_phases := Some [attrs [("duration", "30");
                                            ("state", "G")]] |} ]}
|}.

End Net.

(** ** The attribute that keeps the phases
    ([Network.phases], [src/ilurl/networks/base.py]) *)

Module NetCache.
Import Py Net.

Section WithInt.
Variable int : string -> result Z.

(** [phases] assigns [self._cached_phases] before it fills it, and fills it
    entry by entry: the attribute is kept when the derivation raises.  The
    functions below return what the code returns or raises together with
    the attribute, a dictionary from node id to the phases of the node.

    The loop over the states of node [nid]; [i] counts the phases. *)
Fixpoint states_loop (links : gmap Z string) (nid : string)
    (sts : list string) (i : nat) (c : gmap string (gmap nat (list string)))
    : result unit * gmap string (gmap nat (list string)) :=
  match sts with
  | [] => (Ok tt, c)
  | state :: sts =>
      match components_of links state with
      | Ok components =>
          if bool_decide (components ≠ ∅)
          then match c !! nid with
               | Some ph =>
                   states_loop links nid sts (S i)
                     (<[nid := <[i := sorted components]> ph]> c)
               | None => (Raise (KeyError nid), c)
               end
          else states_loop links nid sts i c
      | Raise e => (Raise e, c)
      end
  end.

(** The body of the loop over [self.tls_ids]. *)
Definition node_turn (self : Network)
    (c : gmap string (gmap nat (list string))) (nid : string)
    : result unit * gmap string (gmap nat (list string)) :=
  let c := <[nid := ∅]> c in
  let conns := filter (fun c => fn_conn nid c = true) (connections self) in
  match all_states ← states self; getitem all_states nid with
  | Ok sts =>
      match links_of int conns with
      | Ok links => states_loop links nid sts 0 c
      | Raise e => (Raise e, c)
      end
  | Raise e => (Raise e, c)
  end.

Fixpoint nodes_loop (self : Network) (ids : list string)
    (c : gmap string (gmap nat (list string)))
    : result unit * gmap string (gmap nat (list string)) :=
  match ids with
  | [] => (Ok tt, c)
  | nid :: ids =>
      match node_turn self c nid with
      | (Ok _, c) => nodes_loop self ids c
      | (Raise e, c) => (Raise e, c)
      end
  end.

(** One access of the property [phases].  [cached] is the attribute
    [_cached_phases] before the access, [None] when the network has no such
    attribute; the result is what the access returns or raises, and the
    attribute after it. *)
Definition phases_access (self : Network)
    (cached : option (gmap string (gmap nat (list string))))
    : result (gmap string (gmap nat (list string)))
      * option (gmap string (gmap nat (list string))) :=
  match cached with
  | Some c => (Ok c, Some c)
  | None =>
      match tls_ids self with
      | Ok ids =>
          let '(r, c) := nodes_loop self ids ∅ in
          (match r with Ok _ => Ok c | Raise e => Raise e end, Some c)
      | Raise e => (Raise e, Some ∅)
      end
  end.

End WithInt.

End NetCache.

(** ** Scenario loaders: the XML extractor, routes and edges
    ([src/ilurl/scenarios/base.py]) *)

Module Scenarios.
Import Py.

(** An XML element as [xml.etree.ElementTree] gives it: tag, attribute
    dictionary, children in document order. *)
#[local] Set Warnings "-register-all".
Inductive element :=
| Element (tag : string) (attrib : gmap string string)
          (children : list element).

Definition tag (e : element) : string :=
  match e with Element t _ _ => t end.
Definition attrib (e : element) : gmap string string :=
  match e with Element _ a _ => a end.
Definition children (e : element) : list element :=
  match e with Element _ _ c => c end.

(** [elem.findall(path)] for a path [t1/.../tn] of plain tag names, given
    as the list of its steps: the elements reached from [elem] by descending
    through children tagged [t1], ..., [tn], in document order. *)
Fixpoint findall_from (steps : list string) (es : list element)
    : list element :=
  match steps with
  | [] => es
  | t :: steps =>
      findall_from steps
        (e ← es; filter (fun c => tag c = t) (children e))
  end.

Definition findall (path : list string) (e : element) : list element :=
  findall_from path [e].

(** What a path of the file system holds: nothing that [os.path.isfile]
    accepts, a file that is not well-formed XML, or a document. *)
Inductive file :=
| Missing
| Malformed
| Document (root : element).

(** [posixpath.join] of two components. *)
Definition path_join (a b : string) : string :=
  if String.prefix "/" b then b
  else if bool_decide (a = "") || String.prefix "/" (String.rev a)
       then a ++ b
       else a ++ "/" ++ b.

Section WithEnvironment.
(** [os.environ['ILURL_HOME']], read when the module is imported. *)
Variable ILURL_HOME : string.
(** The files on disk. *)
Variable fs : string -> file.
(** Python floats, the builtin [float] on a string and the builtin [max] on
    a list of floats (which raises on the empty list). *)
Variable float : Type.
Variable float_of_str : string -> result float.
Variable max_floats : list float -> result float.

(** The values held by the dictionaries the loaders return. *)
Inductive value :=
| VStr (s : string)
| VMaps (l : list (gmap string string))
| VFloat (x : float)
| VInt (n : Z).

(** An element of the list [get_generic_element] returns: a bare string or
    a dictionary. *)
Inductive entry :=
| EStr (s : string)
| EDict (d : gmap string value).

Definition DIR : string := ILURL_HOME ++ "/data/networks/".

Definition get_path (network_id file_type : string) : string :=
  path_join DIR
    (network_id ++ "/" ++ network_id ++ "." ++ file_type ++ ".xml").

(** [x in elem.attrib] and [x not in elem.attrib] where [x] may be [None],
    which is never a key of an attribute dictionary. *)
Definition is_in (x : option string) (d : gmap string string) : bool :=
  match x with
  | None => false
  | Some k => bool_decide (is_Some (d !! k))
  end.

(** One turn of the loop in [get_generic_element]: the entry appended for
    [elem], if any.  With a child tag the entry just appended receives the
    key [f'{child_key}s']; a bare string does not support item assignment. *)
Definition emit (ignore key child_key : option string) (elem : element)
    : result (option entry) :=
  if negb (is_in ignore (attrib elem))
  then
    let appended :=
      match key with
      | Some k =>
          match attrib elem !! k with
          | Some v => EStr v
          | None => EDict (VStr <$> attrib elem)
          end
      | None => EDict (VStr <$> attrib elem)
      end in
    match child_key with
    | Some ck =>
        match appended with
        | EDict d =>
            Ok (Some (EDict (<[ck ++ "s" :=
                               VMaps (attrib <$> findall [ck] elem)]> d)))
        | EStr _ => Raise TypeError
        end
    | None => Ok (Some appended)
    end
  else Ok None.

Definition get_generic_element (network_id : string) (target : list string)
    (file_type : string) (ignore key child_key : option string)
    : result (list entry) :=
  let file_path := get_path network_id file_type in
  match fs file_path with
  | Missing => Ok []
  | Malformed => Raise ParseError
  | Document root =>
      foldM (fun elements elem =>
               o ← emit ignore key child_key elem;
               Ok (elements ++ option_list o)%list)
            [] (findall target root)
  end.

(** [s.split(sep)] for a one-character separator. *)
Fixpoint split (sep : ascii) (s : string) : list string :=
  match s with
  | "" => [""]
  | String c s =>
      if bool_decide (c = sep) then "" :: split sep s
      else match split sep s with
           | w :: ws => String c w :: ws
           | [] => [String c ""]
           end
  end.

(** [l[0]] *)
Definition first {A} (l : list A) : result A :=
  match l with
  | x :: _ => Ok x
  | [] => Raise IndexError
  end.

(** A member of [set(routes)] has to be hashable, which a dictionary is
    not. *)
Definition hashable (e : entry) : result string :=
  match e with
  | EStr s => Ok s
  | EDict _ => Raise TypeError
  end.

(** [1 / n] for an integer [n]: the quotient is kept as the exact rational,
    the rounding of the float division is not part of the model. *)
Definition true_div_1 (n : nat) : result QArith_base.Q :=
  match n with
  | O => Raise ZeroDivisionError
  | S _ => Ok (QArith_base.Qmake 1 (Pos.of_nat n))
  end.

(** The order in which Python iterates a set is not specified; neither is
    that of [elements]. *)
Definition get_routes (network_id : string)
    : result (gmap string (list (list string * QArith_base.Q))) :=
  routes ← get_generic_element network_id ["vehicle"; "route"] "rou"
             None (Some "edges") None;
  (* unique routes as array of arrays *)
  uniq ← set_comp always hashable routes;
  let routes := split " " <$> elements uniq in
  (* starting edges *)
  keys ← set_comp always first routes;
  (* match routes to it's starting edges *)
  routes ← dict_comp always Ok
             (fun k => list_comp (fun r => r0 ← first r;
                                           Ok (bool_decide (k = r0)))
                                 Ok routes)
             (elements keys);
  (* convert to equipropable array of tuples: (routes, probability) *)
  dict_comp always (fun '(k, _) => Ok k)
    (fun '(_, rou) =>
       list_comp always
                 (fun r => p ← true_div_1 (length rou); Ok (r, p))
                 rou)
    (map_to_list routes).

(** [e[k]] read as the list of child attribute dictionaries. *)
Definition lanes_of (e : gmap string value)
    : result (list (gmap string string)) :=
  v ← getitem e "lanes";
  match v with
  | VMaps l => Ok l
  | _ => Raise TypeError
  end.

(** [max([float(lane[k]) for lane in e['lanes']])] *)
Definition max_of_lanes (k : string) (e : gmap string value)
    : result float :=
  lanes ← lanes_of e;
  xs ← list_comp always
                 (fun lane => s ← getitem lane k; float_of_str s) lanes;
  max_floats xs.

(** The body of the loop of [get_edges] on one entry. *)
Definition edge_of_entry (e : entry) : result entry :=
  match e with
  | EStr _ => Raise TypeError
  | EDict e =>
      speed ← max_of_lanes "speed" e;
      let e := <["speed" := VFloat speed]> e in
      len ← max_of_lanes "length" e;
      let e := <["length" := VFloat len]> e in
      lanes ← lanes_of e;
      let e := <["numLanes" := VInt (Z.of_nat (length lanes))]> e in
      _ ← getitem e "lanes";
      Ok (EDict (delete "lanes" e))
  end.

Definition get_edges (network_id : string) : result (list entry) :=
  edges ← get_generic_element "intersection" ["edge"] "net"
            (Some "function") None (Some "lane");
  list_comp always edge_of_entry edges.

End WithEnvironment.

(** A net file with one edge of one lane, and file systems holding it as the
    net file of network [grid] only, or of [intersection] as well with
    another edge. *)
Definition edge_doc (id : string) : element :=
  Element "net" ∅
    [Element "edge" (list_to_map [("id", id); ("from", "a"); ("to", "b")])
       [Element "lane" (list_to_map [("id", id ++ "_0"); ("speed", "13.89");
                                     ("length", "100.00")]) []];
     Element "edge" (list_to_map [("id", ":b_0"); ("function", "internal")])
       []].

Definition grid_only (p : string) : file :=
  if bool_decide (p = get_path "/home/ilu" "grid" "net")
  then Document (edge_doc "g1") else Missing.

(** A route file: four vehicles, three distinct routes, two origins. *)
Definition route_doc : element :=
  Element "routes" ∅
    [Element "vehicle" (list_to_map [("id", "0")])
       [Element "route" (list_to_map [("edges", "a b c")]) []];
     Element "vehicle" (list_to_map [("id", "1")])
       [Element "route" (list_to_map [("edges", "a d")]) []];
     Element "vehicle" (list_to_map [("id", "2")])
       [Element "route" (list_to_map [("edges", "a b c")]) []];
     Element "vehicle" (list_to_map [("id", "3")])
       [Element "route" (list_to_map [("edges", "e f")]) []]].

Definition route_files (p : string) : file :=
  if bool_decide (p = get_path "/home/ilu" "grid" "rou")
  then Document route_doc else Missing.

Arguments emit {float} ignore key child_key elem.
Arguments get_generic_element ILURL_HOME fs {float} network_id target
  file_type ignore key child_key.
Arguments hashable {float} e.
Arguments VStr {float} s.
Arguments VMaps {float} l.
Arguments VFloat {float} x.
Arguments VInt {float} n.
Arguments EStr {float} s.
Arguments EDict {float} d.

End Scenarios.

(** ** Merging rollout evaluations ([src/jobs/rollouts.py]) *)

Module Rollouts.
Import Py.

Section Concat.
(** The values of an evaluation are JSON values: lists and mappings on one
    side ([coll]), everything else on the other ([scalar]: null, booleans,
    numbers, strings).  Python's [==] and hashing on scalars are equality of
    [scalar]. *)
Context {scalar coll : Type}.
Context `{Countable scalar} `{EqDecision coll}.

Inductive value :=
| VScalar (s : scalar)
| VColl (c : coll).

#[export] Instance value_eq_dec : EqDecision value.
Proof. solve_decision. Defined.

(** An evaluation [qtb]: a dictionary in insertion order. *)
Definition dict : Type := list (string * value).

(** A member of a list held by [result]: an experiment id (in
    [result['id']]) or a [defaultdict(list)] from rollout id to the values
    appended under it. *)
Inductive item :=
| IVal (v : value)
| IDict (d : gmap scalar (list coll)).

#[export] Instance item_eq_dec : EqDecision item.
Proof. solve_decision. Defined.

(** What [result] holds under a key: a scalar assigned by [result[k] = v],
    or a list. *)
Inductive rvalue :=
| RScalar (s : scalar)
| RList (l : list item).

#[export] Instance rvalue_eq_dec : EqDecision rvalue.
Proof. solve_decision. Defined.

(** [qtb.pop(k)]: the value under [k] and the dictionary without [k]. *)
Definition pop (k : string) (qtb : dict) : result (value * dict) :=
  match list_find (fun kv => kv.1 = k) qtb with
  | Some (_, (_, v)) => Ok (v, filter (fun kv => kv.1 <> k) qtb)
  | None => Raise (KeyError k)
  end.

(** [result[k]] on the [defaultdict(list)]: a missing key reads as a fresh
    empty list. *)
Definition read (result : gmap string rvalue) (k : string) : rvalue :=
  default (RList []) (result !! k).

(** [l.index(x)] *)
Definition index (x : item) (l : list item) : result nat :=
  match list_find (fun y => y = x) l with
  | Some (i, _) => Ok i
  | None => Raise ValueError
  end.

(** The body of [for k, v in qtb.items()].  When [result[k]] is a scalar and
    [v] is a list or mapping, [len(result[k])] or what follows it raises
    (TypeError for a number, a boolean or null). *)
Definition merge_field (ex_idx : nat) (qid : value)
    (result : gmap string rvalue) (kv : string * value)
    : Py.result (gmap string rvalue) :=
  let '(k, v) := kv in
  match v with
  | VScalar s =>
      (* check if integer fields match *)
      match result !! k with
      | Some r =>
          if bool_decide (r <> RScalar s) then Raise ValueError else Ok result
      | None => Ok (<[k := RScalar s]> result)
      end
  | VColl c =>
      match read result k with
      | RScalar _ => Raise TypeError
      | RList l =>
          let l := if bool_decide (ex_idx = length l)
                   then (l ++ [IDict ∅])%list else l in
          match l !! ex_idx with
          | None => Raise IndexError
          | Some (IVal _) => Raise TypeError
          | Some (IDict d) =>
              match qid with
              | VColl _ => Raise TypeError
              | VScalar q =>
                  let d := <[q := (default [] (d !! q) ++ [c])%list]> d in
                  Ok (<[k := RList (<[ex_idx := IDict d]> l)]> result)
              end
          end
      end
  end.

(** The body of [for qtb in evaluations]. *)
Definition merge_evaluation (result : gmap string rvalue) (qtb : dict)
    : Py.result (gmap string rvalue) :=
  '(exid, qtb) ← pop "id" qtb;
  '(qid, qtb) ← pop "rollout" qtb;
  match read result "id" with
  | RScalar _ => Raise TypeError  (* not reached: no field is named [id] *)
  | RList ids =>
      let ids := if bool_decide (IVal exid ∉ ids)
                 then (ids ++ [IVal exid])%list else ids in
      let result := <["id" := RList ids]> result in
      ex_idx ← index (IVal exid) ids;
      foldM (merge_field ex_idx qid) result qtb
  end.

Definition concat (evaluations : list dict)
    : Py.result (gmap string rvalue) :=
  foldM merge_evaluation ∅ evaluations.

End Concat.

Arguments value : clear implicits.
Arguments dict : clear implicits.

(** Two rollouts of one experiment, and a third whose cycle differs. *)
Definition rollout_0 : dict Z string :=
  [("id", VScalar 7); ("rollout", VScalar 0); ("cycle", VScalar 90);
   ("rewards", VColl "r0"); ("velocities", VColl "v0")].

Definition rollout_1 : dict Z string :=
  [("id", VScalar 7); ("rollout", VScalar 1); ("cycle", VScalar 90);
   ("rewards", VColl "r1"); ("velocities", VColl "v1")].


End Rollouts.

(** ** The experiment runner ([src/ilurl/core/experiment.py]) *)

Module Exp.
Import Py.

Section WithNumbers.
(** Python numbers, and the objects held by attributes. *)
Variable num : Type.

Inductive pyobj :=
| PNone
| PBool (b : bool)
| PNum (x : num)
| PStr (s : string)
| PPolicies (n : nat)
| PEnv
| PMethod.

(** [o is None] *)
Definition is_None (o : pyobj) : bool :=
  match o with PNone => true | _ => false end.

(** The operators [/], [%] and [==] on objects. *)
Variable truediv : pyobj -> pyobj -> result pyobj.
Variable modulo : pyobj -> pyobj -> result pyobj.
Variable py_eq : pyobj -> pyobj -> bool.
Variable one zero zero_float : pyobj.

(** The environment handed to [Experiment]: an object of the simulation
    framework.  [None] in an optional field says that the object has no such
    attribute. *)
Record Env := {
  sim_step : pyobj;               (* env.sim_params.sim_step *)
  cycle_time : option pyobj;
  duration : option pyobj;
  step_counter : option pyobj
}.

(** [getattr(env, name)] for the attributes the runner reads. *)
Definition env_getattr (name : string) (o : option pyobj) : result pyobj :=
  match o with
  | Some v => Ok v
  | None => Raise (AttributeError name)
  end.

(** The names bound in the body of [class Experiment]. *)
Definition class_names : list string :=
  ["__init__"; "run"; "_is_save_step"; "_is_save_q_table";
   "_is_swap_q_table"].

(** [self.name] on an [Experiment] whose instance dictionary is [self]. *)
Definition getattr (self : gmap string pyobj) (name : string)
    : result pyobj :=
  match self !! name with
  | Some v => Ok v
  | None =>
      if bool_decide (name ∈ class_names) then Ok PMethod
      else Raise (AttributeError name)
  end.

(** [Experiment.__init__]: the instance dictionary it leaves.  No other
    method of the class assigns to an attribute of [self]. *)
Definition init (env : Env) (dir_path : pyobj) (train : bool)
    (policies : pyobj) : result (gmap string pyobj) :=
  if negb train && is_None policies then Raise ValueError
  else
    let sim_step := sim_step env in
    let self : gmap string pyobj := ∅ in
    let self := <["env" := PEnv]> self in
    let self := <["train" := PBool train]> self in
    let self := <["dir_path" := dir_path]> self in
    let self := <["Qs" := policies]> self in
    let self := <["cycle" := default PNone (cycle_time env)]> self in
    save_step ← truediv (default one (cycle_time env)) sim_step;
    Ok (<["save_step" := save_step]> self).

(** [Experiment._is_save_step], called on the instance dictionary [self]
    while the environment object is in state [env]. *)
Definition _is_save_step (self : gmap string pyobj) (env : Env)
    : result bool :=
  cycle ← getattr self "cycle";
  if negb (is_None cycle)
  then _ ← getattr self "env";
       d ← env_getattr "duration" (duration env);
       Ok (py_eq d zero_float)
  else sc ← getattr self "step_counter";
       ss ← getattr self "save_step";
       m ← modulo sc ss;
       Ok (py_eq m zero).

End WithNumbers.

Arguments PNone {num}.
Arguments PBool {num} b.
Arguments PNum {num} x.
Arguments PStr {num} s.
Arguments PPolicies {num} n.
Arguments PEnv {num}.
Arguments PMethod {num}.
Arguments is_None {num} o.
Arguments Build_Env {num} sim_step cycle_time duration step_counter.
Arguments sim_step {num} e.
Arguments cycle_time {num} e.
Arguments duration {num} e.
Arguments step_counter {num} e.
Arguments env_getattr {num} name o.
Arguments getattr {num} self name.
Arguments init {num} truediv one env dir_path train policies.
Arguments _is_save_step {num} modulo py_eq zero zero_float self env.

(** Integers standing for the numbers, to run the runner on an
    environment whose simulation step is 1. *)
Definition z_truediv (a b : pyobj Z) : result (pyobj Z) :=
  match a, b with
  | PNum x, PNum y =>
      if y =? 0 then Raise ZeroDivisionError else Ok (PNum (x / y))
  | _, _ => Raise TypeError
  end.

Definition z_modulo (a b : pyobj Z) : result (pyobj Z) :=
  match a, b with
  | PNum x, PNum y =>
      if y =? 0 then Raise ZeroDivisionError else Ok (PNum (x mod y))
  | _, _ => Raise TypeError
  end.

Definition z_eq (a b : pyobj Z) : bool :=
  match a, b with
  | PNum x, PNum y => x =? y
  | _, _ => false
  end.

(** An environment without a cycle time, before and after three steps. *)
Definition plain_env (steps : Z) : Env Z := {|
  sim_step := PNum 1;
  cycle_time := None;
  duration := None;
  step_counter := Some (PNum steps)
|}.

End Exp.

(** ** The traffic-light programs of a scenario
    ([BaseScenario.__init__], [src/ilurl/scenarios/base.py]) *)

Module ScenarioInit.
Import Py Scenarios.

Section WithEnvironment.
Variable ILURL_HOME : string.
Variable fs : string -> file.
Variable float : Type.
(** The builtin [int] on a string and on a float. *)
Variable int : string -> result Z.
Variable int_of_float : float -> result Z.
(** [TrafficLightParams] of the simulator: the object made by
    [TrafficLightParams(baseline=False)] and its method [add], called with
    a node id and keyword arguments. *)
Variable TrafficLightParams : Type.
Variable baseline_off : TrafficLightParams.
Variable add : TrafficLightParams -> value float ->
               gmap string (value float) -> result TrafficLightParams.

(** [d.pop(k)] *)
Definition pop_key {V} (k : string) (d : gmap string V)
    : result (V * gmap string V) :=
  v ← getitem d k; Ok (v, delete k d).

(** [int(v)] on a value of an entry. *)
Definition int_of_value (v : value float) : result Z :=
  match v with
  | VStr s => int s
  | VMaps _ => Raise TypeError
  | VFloat x => int_of_float x
  | VInt n => Ok n
  end.

(** The three assignments of the loop over the programs: the node id and
    the keyword arguments of the call of [add]. *)
Definition program_arguments (prog : entry float)
    : result (value float * gmap string (value float)) :=
  match prog with
  | EStr _ => Raise (AttributeError "pop")
  | EDict prog =>
      '(prog_id, prog) ← pop_key "id" prog;
      '(ty, prog) ← pop_key "type" prog;
      let prog := <["tls_type" := ty]> prog in
      '(pid, prog) ← pop_key "programID" prog;
      n ← int_of_value pid;
      let prog := <["programID" := VInt (n + 1)]> prog in
      Ok (prog_id, prog)
  end.

(** [traffic_lights] as [__init__] builds it when none is given. *)
Definition default_traffic_lights : result TrafficLightParams :=
  prog_list ← get_generic_element ILURL_HOME fs "intersection" ["tlLogic"]
                "net" None None (Some "phase");
  match prog_list with
  | _ :: _ =>
      foldM (fun traffic_lights prog =>
               '(prog_id, prog) ← program_arguments prog;
               add traffic_lights prog_id prog)
            baseline_off prog_list
  | [] => Ok baseline_off
  end.

End WithEnvironment.

Arguments pop_key {V} k d.
Arguments int_of_value {float} int int_of_float v.
Arguments program_arguments {float} int int_of_float prog.
Arguments default_traffic_lights ILURL_HOME fs {float} int int_of_float
  {TrafficLightParams} baseline_off add.

End ScenarioInit.

(** ** Building networks: [Network.make] and [Network.load]
    ([src/ilurl/networks/base.py]) *)

Module NetBuild.
Import Py Scenarios.

(** [l[i]] on a list: negative indices count from the end. *)
Definition list_index {A} (l : list A) (i : Z) : result A :=
  let n := Z.of_nat (length l) in
  let j := if i <? 0 then i + n else i in
  if (0 <=? j) && (j <? n)
  then match l !! Z.to_nat j with
       | Some x => Ok x
       | None => Raise IndexError
       end
  else Raise IndexError.

(** The label handed to [NetParams.from_template]: the number of the
    repetition, or a string. *)
Inductive label1 :=
| LInt (nr : nat)
| LStr (s : string).

Section WithParams.
(** Network parameters, vehicle parameters, initial configurations and
    networks; [NetParams.load], [NetParams.from_template],
    [VehicleParams()] and the constructor of [Network] called with a
    network id, a horizon, network parameters, an initial configuration
    and vehicles; [int] and [str] on integers. *)
Variables net_params vehicle_params initial_config network : Type.
Variable NetParams_load : string -> string -> result net_params.
Variable NetParams_from_template :
  string -> Z -> string -> label1 -> option initial_config
  -> result net_params.
Variable VehicleParams : result vehicle_params.
Variable new_network :
  string -> Z -> net_params -> option initial_config -> vehicle_params
  -> result network.
Variable int : string -> result Z.
Variable str_of_nat : nat -> string.

(** What [make] returns: a network, or a list of networks. *)
Inductive made :=
| One (n : network)
| Many (l : list network).

Definition make (network_id : string) (horizon : Z) (demand_type : string)
    (num_reps : Z) (label : option string)
    (initial_config : option initial_config) : result made :=
  networks ←
    foldM (fun networks nr =>
             let label1 :=
               match label with
               | Some s =>
                   if negb (bool_decide (s = "")) && (1 <? num_reps)
                   then LStr (str_of_nat nr ++ "." ++ s)
                   else LInt nr
               | None => LInt nr
               end in
             net_params ← NetParams_from_template network_id horizon
                            demand_type label1 initial_config;
             vehicles ← VehicleParams;
             n ← new_network network_id horizon net_params initial_config
                   vehicles;
             Ok (networks ++ [n])%list)
          [] (seq 0 (Z.to_nat num_reps));
  if num_reps =? 1
  then n ← first networks; Ok (One n)
  else Ok (Many networks).

Definition load (network_id route_path : string) : result network :=
  net_params ← NetParams_load network_id route_path;
  part ← list_index (split "." route_path) (-4);
  horizon ← int part;
  vehicles ← VehicleParams;
  new_network network_id horizon net_params None vehicles.

End WithParams.

Arguments One {network} n.
Arguments Many {network} l.

End NetBuild.

(** ** The Q-table checks and [run] of the experiment runner
    ([src/ilurl/core/experiment.py]) *)

Module Runner.
Import Py Exp.

(** A method of the environment object: a function of the state of the
    environment and of the simulator behind it, that may raise. *)
Definition M (world A : Type) : Type := world -> result (A * world).

#[export] Instance M_ret {world} : MRet (M world) := fun A a w => Ok (a, w).
#[export] Instance M_bind {world} : MBind (M world) := fun A B f m w =>
  match m w with
  | Ok (a, w') => f a w'
  | Raise e => Raise e
  end.

(** A computation that does not touch the environment. *)
Definition lift {world A} (r : result A) : M world A := fun w =>
  match r with
  | Ok a => Ok (a, w)
  | Raise e => Raise e
  end.

(** Reading the environment. *)
Definition look {world A} (f : world -> result A) : M world A := fun w =>
  match f w with
  | Ok a => Ok (a, w)
  | Raise e => Raise e
  end.

(** A [for] loop, and a [for] loop whose body may [break]. *)
Fixpoint for_each {world A S} (body : S -> A -> M world S) (s : S)
    (l : list A) : M world S :=
  match l with
  | [] => mret s
  | x :: l => s' ← body s x; for_each body s' l
  end.

Fixpoint for_each_break {world A S} (body : S -> A -> M world (S * bool))
    (s : S) (l : list A) : M world S :=
  match l with
  | [] => mret s
  | x :: l =>
      '(s', stop) ← body s x;
      if (stop : bool) then mret s' else for_each_break body s' l
  end.

(** The operators [%], [*] and [==] on objects, the numbers 0, 0.0 and 100,
    [bool(o)], [len(o)] and [o[i]]. *)
Class Objects (num : Type) := {
  modulo : pyobj num -> pyobj num -> result (pyobj num);
  mul : pyobj num -> pyobj num -> result (pyobj num);
  py_eq : pyobj num -> pyobj num -> bool;
  zero : pyobj num;
  zero_float : pyobj num;
  hundred : pyobj num;
  truthy : pyobj num -> bool;
  len : pyobj num -> result nat;
  subscript : pyobj num -> nat -> result (pyobj num)
}.

(** The environment object.  Its state, with the types of observations,
    actions, rewards, the speeds of a set of vehicles and observation
    spaces; what the runner reads from it: the attributes of the checks,
    [hasattr(env, 'dump')], [env.network.name],
    [getattr(env, 'rl_action', None)], [env.sim_params.emission_path] and
    [env.sim_params.emission_pathself]; and its methods: [reset], [step],
    [k.vehicle.get_ids], [k.vehicle.get_speed], [get_observation_space]
    made a list, [dump], the assignment to [Q], [terminate]. *)
Class Environment (num : Type) := {
  world : Type;
  obs : Type;
  action : Type;
  reward : Type;
  speeds : Type;
  space : Type;
  env_of : world -> Env num;
  has_dump : world -> bool;
  network_name : world -> result string;
  rl_action : world -> option action;
  emission_path : world -> result (pyobj num);
  emission_pathself : world -> result (pyobj num);
  reset : M world obs;
  step : action -> M world (obs * reward * pyobj num);
  get_ids : M world (list string);
  get_speed : list string -> M world speeds;
  observation_space : M world space;
  dump : pyobj num -> string -> M world unit;
  set_Q : pyobj num -> M world unit;
  terminate : M world unit
}.

(** Library calls: NumPy floats, [np.nanmean] of speeds,
    [np.nanmean(l).round(4)] of counts and of floats, [round(reward, 4)],
    [int(j / save_step)], [str] of an integer, the two reports that are
    printed, the attribute [dir_path] of an object and [os.path.join]. *)
Class Library (num : Type) `{Environment num} := {
  float : Type;
  nanmean : speeds -> result float;
  nanmean_round_counts : list nat -> result float;
  nanmean_round : list float -> result float;
  round4 : reward -> result reward;
  int_quotient : nat -> pyobj num -> result Z;
  str_of_int : Z -> string;
  print_round : nat -> list reward -> list float -> result unit;
  print_summary : list (list reward) -> list (list float) -> result unit;
  dir_path_of : pyobj num -> result (pyobj num);
  os_path_join : pyobj num -> string -> result string
}.

Section WithSimulator.
Context {num : Type} `{Objects num} `{Environment num} `{!Library num}.

(** [self.env.step_counter % (100 * self.save_step) == 0] *)
Definition is_hundredth_save_step (self : gmap string (pyobj num))
    (env : Env num) : result bool :=
  _ ← getattr self "env";
  sc ← env_getattr "step_counter" (step_counter env);
  ss ← getattr self "save_step";
  p ← mul hundred ss;
  m ← modulo sc p;
  Ok (py_eq m zero).

(** [Experiment._is_save_q_table]; [has_dump] is
    [hasattr(self.env, 'dump')].  [and] gives its first operand when that is
    false, and its second operand otherwise. *)
Definition _is_save_q_table (self : gmap string (pyobj num)) (env : Env num)
    (has_dump : bool) : result (pyobj num) :=
  c ← is_hundredth_save_step self env;
  if (c : bool)
  then train ← getattr self "train";
       if truthy train
       then _ ← getattr self "env";
            if has_dump then getattr self "dir_path" else Ok (PBool false)
       else Ok train
  else Ok (PBool false).

(** [Experiment._is_swap_q_table] *)
Definition _is_swap_q_table (self : gmap string (pyobj num)) (env : Env num)
    : result bool :=
  c ← is_hundredth_save_step self env;
  if (c : bool)
  then train ← getattr self "train"; Ok (negb (truthy train))
  else Ok false.

(** *** [run] *)

(** [emission_to_csv] of the simulation framework, and the action of an
    agent that is given no policy. *)
Variable emission_to_csv : string -> M world unit.
Variable no_action : action.

(** [self.env.m(...)]: the attribute [env] is read first. *)
Definition on_env {A} (self : gmap string (pyobj num)) (m : M world A)
    : M world A :=
  _ ← lift (getattr self "env"); m.

(** The lists of one run, and the state of the loop over its steps. *)
Record run_lists := {
  vel_list : list float;
  veh_list : list float;
  rew_list : list reward;
  act_list : list (option action);
  obs_list : list space
}.

Record step_state := {
  state : obs;
  veh_i : list nat;
  vel_i : list float;
  lists : run_lists
}.

(** The lists of all runs. *)
Record all_lists := {
  vels : list (list float);
  vehs : list (list float);
  observation_spaces : list (list space);
  actions : list (list (option action));
  rewards : list (list reward)
}.

(** The dictionary [run] returns. *)
Record info := {
  info_id : string;
  info_cycle : pyobj num;
  info_save_step : pyobj num;
  info_rewards : list (list reward);
  info_velocities : list (list float);
  info_vehicles : list (list float);
  info_observation_spaces : list (list space);
  info_rl_actions : list (list (option action))
}.

(** The check at the head of [run]. *)
Definition check_emission_path (self : gmap string (pyobj num))
    (convert_to_csv : bool) : M world unit :=
  if convert_to_csv
  then p ← on_env self (look emission_path);
       if is_None p then lift (Raise ValueError) else mret tt
  else mret tt.

(** The body of [for j in tqdm(range(num_steps))] in run [i]; the boolean
    says whether the loop is left by [break]. *)
Definition one_step (self : gmap string (pyobj num))
    (rl_actions : obs -> M world action) (i : nat) (s : step_state)
    (j : nat) : M world (step_state * bool) :=
  _ ← lift (getattr self "env");
  a ← rl_actions (state s);
  '(state', reward, done) ← step a;
  ids ← on_env self get_ids;
  let veh_i := (veh_i s ++ [length ids])%list in
  ids ← on_env self get_ids;
  sp ← on_env self (get_speed ids);
  v ← lift (nanmean sp);
  let vel_i := (vel_i s ++ [v])%list in
  save ← look (fun w => _is_save_step modulo py_eq zero zero_float self
                          (env_of w));
  s' ← (if (save : bool)
        then
          o ← on_env self observation_space;
          a ← on_env self (look (fun w => Ok (rl_action w)));
          r ← lift (round4 reward);
          veh ← lift (nanmean_round_counts veh_i);
          vel ← lift (nanmean_round vel_i);
          mret {| state := state'; veh_i := []; vel_i := [];
                  lists := {|
                    vel_list := (vel_list (lists s) ++ [vel])%list;
                    veh_list := (veh_list (lists s) ++ [veh])%list;
                    rew_list := (rew_list (lists s) ++ [r])%list;
                    act_list := (act_list (lists s) ++ [a])%list;
                    obs_list := (obs_list (lists s) ++ [o])%list |} |}
        else
          mret {| state := state'; veh_i := veh_i; vel_i := vel_i;
                  lists := lists s |});
  if truthy done then mret (s', true)
  else
    (* for every 100 decisions -- save Q *)
    save_q ← look (fun w => _is_save_q_table self (env_of w) (has_dump w));
    _ ← (if truthy save_q
         then
           ss ← lift (getattr self "save_step");
           q ← lift (int_quotient j ss);
           let n := q + 1 in
           name ← on_env self (look network_name);
           let filename :=
             name ++ ".Q." ++ str_of_int (Z.of_nat i + 1) ++ "-"
                  ++ str_of_int n ++ ".pickle" in
           _ ← lift (getattr self "env");
           dir ← lift (getattr self "dir_path");
           dump dir filename
         else
           swap ← look (fun w => _is_swap_q_table self (env_of w));
           if (swap : bool)
           then
             Qs ← lift (getattr self "Qs");
             n ← lift (len Qs);
             if bool_decide (i < n)%nat
             then Qs ← lift (getattr self "Qs");
                  Q ← lift (subscript Qs i);
                  on_env self (set_Q Q)
             else mret tt
           else mret tt);
    mret (s', false).

(** The body of [for i in range(num_runs)]. *)
Definition one_run (self : gmap string (pyobj num))
    (rl_actions : obs -> M world action) (num_steps : nat)
    (acc : all_lists) (i : nat) : M world all_lists :=
  state ← on_env self reset;
  s ← for_each_break (one_step self rl_actions i)
        {| state := state; veh_i := []; vel_i := [];
           lists := {| vel_list := []; veh_list := []; rew_list := [];
                       act_list := []; obs_list := [] |} |}
        (seq 0 num_steps);
  let acc :=
    {| vels := (vels acc ++ [vel_list (lists s)])%list;
       vehs := (vehs acc ++ [veh_list (lists s)])%list;
       observation_spaces :=
         (observation_spaces acc ++ [obs_list (lists s)])%list;
       actions := (actions acc ++ [act_list (lists s)])%list;
       rewards := (rewards acc ++ [rew_list (lists s)])%list |} in
  _ ← lift (print_round i (rew_list (lists s)) (vel_list (lists s)));
  mret acc.

(** The end of [run], from [if self.env.sim_params.emission_path:] on. *)
Definition convert_emissions (self : gmap string (pyobj num))
    (convert_to_csv : bool) : M world unit :=
  p ← on_env self (look emission_path);
  if truthy p
  then
    (* wait a short period of time to ensure the xml file is readable *)
    if convert_to_csv
    then
      name ← on_env self (look network_name);
      let emission_filename := name ++ "-emission.xml" in
      q ← on_env self (look emission_pathself);
      d ← lift (dir_path_of q);
      emission_path ← lift (os_path_join d emission_filename);
      emission_to_csv emission_path
    else mret tt
  else mret tt.

Definition run (self : gmap string (pyobj num)) (num_runs num_steps : nat)
    (rl_actions : option (obs -> M world action)) (convert_to_csv : bool)
    : M world info :=
  _ ← check_emission_path self convert_to_csv;
  let rl_actions :=
    match rl_actions with
    | Some f => f
    | None => fun _ => mret no_action
    end in
  acc ← for_each (one_run self rl_actions num_steps)
          {| vels := []; vehs := []; observation_spaces := [];
             actions := []; rewards := [] |}
          (seq 0 num_runs);
  id ← on_env self (look network_name);
  cycle ← lift (getattr self "cycle");
  save_step ← lift (getattr self "save_step");
  let info_dict :=
    {| info_id := id; info_cycle := cycle; info_save_step := save_step;
       info_rewards := rewards acc; info_velocities := vels acc;
       info_vehicles := vehs acc;
       info_observation_spaces := observation_spaces acc;
       info_rl_actions := actions acc |} in
  _ ← lift (print_summary (rewards acc) (vels acc));
  _ ← on_env self terminate;
  _ ← on_env self (look emission_path);
  _ ← on_env self (look network_name);
  _ ← convert_emissions self convert_to_csv;
  mret info_dict.

End WithSimulator.

End Runner.

(** ** Further networks, files, evaluations and a simulator to run the
    code on *)

Module NetExamples.
Import Py Net.

(** Two connections of node [n] share signal 0. *)
Definition grouped_signal_network : Network := {|
  nodes := [attrs [("id", "n"); ("type", "traffic_light")]];
  edges := [attrs [("id", "e1"); ("from", "a"); ("to", "n")];
            attrs [("id", "e2"); ("from", "b"); ("to", "n")]];
  connections :=
    [attrs [("from", "e1"); ("to", "o"); ("tl", "n"); ("linkIndex", "0")];
     attrs [("from", "e2"); ("to", "o"); ("tl", "n"); ("linkIndex", "0")]];
  traffic_lights :=
    {[ "n" := {| cfg_type := Some "static"; cfg_programID := Some 1;
                 cfg_phases := Some [attrs [("duration", "30");
                                            ("state", "G")]] |} ]}
|}.

(** A network without traffic lights whose edges lack their attributes. *)
Definition priority_network : Network := {|
  nodes := [attrs [("id", "m"); ("type", "priority")]];
  edges := [attrs [("shape", "0,0 1,1")]];
  connections := [attrs [("linkIndex", "x")]];
  traffic_lights := ∅
|}.

(** A traffic-light node and an edge without its end. *)
Definition endless_edge_network : Network := {|
  nodes := [attrs [("id", "n"); ("type", "traffic_light")]];
  edges := [attrs [("id", "e1"); ("from", "a"); ("to", "n")];
            attrs [("id", "e2"); ("from", "n")]];
  connections := [];
  traffic_lights := ∅
|}.


(** The junction of the docstrings with one more connection on signal 0,
    ahead of the others in the list. *)
Definition overwritten_signal_network : Network := {|
  nodes := nodes intersection;
  edges := edges intersection;
  connections :=
    attrs [("from", "zzz"); ("to", "a"); ("tl", "247123161");
           ("linkIndex", "0")]
    :: connections intersection;
  traffic_lights := traffic_lights intersection
|}.

End NetExamples.

Module ScenariosExamples.
Import Py Scenarios.

(** Integers standing for the floats, to run [get_edges] on a net file
    whose speeds and lengths are written as integers. *)
Definition z_max (l : list Z) : result Z :=
  match l with
  | [] => Raise ValueError
  | x :: l => Ok (foldl Z.max x l)
  end.

(** The net file of [intersection]: an edge of two lanes, an internal edge
    and a traffic-light program. *)
Definition intersection_doc : element :=
  Element "net" ∅
    [Element "edge" (list_to_map [("id", "e1"); ("from", "a"); ("to", "n")])
       [Element "lane" (list_to_map [("id", "e1_0"); ("speed", "13");
                                     ("length", "100")]) [];
        Element "lane" (list_to_map [("id", "e1_1"); ("speed", "14");
                                     ("length", "99")]) []];
     Element "edge" (list_to_map [("id", ":n_0"); ("function", "internal")])
       [];
     Element "tlLogic" (list_to_map [("id", "n"); ("type", "static");
                                     ("programID", "0"); ("offset", "0")])
       [Element "phase" (list_to_map [("duration", "39");
                                      ("state", "GGrr")]) [];
        Element "phase" (list_to_map [("duration", "6");
                                      ("state", "yyrr")]) []]].

Definition intersection_files (p : string) : file :=
  if bool_decide (p = get_path "/home/ilu" "intersection" "net")
  then Document intersection_doc else Missing.

(** A net file one of whose edges has no lane. *)
Definition laneless_doc : element :=
  Element "net" ∅
    [Element "edge" (list_to_map [("id", "e1"); ("from", "a"); ("to", "n")])
       []].

Definition laneless_files (p : string) : file :=
  if bool_decide (p = get_path "/home/ilu" "intersection" "net")
  then Document laneless_doc else Missing.

(** A route file one of whose routes names no edges. *)
Definition edgeless_route_doc : element :=
  Element "routes" ∅
    [Element "vehicle" (list_to_map [("id", "0")])
       [Element "route" (list_to_map [("edges", "a b")]) []];
     Element "vehicle" (list_to_map [("id", "1")])
       [Element "route" (list_to_map [("id", "r1")]) []]].

Definition edgeless_route_files (p : string) : file :=
  if bool_decide (p = get_path "/home/ilu" "grid" "rou")
  then Document edgeless_route_doc else Missing.

(** A net file whose traffic-light program has no [programID]. *)
Definition unnumbered_program_doc : element :=
  Element "net" ∅
    [Element "tlLogic" (list_to_map [("id", "n"); ("type", "static")])
       [Element "phase" (list_to_map [("duration", "39");
                                      ("state", "GGrr")]) []]].

Definition unnumbered_program_files (p : string) : file :=
  if bool_decide (p = get_path "/home/ilu" "intersection" "net")
  then Document unnumbered_program_doc else Missing.

(** A [TrafficLightParams] that records the calls of [add]. *)
Definition recorded_add (calls : list (value Z * gmap string (value Z)))
    (node_id : value Z) (kwargs : gmap string (value Z))
    : result (list (value Z * gmap string (value Z))) :=
  Ok (calls ++ [(node_id, kwargs)])%list.

End ScenariosExamples.

Module RolloutsExamples.
Import Py Rollouts.

(** A rollout of another experiment, with the fields of [rollout_0]; one
    with a field the others lack; one without rollout id. *)
Definition rollout_3 : dict Z string :=
  [("id", VScalar 8); ("rollout", VScalar 0); ("cycle", VScalar 90);
   ("rewards", VColl "r3"); ("velocities", VColl "v3")].

Definition rollout_4 : dict Z string :=
  [("id", VScalar 8); ("rollout", VScalar 0); ("cycle", VScalar 90);
   ("rewards", VColl "r4"); ("vehicles", VColl "n4")].

Definition rollout_5 : dict Z string :=
  [("id", VScalar 7); ("cycle", VScalar 90); ("rewards", VColl "r5")].

End RolloutsExamples.

Module RunnerExamples.
Import Py Exp Runner.

Definition z_mul (a b : pyobj Z) : result (pyobj Z) :=
  match a, b with
  | PNum x, PNum y => Ok (PNum (x * y))
  | _, _ => Raise TypeError
  end.

Definition z_truthy (o : pyobj Z) : bool :=
  match o with
  | PNone => false
  | PBool b => b
  | PNum x => negb (x =? 0)
  | PStr s => negb (bool_decide (s = ""))
  | PPolicies n => negb (bool_decide (n = 0%nat))
  | PEnv | PMethod => true
  end.

Definition z_len (o : pyobj Z) : result nat :=
  match o with
  | PStr s => Ok (String.length s)
  | PPolicies n => Ok n
  | _ => Raise TypeError
  end.

Definition z_subscript (o : pyobj Z) (i : nat) : result (pyobj Z) :=
  match o with
  | PPolicies n => if bool_decide (i < n)%nat then Ok (PNum (Z.of_nat i))
                   else Raise IndexError
  | _ => Raise TypeError
  end.

#[export] Instance z_objects : Objects Z := {|
  modulo := z_modulo; mul := z_mul; py_eq := z_eq;
  zero := PNum 0; zero_float := PNum 0; hundred := PNum 100;
  truthy := z_truthy; len := z_len; subscript := z_subscript
|}.

Definition counter (cycle : option (pyobj Z)) (steps : Z) : Env Z := {|
  sim_step := PNum 1;
  cycle_time := cycle;
  duration := match cycle with
              | Some (PNum c) => Some (PNum (steps mod c))
              | _ => None
              end;
  step_counter := Some (PNum steps)
|}.

Definition counting_environment (path : pyobj Z) (cycle : option (pyobj Z))
    : Environment Z := {|
  world := Z;
  obs := Z;
  action := unit;
  reward := Z;
  speeds := list Z;
  space := Z;
  env_of := counter cycle;
  has_dump := fun _ => true;
  network_name := fun _ => Ok "grid";
  rl_action := fun _ => None;
  emission_path := fun _ => Ok path;
  emission_pathself := fun _ => Raise (AttributeError "emission_pathself");
  reset := fun _ => Ok (0, 0);
  step := fun _ w => Ok ((w + 1, 1, PBool false), w + 1);
  get_ids := fun w => Ok (["veh_0"], w);
  get_speed := fun ids w => Ok ((fun _ => 10) <$> ids, w);
  observation_space := fun w => Ok (w, w);
  dump := fun _ _ w => Ok (tt, w);
  set_Q := fun _ w => Ok (tt, w);
  terminate := fun w => Ok (tt, w)
|}.

Definition z_mean (l : list Z) : result Z :=
  match l with
  | [] => Raise ZeroDivisionError
  | _ :: _ => Ok (foldr Z.add 0 l / Z.of_nat (length l))
  end.

Definition counting_library (path : pyobj Z) (cycle : option (pyobj Z))
    : @Library Z (counting_environment path cycle) :=
  @Build_Library Z (counting_environment path cycle)
    Z
    z_mean
    (fun l => z_mean (Z.of_nat <$> l))
    z_mean
    (fun r => Ok r)
    (fun j ss => match ss with
                 | PNum x => if x =? 0 then Raise ZeroDivisionError
                             else Ok (Z.of_nat j / x)
                 | _ => Raise TypeError
                 end)
    (fun _ => "n")
    (fun _ _ _ => Ok tt)
    (fun _ _ => Ok tt)
    (fun _ => Raise (AttributeError "dir_path"))
    (fun _ _ => Raise TypeError).

(** [run] on the counting simulator. *)
Definition counting_run (path : pyobj Z) (cycle : option (pyobj Z))
    (self : gmap string (pyobj Z)) (num_runs num_steps : nat)
    (convert_to_csv : bool)
    : result (@info Z (counting_environment path cycle)
                (counting_library path cycle) * Z) :=
  @run Z z_objects (counting_environment path cycle)
    (counting_library path cycle) (fun _ w => Ok (tt, w)) tt
    self num_runs num_steps None convert_to_csv 0.

End RunnerExamples.

(** * Facts *)

(** ** The comprehension combinators *)

Module PyFacts.
Import Py.

Lemma bind_Ok {A B} (m : result A) (f : A -> result B) (b : B) :
  m ≫= f = Ok b <-> exists a, m = Ok a /\ f a = Ok b.
Proof.
  destruct m as [a|e]; simpl; split.
  - intros Hf. exists a. auto.
  - intros (a' & Ha & Hf). congruence.
  - discriminate.
  - intros (a' & Ha & _). discriminate.
Qed.

Ltac inv_bind H :=
  let a := fresh "a" in
  let Ha := fresh "Ha" in
  apply bind_Ok in H; destruct H as (a & Ha & H).

(** *** [foldM] *)

Lemma foldM_app {A B} (f : B -> A -> result B) (b : B) (l1 l2 : list A) :
  foldM f b (l1 ++ l2) = foldM f b l1 ≫= fun b' => foldM f b' l2.
Proof.
  revert b. induction l1 as [|x l1 IH]; intros b; simpl; [reflexivity|].
  destruct (f b x) as [b'|e]; simpl; [apply IH | reflexivity].
Qed.

(** An invariant kept by every successful turn holds of the final state. *)
Lemma foldM_inv {A B} (P : B -> Prop) (f : B -> A -> result B)
    (l : list A) (b b' : B) :
  foldM f b l = Ok b' ->
  P b ->
  (forall b x b', x ∈ l -> P b -> f b x = Ok b' -> P b') ->
  P b'.
Proof.
  revert b. induction l as [|x l IH]; intros b Hf Hb Hstep; simpl in Hf.
  - congruence.
  - inv_bind Hf. apply (IH a); [done| |].
    + eapply Hstep; [|done..]. left.
    + intros b0 y b1 Hy. apply Hstep. by right.
Qed.

(** Every turn of a successful loop succeeded. *)
Lemma foldM_turns {A B} (f : B -> A -> result B) (l : list A) (b b' : B) :
  foldM f b l = Ok b' ->
  forall x, x ∈ l -> exists b0 b1, f b0 x = Ok b1.
Proof.
  revert b. induction l as [|x l IH]; intros b Hf y Hy; simpl in Hf.
  - by apply elem_of_nil in Hy.
  - inv_bind Hf. apply elem_of_cons in Hy as [->|Hy]; [by eauto|].
    by eapply IH.
Qed.

(** A loop whose turns succeed on the states it reaches succeeds. *)
Lemma foldM_ok {A B} (P : B -> Prop) (f : B -> A -> result B)
    (l : list A) (b : B) :
  P b ->
  (forall b x, x ∈ l -> P b -> exists b', f b x = Ok b' /\ P b') ->
  exists b', foldM f b l = Ok b' /\ P b'.
Proof.
  revert b. induction l as [|x l IH]; intros b Hb Hstep; simpl.
  - by exists b.
  - destruct (Hstep b x) as (b1 & -> & Hb1); [left|done|]. simpl.
    apply IH; [done|]. intros b0 y Hy. apply Hstep. by right.
Qed.

(** *** List comprehensions *)

Lemma list_comp_pure {A B} (cond : A -> result bool) (f : A -> result B)
    (c : A -> bool) (g : A -> B) (l : list A) :
  (forall x, x ∈ l -> cond x = Ok (c x)) ->
  (forall x, x ∈ l -> c x = true -> f x = Ok (g x)) ->
  list_comp cond f l = Ok (g <$> filter (fun x => c x = true) l).
Proof.
  induction l as [|x l IH]; intros Hc Hf; simpl; [reflexivity|].
  rewrite (Hc x) by left. simpl.
  rewrite IH; [|intros; apply Hc; by right|intros; apply Hf; by try right].
  rewrite filter_cons. destruct (c x) eqn:Hx; simpl.
  - rewrite (Hf x) by (done || left). simpl.
    destruct (decide (true = true)); done.
  - destruct (decide (false = true)); done.
Qed.

Lemma list_comp_false {A B} (cond : A -> result bool) (f : A -> result B)
    (l : list A) :
  (forall x, x ∈ l -> cond x = Ok false) ->
  list_comp cond f l = Ok [].
Proof.
  induction l as [|x l IH]; intros Hc; simpl; [reflexivity|].
  rewrite (Hc x) by left. simpl. apply IH. intros. apply Hc. by right.
Qed.

(** With a condition that holds throughout, the comprehension maps [f]
    over the list, in order. *)
Lemma list_comp_true_inv {A B} (cond : A -> result bool)
    (f : A -> result B) (l : list A) (ys : list B) :
  (forall x, x ∈ l -> cond x = Ok true) ->
  list_comp cond f l = Ok ys ->
  Forall2 (fun x y => f x = Ok y) l ys.
Proof.
  revert ys. induction l as [|x l IH]; intros ys Hc Hl; simpl in Hl.
  - injection Hl as <-. constructor.
  - rewrite (Hc x) in Hl by left. simpl in Hl.
    inv_bind Hl. inv_bind Hl. injection Hl as <-.
    constructor; [done|]. apply IH; [|done]. intros. apply Hc. by right.
Qed.

Lemma list_comp_true_ok {A B} (cond : A -> result bool)
    (f : A -> result B) (l : list A) (ys : list B) :
  (forall x, x ∈ l -> cond x = Ok true) ->
  Forall2 (fun x y => f x = Ok y) l ys ->
  list_comp cond f l = Ok ys.
Proof.
  intros Hc Hf. induction Hf as [|x y l ys Hxy Hf IH]; simpl; [reflexivity|].
  rewrite (Hc x) by left. simpl. rewrite Hxy. simpl.
  rewrite IH; [reflexivity|]. intros. apply Hc. by right.
Qed.

(** *** Dictionary comprehensions *)

Section DictComp.
Context {A V : Type} `{Countable K}.
Variables (cond : A -> result bool) (key : A -> result K)
          (val : A -> result V).

Let turn (m : gmap K V) (x : A) : result (gmap K V) :=
  c ← cond x;
  if (c : bool) then k ← key x; v ← val x; Ok (<[k := v]> m) else Ok m.

Lemma turn_inv m x m' :
  turn m x = Ok m' ->
  (cond x = Ok false /\ m' = m) \/
  (exists k v, cond x = Ok true /\ key x = Ok k /\ val x = Ok v /\
               m' = <[k := v]> m).
Proof.
  unfold turn. intros Ht. inv_bind Ht. destruct a.
  - inv_bind Ht. inv_bind Ht. injection Ht as <-. right. eauto 10.
  - injection Ht as <-. by left.
Qed.

(** Every entry of the dictionary was put there by a member of the list. *)
Lemma dict_comp_lookup_inv l m k v :
  dict_comp cond key val l = Ok m ->
  m !! k = Some v ->
  exists x, x ∈ l /\ cond x = Ok true /\ key x = Ok k /\ val x = Ok v.
Proof.
  intros Hd. revert k v.
  apply (foldM_inv
           (fun m => forall k v, m !! k = Some v ->
              exists x, x ∈ l /\ cond x = Ok true /\ key x = Ok k /\
                        val x = Ok v) _ _ _ _ Hd).
  - intros k v. by rewrite lookup_empty.
  - intros m0 x m1 Hx IH Ht k v Hk.
    apply turn_inv in Ht as [[_ ->]|(k' & v' & Hc & Hk' & Hv' & ->)];
      [by apply IH|].
    destruct (decide (k' = k)) as [->|Hne].
    + rewrite lookup_insert_eq in Hk. injection Hk as <-. eauto.
    + rewrite lookup_insert_ne in Hk by done. by apply IH.
Qed.

Lemma dict_comp_turns l m x :
  dict_comp cond key val l = Ok m ->
  x ∈ l ->
  cond x = Ok false \/
  (exists k v, cond x = Ok true /\ key x = Ok k /\ val x = Ok v).
Proof.
  intros Hd Hx. destruct (foldM_turns _ _ _ _ Hd x Hx) as (m0 & m1 & Ht).
  apply turn_inv in Ht as [[? _]|(k & v & ? & ? & ? & _)]; eauto 10.
Qed.

(** A key that every member of the list computing it binds to [v] is bound
    to [v]. *)
Lemma dict_comp_lookup l m x k v :
  dict_comp cond key val l = Ok m ->
  x ∈ l -> cond x = Ok true -> key x = Ok k ->
  (forall y, y ∈ l -> cond y = Ok true -> key y = Ok k -> val y = Ok v) ->
  m !! k = Some v.
Proof.
  intros Hd Hx Hc Hk Hfun.
  apply list_elem_of_split in Hx as (l1 & l2 & ->).
  unfold dict_comp in Hd. rewrite foldM_app in Hd. inv_bind Hd.
  simpl in Hd. inv_bind Hd. rename a0 into m1.
  assert (m1 !! k = Some v) as Hm1.
  { apply turn_inv in Ha0 as [[Hc' _]|(k' & v' & _ & Hk' & Hv' & ->)];
      [congruence|].
    assert (k' = k) as -> by congruence.
    rewrite lookup_insert_eq. f_equal.
    assert (val x = Ok v) as Hv.
    { apply Hfun; [|done..]. apply elem_of_app. right. left. }
    congruence. }
  apply (foldM_inv (fun m => m !! k = Some v) _ _ _ _ Hd Hm1).
  intros m0 y m2 Hy IH Ht.
  apply turn_inv in Ht as [[_ ->]|(k' & v' & Hc' & Hk' & Hv' & ->)]; [done|].
  destruct (decide (k' = k)) as [->|Hne].
  - rewrite lookup_insert_eq. f_equal.
    assert (val y = Ok v) as Hv.
    { apply Hfun; [|done..]. apply elem_of_app. right. by right. }
    congruence.
  - by rewrite lookup_insert_ne.
Qed.

Lemma dict_comp_None l m k :
  dict_comp cond key val l = Ok m ->
  (forall x, x ∈ l -> cond x = Ok true -> key x <> Ok k) ->
  m !! k = None.
Proof.
  intros Hd Hne.
  apply (foldM_inv (fun m => m !! k = None) _ _ _ _ Hd).
  - apply lookup_empty.
  - intros m0 x m1 Hx IH Ht.
    apply turn_inv in Ht as [[_ ->]|(k' & v' & Hc & Hk' & _ & ->)]; [done|].
    rewrite lookup_insert_ne; [done|]. intros ->. by eapply Hne.
Qed.

Lemma dict_comp_ok l :
  (forall x, x ∈ l ->
     cond x = Ok false \/
     (cond x = Ok true /\ is_ok (key x) /\ is_ok (val x))) ->
  is_ok (dict_comp cond key val l).
Proof.
  intros Hl.
  destruct (foldM_ok (fun _ => True) turn l ∅ I) as (m & Hm & _); [|by exists m].
  intros m x Hx _. unfold turn.
  destruct (Hl x Hx) as [->|(-> & [k ->] & [v ->])]; simpl; eauto.
Qed.

End DictComp.

(** *** Set comprehensions *)

Section SetComp.
Context {A : Type} `{Countable K}.
Variables (cond : A -> result bool) (f : A -> result K).

Let turn (acc : gset K) (x : A) : result (gset K) :=
  c ← cond x;
  if (c : bool) then k ← f x; Ok ({[k]} ∪ acc) else Ok acc.

Lemma set_turn_inv acc x acc' :
  turn acc x = Ok acc' ->
  (cond x = Ok false /\ acc' = acc) \/
  (exists k, cond x = Ok true /\ f x = Ok k /\ acc' = {[k]} ∪ acc).
Proof.
  unfold turn. intros Ht. inv_bind Ht. destruct a.
  - inv_bind Ht. injection Ht as <-. right. eauto.
  - injection Ht as <-. by left.
Qed.

Lemma set_comp_elem_inv l X k :
  set_comp cond f l = Ok X ->
  k ∈ X ->
  exists x, x ∈ l /\ cond x = Ok true /\ f x = Ok k.
Proof.
  intros Hs. revert k.
  apply (foldM_inv
           (fun X => forall k, k ∈ X ->
              exists x, x ∈ l /\ cond x = Ok true /\ f x = Ok k)
           _ _ _ _ Hs).
  - intros k Hk. by apply not_elem_of_empty in Hk.
  - intros X0 x X1 Hx IH Ht k Hk.
    apply set_turn_inv in Ht as [[_ ->]|(k' & Hc & Hk' & ->)]; [by apply IH|].
    apply elem_of_union in Hk as [Hk|Hk]; [|by apply IH].
    apply elem_of_singleton in Hk as ->. eauto.
Qed.

Lemma set_comp_elem l X x k :
  set_comp cond f l = Ok X ->
  x ∈ l -> cond x = Ok true -> f x = Ok k ->
  k ∈ X.
Proof.
  intros Hs Hx Hc Hk.
  apply list_elem_of_split in Hx as (l1 & l2 & ->).
  unfold set_comp in Hs. rewrite foldM_app in Hs. inv_bind Hs.
  simpl in Hs. inv_bind Hs. rename a0 into X1.
  assert (k ∈ X1) as HX1.
  { apply set_turn_inv in Ha0 as [[Hc' _]|(k' & _ & Hk' & ->)];
      [congruence|].
    assert (k' = k) as -> by congruence. set_solver. }
  apply (foldM_inv (fun X => k ∈ X) _ _ _ _ Hs HX1).
  intros X0 y X2 _ IH Ht.
  apply set_turn_inv in Ht as [[_ ->]|(k' & _ & _ & ->)]; set_solver.
Qed.


Lemma set_comp_ok l :
  (forall x, x ∈ l ->
     cond x = Ok false \/ (cond x = Ok true /\ is_ok (f x))) ->
  is_ok (set_comp cond f l).
Proof.
  intros Hl.
  destruct (foldM_ok (fun _ => True) turn l ∅ I) as (X & HX & _); [|by exists X].
  intros X x Hx _. unfold turn.
  destruct (Hl x Hx) as [->|(-> & [k ->])]; simpl; eauto.
Qed.

End SetComp.

(** *** A comprehension over keys: [{k: f k for k in keys}] *)

Section PerNode.
Context `{Countable K} {V : Type}.
Variable f : K -> result V.

Definition others_ok (ids : list K) (nid : K) : Prop :=
  forall nid', nid' ∈ ids -> nid' <> nid -> is_ok (f nid').

Lemma per_node_inv (ids : list K) (M : gmap K V) :
  dict_comp always Ok f ids = Ok M ->
  forall nid,
    (nid ∈ ids -> exists v, f nid = Ok v /\ M !! nid = Some v) /\
    (nid ∉ ids -> M !! nid = None).
Proof.
  intros HM nid. split.
  - intros Hnid.
    destruct (dict_comp_turns _ _ _ _ _ _ HM Hnid)
      as [Hc|(k & v & _ & Hk & Hv)]; [discriminate|].
    exists v. split; [done|].
    eapply dict_comp_lookup; [exact HM|exact Hnid|done|done|].
    intros y _ _ [= ->]. done.
  - intros Hnid. eapply dict_comp_None; [exact HM|].
    intros x Hx _ [= ->]. done.
Qed.

Lemma per_node_ok (ids : list K) (nid : K) (v : V) :
  nid ∈ ids -> f nid = Ok v -> others_ok ids nid ->
  exists M, dict_comp always Ok f ids = Ok M /\ M !! nid = Some v.
Proof.
  intros Hnid Hv Hothers.
  destruct (dict_comp_ok always Ok f ids) as [M HM].
  { intros x Hx. right. split; [done|]. split; [by exists x|].
    destruct (decide (x = nid)) as [->|Hne]; [by exists v|by apply Hothers]. }
  exists M. split; [done|].
  destruct (per_node_inv ids M HM nid) as [Hin _].
  destruct (Hin Hnid) as (v' & Hv' & ->). congruence.
Qed.

End PerNode.

(** *** [sorted] and string indexing *)

Lemma elem_of_sorted (X : gset string) (e : string) :
  e ∈ sorted X <-> e ∈ X.
Proof.
  unfold sorted. rewrite merge_sort_Permutation. apply elem_of_elements.
Qed.

Lemma Sorted_sorted (X : gset string) : Sorted String.le (sorted X).
Proof. apply (Sorted_merge_sort String.le). Qed.

Lemma NoDup_sorted (X : gset string) : NoDup (sorted X).
Proof.
  unfold sorted. rewrite merge_sort_Permutation. apply NoDup_elements.
Qed.

Lemma sorted_nil (X : gset string) : sorted X = [] <-> X = ∅.
Proof.
  split.
  - intros Hs. apply set_eq. intros e. rewrite <- elem_of_sorted, Hs.
    set_solver.
  - intros ->. reflexivity.
Qed.

Lemma str_get_In (s : string) (n : nat) (c : ascii) :
  String.get n s = Some c -> c ∈ list_ascii_of_string s.
Proof.
  revert n. induction s as [|a s IH]; intros n; simpl; [discriminate|].
  destruct n as [|n].
  - intros [= ->]. left.
  - intros Hn. right. by eapply IH.
Qed.

Lemma str_index_elem (s : string) (i : Z) (c : ascii) :
  str_index s i = Ok c -> c ∈ list_ascii_of_string s.
Proof.
  unfold str_index. destruct (_ && _); [|discriminate].
  destruct (String.get _ s) as [c'|] eqn:Hg; [|discriminate].
  intros [= <-]. by eapply str_get_In.
Qed.

Lemma str_get_lt (s : string) (n : nat) :
  (n < String.length s)%nat -> is_Some (String.get n s).
Proof.
  revert n. induction s as [|a s IH]; intros n; simpl; [lia|].
  destruct n as [|n]; [by eauto|]. intros Hn. apply IH. lia.
Qed.

(** The valid positions of a string are those from [-len] to [len - 1]. *)
Lemma str_index_ok (s : string) (i : Z) :
  - Z.of_nat (String.length s) <= i < Z.of_nat (String.length s) ->
  is_ok (str_index s i).
Proof.
  intros Hi. unfold str_index.
  set (n := Z.of_nat (String.length s)) in *.
  set (j := if i <? 0 then i + n else i).
  assert (0 <= j < n) as Hj by (unfold j; destruct (Z.ltb_spec i 0); lia).
  destruct (Z.leb_spec 0 j); [|lia]. destruct (Z.ltb_spec j n); [|lia]. simpl.
  destruct (str_get_lt s (Z.to_nat j)) as [c ->]; [lia|]. by exists c.
Qed.

End PyFacts.

(** ** The network properties *)

Module NetFacts.
Import Py PyFacts Net NetCache NetExamples.

Section WithInt.
Variable int : string -> result Z.

(** *** [states] and [durations] *)

(** The comprehension over the phase entries of the program of a node. *)
Definition per_phase {B} (g : gmap string string -> result B)
    (configs : gmap string tl_config) (nid : string) : result (list B) :=
  cfg ← getitem configs nid;
  ps ← field "phases" (cfg_phases cfg);
  list_comp (fun _ => cfg ← getitem configs nid; fn cfg) g ps.

Lemma states_of_per_phase configs nid :
  states_of configs nid = per_phase (fun p => getitem p "state") configs nid.
Proof. reflexivity. Qed.

Lemma durations_of_per_phase configs nid :
  durations_of int configs nid
  = per_phase (fun p => d ← getitem p "duration"; int d) configs nid.
Proof. reflexivity. Qed.

Lemma per_phase_unregistered {B} (g : gmap string string -> result B)
    configs nid :
  configs !! nid = None -> per_phase g configs nid = Raise (KeyError nid).
Proof. intros Hn. unfold per_phase, getitem. by rewrite Hn. Qed.

Lemma per_phase_other {B} (g : gmap string string -> result B)
    configs nid cfg ps :
  configs !! nid = Some cfg -> cfg_phases cfg = Some ps ->
  fn cfg = Ok false ->
  per_phase g configs nid = Ok [].
Proof.
  intros Hcfg Hps Hfn. unfold per_phase, getitem. rewrite Hcfg. simpl.
  rewrite Hps. simpl. apply list_comp_false. intros _ _. by rewrite ?Hcfg.
Qed.

Lemma per_phase_static {B} (g : gmap string string -> result B)
    configs nid cfg ps ys :
  configs !! nid = Some cfg -> cfg_phases cfg = Some ps ->
  fn cfg = Ok true ->
  per_phase g configs nid = Ok ys <-> Forall2 (fun p y => g p = Ok y) ps ys.
Proof.
  intros Hcfg Hps Hfn. unfold per_phase, getitem. rewrite Hcfg. simpl.
  rewrite Hps. simpl. split.
  - apply list_comp_true_inv. intros _ _. by rewrite ?Hcfg.
  - apply list_comp_true_ok. intros _ _. by rewrite ?Hcfg.
Qed.

Lemma fn_static cfg :
  cfg_type cfg = Some "static" -> cfg_programID cfg = Some 1 ->
  fn cfg = Ok true.
Proof. intros Ht Hp. unfold fn. rewrite Ht, Hp. reflexivity. Qed.

Lemma fn_other cfg t :
  cfg_type cfg = Some t ->
  t <> "static" \/ (exists pid, cfg_programID cfg = Some pid /\ pid <> 1) ->
  fn cfg = Ok false.
Proof.
  intros Ht Hor. unfold fn. rewrite Ht. simpl.
  destruct (decide (t = "static")) as [->|Hne].
  - destruct Hor as [?|(pid & -> & Hpid)]; [done|]. simpl.
    by rewrite bool_decide_eq_false_2.
  - by rewrite bool_decide_eq_false_2.
Qed.

(** A total function on every member gives a list related to the list. *)
Lemma Forall_Forall2_ok {A B} (g : A -> result B) (l : list A) :
  Forall (fun x => is_ok (g x)) l ->
  exists ys, Forall2 (fun x y => g x = Ok y) l ys.
Proof.
  induction 1 as [|x l [y Hy] _ [ys IH]].
  - exists []. constructor.
  - exists (y :: ys). by constructor.
Qed.

(** C9: for a traffic-light node with a static program-1 entry whose phase
    entries carry a state and an integer duration, [durations] holds the
    integer duration of every phase entry, in order, whether or not the
    state of the entry has a green bit; the list is as long as the list of
    [states]. *)
Theorem durations_cover_every_state (self : Network) ids nid cfg ps :
  tls_ids self = Ok ids -> nid ∈ ids ->
  traffic_lights self !! nid = Some cfg ->
  cfg_type cfg = Some "static" -> cfg_programID cfg = Some 1 ->
  cfg_phases cfg = Some ps ->
  Forall (fun p => is_Some (p !! "state") /\
                   exists t, p !! "duration" = Some t /\ is_ok (int t)) ps ->
  others_ok (states_of (traffic_lights self)) ids nid ->
  others_ok (durations_of int (traffic_lights self)) ids nid ->
  exists S D ss ds,
    states self = Ok S /\ durations int self = Ok D /\
    S !! nid = Some ss /\ D !! nid = Some ds /\
    Forall2 (fun p s => p !! "state" = Some s) ps ss /\
    Forall2 (fun p d => exists t, p !! "duration" = Some t /\ int t = Ok d)
            ps ds /\
    length ds = length ps /\ length ds = length ss.
Proof.
  intros Hids Hnid Hcfg Ht Hp Hps Hwf Hst Hdu.
  pose proof (fn_static cfg Ht Hp) as Hfn.
  destruct (Forall_Forall2_ok (fun p => getitem p "state") ps) as [ss Hss].
  { eapply Forall_impl; [exact Hwf|]. intros p [[s Hs] _].
    exists s. unfold getitem. by rewrite Hs. }
  destruct (Forall_Forall2_ok (fun p => d ← getitem p "duration"; int d) ps)
    as [ds Hds].
  { eapply Forall_impl; [exact Hwf|]. intros p [_ (t & Ht' & [d Hd])].
    exists d. unfold getitem. rewrite Ht'. simpl. done. }
  assert (states_of (traffic_lights self) nid = Ok ss) as Hs1.
  { rewrite states_of_per_phase. by eapply per_phase_static. }
  assert (durations_of int (traffic_lights self) nid = Ok ds) as Hd1.
  { rewrite durations_of_per_phase. by eapply per_phase_static. }
  destruct (per_node_ok _ ids nid ss Hnid Hs1 Hst) as (S & HS & HSn).
  destruct (per_node_ok _ ids nid ds Hnid Hd1 Hdu) as (D & HD & HDn).
  exists S, D, ss, ds.
  assert (length ds = length ps) as Hlen
    by (symmetry; by eapply Forall2_length).
  assert (length ss = length ps) as Hlen'
    by (symmetry; by eapply Forall2_length).
  unfold states, durations. rewrite Hids. simpl.
  repeat split; try done; try lia.
  - eapply Forall2_impl; [exact Hss|]. intros p s. unfold getitem.
    destruct (p !! "state"); [by intros [= ->]|discriminate].
  - eapply Forall2_impl; [exact Hds|]. intros p d. unfold getitem.
    destruct (p !! "duration") as [t|]; [|discriminate]. simpl. eauto.
Qed.

(** *** The connections of a node *)

(** The connections [phases] reads for a node. *)
Definition controlled (self : Network) (nid : string)
    : list (gmap string string) :=
  filter (fun c => fn_conn nid c = true) (connections self).

(** The table of connections that all carry a link index [int] reads, and
    a [from] edge. *)
Lemma links_of_total conns :
  Forall (fun c => exists li, c !! "linkIndex" = Some li /\ is_ok (int li) /\
                              is_Some (c !! "from")) conns ->
  is_ok (links_of int conns).
Proof.
  intros Hall. apply dict_comp_ok. intros c Hc. right.
  rewrite Forall_forall in Hall.
  destruct (Hall c Hc) as (li & Hli & [lnk Hint] & [e Hfrom]).
  unfold getitem. rewrite Hli, Hfrom. simpl.
  split; [by rewrite ?bool_decide_eq_true_2 by eauto|].
  split; [by exists lnk|by exists e].
Qed.

(** C3, amended: for a traffic-light node with a registered program that
    has a phase list and a type, and that is not the static program 1 (its
    type is not [static], or it has a program id other than 1), the
    comprehensions of [states] and [durations] give the empty list for the
    node.  These are the entries of the node in [states] and [durations]
    when the entries of the other traffic-light nodes can be computed; the
    entry of the node in [phases] is the empty mapping when moreover the
    phases of the other traffic-light nodes can be derived and every
    connection of the node with a link index has an index [int] reads and a
    [from] edge. *)
Theorem other_program_gives_empty (self : Network) ids nid cfg ps t :
  tls_ids self = Ok ids -> nid ∈ ids ->
  traffic_lights self !! nid = Some cfg ->
  cfg_phases cfg = Some ps ->
  cfg_type cfg = Some t ->
  t <> "static" \/ (exists pid, cfg_programID cfg = Some pid /\ pid <> 1) ->
  (states_of (traffic_lights self) nid = Ok [] /\
   durations_of int (traffic_lights self) nid = Ok []) /\
  (others_ok (states_of (traffic_lights self)) ids nid ->
   exists S, states self = Ok S /\ S !! nid = Some []) /\
  (others_ok (durations_of int (traffic_lights self)) ids nid ->
   exists D, durations int self = Ok D /\ D !! nid = Some []) /\
  (others_ok (states_of (traffic_lights self)) ids nid ->
   others_ok (phases_of int self) ids nid ->
   Forall (fun c => exists li, c !! "linkIndex" = Some li /\
                               is_ok (int li) /\ is_Some (c !! "from"))
          (controlled self nid) ->
   exists P, phases int self = Ok P /\ P !! nid = Some ∅).
Proof.
  intros Hids Hnid Hcfg Hps Ht Hor.
  pose proof (fn_other cfg t Ht Hor) as Hfn.
  assert (states_of (traffic_lights self) nid = Ok []) as Hs1.
  { rewrite states_of_per_phase. by eapply per_phase_other. }
  assert (durations_of int (traffic_lights self) nid = Ok []) as Hd1.
  { rewrite durations_of_per_phase. by eapply per_phase_other. }
  split; [done|].
  assert (others_ok (states_of (traffic_lights self)) ids nid ->
          exists S, states self = Ok S /\ S !! nid = Some []) as HS.
  { intros Hst. unfold states. rewrite Hids. simpl.
    by apply per_node_ok. }
  split; [done|]. split.
  - intros Hdu. unfold durations. rewrite Hids. simpl. by apply per_node_ok.
  - intros Hst Hph Hall.
    destruct (links_of_total _ Hall) as [links Hlinks].
    unfold controlled in Hlinks.
    destruct (HS Hst) as (S & HSok & HSn).
    unfold phases. rewrite Hids. simpl. apply per_node_ok; [done| |done].
    unfold phases_of. rewrite HSok. simpl. unfold getitem at 1.
    rewrite HSn. simpl. rewrite Hlinks. reflexivity.
Qed.

(** *** [phases] *)

Lemma links_of_lookup_inv conns links lnk e :
  links_of int conns = Ok links ->
  links !! lnk = Some e ->
  exists conn li, conn ∈ conns /\ conn !! "linkIndex" = Some li /\
                  int li = Ok lnk /\ conn !! "from" = Some e.
Proof.
  intros Hl He.
  destruct (dict_comp_lookup_inv _ _ _ _ _ _ _ Hl He)
    as (conn & Hconn & _ & Hkey & Hval).
  inv_bind Hkey. exists conn, a. unfold getitem in *.
  destruct (conn !! "linkIndex") as [li|]; [|discriminate].
  destruct (conn !! "from") as [e'|]; [|discriminate].
  injection Ha as <-. injection Hval as <-. done.
Qed.

(** A link is green in a state when the state has [G] or [g] at its
    position. *)
Definition green_at (state : string) (lnk : Z) : Prop :=
  exists c, str_index state lnk = Ok c /\ is_green c = true.

Lemma components_of_elem links state C e :
  components_of links state = Ok C ->
  e ∈ C <-> exists lnk, links !! lnk = Some e /\ green_at state lnk.
Proof.
  intros HC. split.
  - intros He.
    destruct (set_comp_elem_inv _ _ _ _ _ HC He)
      as ([lnk e'] & Hin & Hc & [= ->]).
    exists lnk. split; [by apply elem_of_map_to_list|].
    inv_bind Hc. injection Hc as Hg. by exists a.
  - intros (lnk & Hl & c & Hc & Hg).
    eapply (set_comp_elem _ _ _ _ (lnk, e)); [exact HC| | |done].
    + by apply elem_of_map_to_list.
    + simpl. rewrite Hc. simpl. by rewrite Hg.
Qed.

Lemma components_of_ok links state :
  (forall lnk e, links !! lnk = Some e -> is_ok (str_index state lnk)) ->
  is_ok (components_of links state).
Proof.
  intros Hv. apply set_comp_ok. intros [lnk e] Hin.
  apply elem_of_map_to_list in Hin. destruct (Hv _ _ Hin) as [c Hc].
  simpl. rewrite Hc. simpl. destruct (is_green c); [right|left]; [|done].
  split; [done|by exists e].
Qed.

(** The phases a list of green sets gives: the sorted non-empty ones. *)
Definition phase_lists (comps : list (gset string)) : list (list string) :=
  sorted <$> filter (fun c => c ≠ ∅) comps.

Lemma phase_lists_cons c comps :
  phase_lists (c :: comps)
  = if bool_decide (c ≠ ∅) then sorted c :: phase_lists comps
    else phase_lists comps.
Proof.
  unfold phase_lists. rewrite filter_cons.
  destruct (decide (c ≠ ∅)) as [Hc|Hc].
  - by rewrite bool_decide_eq_true_2.
  - by rewrite bool_decide_eq_false_2.
Qed.

Lemma phase_loop_spec links sts comps i ph :
  Forall2 (fun st c => components_of links st = Ok c) sts comps ->
  foldM (phase_step links) (i, ph) sts
  = Ok ((i + length (phase_lists comps))%nat,
        map_seq i (phase_lists comps) ∪ ph).
Proof.
  intros Hf. revert i ph.
  induction Hf as [|st c sts comps Hc Hf IH]; intros i ph; simpl.
  - rewrite Nat.add_0_r. by rewrite (left_id_L ∅ (∪)).
  - rewrite Hc. simpl. rewrite phase_lists_cons.
    destruct (bool_decide (c ≠ ∅)); simpl; rewrite IH; [|done].
    f_equal. f_equal; [lia|].
    rewrite <- insert_union_r by apply map_seq_cons_disjoint.
    by rewrite insert_union_l.
Qed.

Lemma phase_loop_comps links sts acc acc' :
  foldM (phase_step links) acc sts = Ok acc' ->
  exists comps, Forall2 (fun st c => components_of links st = Ok c) sts comps.
Proof.
  revert acc. induction sts as [|st sts IH]; intros [i ph] Hl; simpl in Hl.
  - exists []. constructor.
  - inv_bind Hl. unfold phase_step in Ha. inv_bind Ha.
    destruct (IH _ Hl) as [comps Hcomps].
    exists (a0 :: comps). by constructor.
Qed.

Lemma phases_loop_inv links sts i ph :
  phases_loop links sts = Ok (i, ph) ->
  exists comps,
    Forall2 (fun st c => components_of links st = Ok c) sts comps /\
    ph = map_seq 0 (phase_lists comps).
Proof.
  intros Hl. destruct (phase_loop_comps _ _ _ _ Hl) as [comps Hcomps].
  exists comps. split; [done|]. unfold phases_loop in Hl.
  rewrite (phase_loop_spec _ _ _ _ _ Hcomps) in Hl.
  injection Hl as _ <-. by rewrite (right_id_L ∅ (∪)).
Qed.

Lemma size_map_seq_0 {A} (l : list A) :
  size (map_seq 0 l : gmap nat A) = length l.
Proof.
  generalize 0%nat. induction l as [|x l IH]; intros n; simpl.
  - apply map_size_empty.
  - rewrite map_size_insert_None by apply map_seq_cons_disjoint.
    by rewrite IH.
Qed.

Lemma phase_lists_length comps :
  (length (phase_lists comps) <= length comps)%nat.
Proof. unfold phase_lists. rewrite length_fmap. apply length_filter. Qed.

(** What [phases_of] computes, when it returns. *)
Lemma phases_of_inv (self : Network) nid ph :
  phases_of int self nid = Ok ph ->
  exists S sts links comps,
    states self = Ok S /\ S !! nid = Some sts /\
    links_of int (filter (fun c => fn_conn nid c = true) (connections self))
    = Ok links /\
    Forall2 (fun st c => components_of links st = Ok c) sts comps /\
    ph = map_seq 0 (phase_lists comps).
Proof.
  unfold phases_of. intros Hp.
  inv_bind Hp. rename a into S. inv_bind Hp. rename a into sts.
  inv_bind Hp. rename a into links. inv_bind Hp. destruct a as [i ph'].
  injection Hp as <-.
  destruct (phases_loop_inv _ _ _ _ Ha2) as (comps & Hcomps & ->).
  exists S, sts, links, comps. repeat split; try done.
  unfold getitem in Ha0. destruct (S !! nid); [|discriminate].
  by injection Ha0 as ->.
Qed.

(** C2, amended: whenever [phases] is derived, the mapping of a
    traffic-light node has at most as many phases as the node has states;
    its indices are the integers below its size, given in state order to the
    states whose green set is not empty; every phase is a non-empty, sorted,
    duplicate-free list, and each of its members is the [from] edge of a
    connection whose [tl] is the node and which carries a [linkIndex]. *)
Theorem phases_invariant (self : Network) P nid ph :
  phases int self = Ok P -> P !! nid = Some ph ->
  exists ids sts links comps,
    tls_ids self = Ok ids /\ nid ∈ ids /\
    (exists S, states self = Ok S /\ S !! nid = Some sts) /\
    links_of int (filter (fun c => fn_conn nid c = true) (connections self))
    = Ok links /\
    Forall2 (fun st c => components_of links st = Ok c) sts comps /\
    ph = map_seq 0 (sorted <$> filter (fun c => c ≠ ∅) comps) /\
    (size ph <= length sts)%nat /\
    (forall i, is_Some (ph !! i) <-> (i < size ph)%nat) /\
    (forall i l, ph !! i = Some l ->
       l <> [] /\ Sorted String.le l /\ NoDup l /\
       forall e, e ∈ l ->
         exists conn, conn ∈ connections self /\
                      conn !! "tl" = Some nid /\
                      is_Some (conn !! "linkIndex") /\
                      conn !! "from" = Some e).
Proof.
  unfold phases. intros HP Hph. inv_bind HP. rename a into ids.
  destruct (per_node_inv _ ids P HP nid) as [Hin Hout].
  destruct (decide (nid ∈ ids)) as [Hnid|Hnid];
    [|rewrite (Hout Hnid) in Hph; discriminate].
  destruct (Hin Hnid) as (ph' & Hof & Hph'). rewrite Hph in Hph'.
  injection Hph' as <-.
  destruct (phases_of_inv self nid ph Hof)
    as (S & sts & links & comps & HS & HSn & Hlinks & Hcomps & ->).
  exists ids, sts, links, comps.
  fold (phase_lists comps). rewrite size_map_seq_0.
  do 6 (split; [by eauto|]).
  split; [|split].
  - rewrite (Forall2_length _ _ _ Hcomps). apply phase_lists_length.
  - intros i. rewrite lookup_map_seq_0. split.
    + apply lookup_lt_is_Some_1.
    + apply lookup_lt_is_Some_2.
  - intros i l Hil. rewrite lookup_map_seq_0 in Hil.
    apply list_elem_of_lookup_2, list_elem_of_fmap in Hil as (c & -> & Hc).
    apply list_elem_of_filter in Hc as [Hne Hc].
    split; [|split; [apply Sorted_sorted|split; [apply NoDup_sorted|]]].
    { intros Hs. by apply sorted_nil in Hs. }
    intros e He. apply elem_of_sorted in He.
    apply list_elem_of_lookup in Hc as [j Hj].
    destruct (Forall2_lookup_r _ _ _ _ _ Hcomps Hj) as (st & _ & Hst).
    destruct (proj1 (components_of_elem _ _ _ e Hst) He) as (lnk & Hl & _).
    destruct (links_of_lookup_inv _ _ _ _ Hlinks Hl)
      as (conn & li & Hconn & Hli & _ & Hfrom).
    apply list_elem_of_filter in Hconn as [Hfn Hconn].
    exists conn. split; [done|]. unfold fn_conn in Hfn.
    apply andb_true_iff in Hfn as [Htl _].
    apply bool_decide_eq_true in Htl. rewrite Hli. eauto.
Qed.

Ltac in_states :=
  unfold docstring_states; rewrite !elem_of_cons; auto 6.

Lemma no_green_at state lnk :
  Forall (fun c => is_green c = false) (list_ascii_of_string state) ->
  ~ green_at state lnk.
Proof.
  intros Hall (c & Hc & Hg). apply str_index_elem in Hc.
  rewrite Forall_forall in Hall. specialize (Hall c Hc). congruence.
Qed.

Lemma components_of_empty links state C :
  components_of links state = Ok C ->
  (forall lnk, ~ green_at state lnk) ->
  C = ∅.
Proof.
  intros HC Hno. apply set_eq. intros e. split; [|set_solver].
  intros He. destruct (proj1 (components_of_elem _ _ _ e HC) He)
    as (lnk & _ & Hg). by destruct (Hno lnk).
Qed.

Lemma components_of_nonempty links state C lnk e :
  components_of links state = Ok C ->
  links !! lnk = Some e -> green_at state lnk ->
  C <> ∅.
Proof.
  intros HC Hl Hg ->.
  assert (e ∈ (∅ : gset string)) as He
    by (apply (components_of_elem _ _ _ e HC); eauto).
  set_solver.
Qed.

(** The two phases of a node whose states are those of the docstring, in
    terms of the table of its links: the table has its keys at positions of
    the ten-signal states, one on a green signal of the first state and one
    on a green signal of the third. *)
Lemma two_phases_of_links (self : Network) ids nid S links :
  tls_ids self = Ok ids -> nid ∈ ids ->
  states self = Ok S -> S !! nid = Some docstring_states ->
  links_of int (filter (fun c => fn_conn nid c = true) (connections self))
  = Ok links ->
  (forall lnk e, links !! lnk = Some e -> -10 <= lnk < 10) ->
  (exists lnk e, links !! lnk = Some e /\ green_at "GGrrrGGrrr" lnk) ->
  (exists lnk e, links !! lnk = Some e /\ green_at "rrGGGrrGGG" lnk) ->
  exists l0 l1 : list string,
    phases_of int self nid = Ok (<[0%nat := l0]> (<[1%nat := l1]> ∅)) /\
    (Sorted String.le l0 /\ NoDup l0 /\
     forall e, e ∈ l0 <->
       exists lnk, links !! lnk = Some e /\ green_at "GGrrrGGrrr" lnk) /\
    (Sorted String.le l1 /\ NoDup l1 /\
     forall e, e ∈ l1 <->
       exists lnk, links !! lnk = Some e /\ green_at "rrGGGrrGGG" lnk) /\
    (others_ok (phases_of int self) ids nid ->
     exists P, phases int self = Ok P /\
               P !! nid = Some (<[0%nat := l0]> (<[1%nat := l1]> ∅))).
Proof.
  intros Hids Hnid HS HSn Hlinks Hvalid (k1 & e1 & Hk1 & Hg1)
    (k3 & e3 & Hk3 & Hg3).
  assert (forall st, st ∈ docstring_states ->
                     is_ok (components_of links st)) as Hok.
  { intros st Hst. apply components_of_ok. intros lnk e Hl.
    apply str_index_ok. specialize (Hvalid _ _ Hl).
    unfold docstring_states in Hst.
    repeat (apply elem_of_cons in Hst as [->|Hst]; [simpl; lia|]).
    by apply elem_of_nil in Hst. }
  destruct (Hok "GGrrrGGrrr") as [C1 HC1]; [in_states|].
  destruct (Hok "yyrrryyrrr") as [C2 HC2]; [in_states|].
  destruct (Hok "rrGGGrrGGG") as [C3 HC3]; [in_states|].
  destruct (Hok "rryyyrryyy") as [C4 HC4]; [in_states|].
  assert (C2 = ∅) as ->.
  { apply (components_of_empty _ _ _ HC2). intros lnk.
    apply no_green_at. repeat constructor. }
  assert (C4 = ∅) as ->.
  { apply (components_of_empty _ _ _ HC4). intros lnk.
    apply no_green_at. repeat constructor. }
  pose proof (components_of_nonempty _ _ _ _ _ HC1 Hk1 Hg1) as HC1ne.
  pose proof (components_of_nonempty _ _ _ _ _ HC3 Hk3 Hg3) as HC3ne.
  assert (phases_of int self nid
          = Ok (<[0%nat := sorted C1]> (<[1%nat := sorted C3]> ∅))) as Hof.
  { unfold phases_of. rewrite HS. simpl. unfold getitem at 1.
    rewrite HSn. simpl. rewrite Hlinks. simpl. unfold phases_loop.
    rewrite (phase_loop_spec links docstring_states [C1; ∅; C3; ∅])
      by (repeat constructor; done).
    simpl. rewrite !phase_lists_cons.
    rewrite (bool_decide_eq_true_2 _ HC1ne), (bool_decide_eq_true_2 _ HC3ne).
    rewrite bool_decide_eq_false_2 by (intros Hne; by apply Hne).
    simpl. by rewrite (right_id_L ∅ (∪)). }
  exists (sorted C1), (sorted C3). split; [done|].
  split; [|split].
  - split; [apply Sorted_sorted|split; [apply NoDup_sorted|]].
    intros e. rewrite elem_of_sorted. by apply components_of_elem.
  - split; [apply Sorted_sorted|split; [apply NoDup_sorted|]].
    intros e. rewrite elem_of_sorted. by apply components_of_elem.
  - intros Hothers. unfold phases. rewrite Hids. simpl.
    by apply per_node_ok.
Qed.

(** *** The link table *)

(** The connection of a list that decides link [lnk]: the last one that
    carries this link index; [e] is its [from] edge.  A connection whose
    link index is carried again further down the list is overwritten in the
    table. *)
Definition last_on (conns : list (gmap string string)) (lnk : Z)
    (e : string) : Prop :=
  exists conns1 conn conns2 li,
    conns = (conns1 ++ conn :: conns2)%list /\
    conn !! "linkIndex" = Some li /\ int li = Ok lnk /\
    conn !! "from" = Some e /\
    forall c li', c ∈ conns2 -> c !! "linkIndex" = Some li' ->
                  int li' <> Ok lnk.

Lemma links_turn_inv (m m' : gmap Z string) (conn : gmap string string) :
  (c ← Ok (bool_decide (is_Some (conn !! "linkIndex")));
   if (c : bool)
   then k ← (li ← getitem conn "linkIndex"; int li);
        v ← getitem conn "from"; Ok (<[k := v]> m)
   else Ok m) = Ok m' ->
  (conn !! "linkIndex" = None /\ m' = m) \/
  (exists li lnk e, conn !! "linkIndex" = Some li /\ int li = Ok lnk /\
                    conn !! "from" = Some e /\ m' = <[lnk := e]> m).
Proof.
  unfold getitem. simpl.
  destruct (conn !! "linkIndex") as [li|] eqn:Hli; simpl.
  - rewrite ?bool_decide_eq_true_2 by eauto. simpl.
    destruct (int li) as [lnk|] eqn:Hint; simpl; [|discriminate].
    destruct (conn !! "from") as [e|] eqn:Hfrom; simpl; [|discriminate].
    intros [= <-]. right. eauto 10.
  - rewrite ?bool_decide_eq_false_2 by (by intros [? ?]). intros [= <-].
    by left.
Qed.

Lemma links_of_snoc_inv conns conn links :
  links_of int (conns ++ [conn]) = Ok links ->
  exists m,
    links_of int conns = Ok m /\
    ((conn !! "linkIndex" = None /\ links = m) \/
     (exists li lnk e, conn !! "linkIndex" = Some li /\ int li = Ok lnk /\
                       conn !! "from" = Some e /\ links = <[lnk := e]> m)).
Proof.
  unfold links_of, dict_comp. rewrite foldM_app. intros Hl.
  inv_bind Hl. rename a into m. exists m. split; [done|].
  simpl in Hl. inv_bind Hl. injection Hl as <-.
  by apply links_turn_inv.
Qed.

Lemma snoc_split {A} (l l1 l2 : list A) (x y : A) :
  (l ++ [x] = l1 ++ y :: l2)%list ->
  (l2 = [] /\ y = x /\ l = l1) \/
  (exists l2', l2 = (l2' ++ [x])%list /\ l = (l1 ++ y :: l2')%list).
Proof.
  destruct l2 as [|z l2 _] using rev_ind; intros Heq.
  - apply app_inj_tail in Heq as [-> ->]. by left.
  - right. exists l2.
    change (l1 ++ y :: l2 ++ [z])%list with (l1 ++ (y :: l2) ++ [z])%list
      in Heq.
    rewrite (assoc_L (++)%list) in Heq.
    apply app_inj_tail in Heq as [-> ->]. done.
Qed.

(** The table maps a link index to the [from] edge of the last connection
    that carries it. *)
Lemma links_of_last conns links lnk e :
  links_of int conns = Ok links ->
  links !! lnk = Some e <-> last_on conns lnk e.
Proof.
  revert links. induction conns as [|c conns IH] using rev_ind;
    intros links Hl.
  - injection Hl as <-. rewrite lookup_empty. split; [discriminate|].
    intros (c1 & cn & c2 & li & Heq & _). by destruct c1.
  - apply links_of_snoc_inv in Hl
      as (m & Hm & [[Hno ->]|(li0 & lnk0 & e0 & Hli0 & Hint0 & Hfrom0 & ->)]).
    + rewrite (IH m Hm). split.
      * intros (c1 & cn & c2 & li & -> & Hli & Hint & Hfrom & Hlater).
        exists c1, cn, (c2 ++ [c])%list, li.
        split; [by rewrite <- (assoc_L (++)%list)|]. do 3 (split; [done|]).
        intros c' li' Hc'. apply elem_of_app in Hc' as [Hc'|Hc'].
        -- by apply Hlater.
        -- apply list_elem_of_singleton in Hc' as ->. congruence.
      * intros (c1 & cn & c2 & li & Heq & Hli & Hint & Hfrom & Hlater).
        apply snoc_split in Heq as [(-> & -> & ->)|(c2' & -> & ->)];
          [congruence|].
        exists c1, cn, c2', li. do 4 (split; [done|]).
        intros c' li' Hc'. apply Hlater. apply elem_of_app. by left.
    + split.
      * intros Hlk. destruct (decide (lnk0 = lnk)) as [->|Hne].
        -- rewrite lookup_insert_eq in Hlk. injection Hlk as <-.
           exists conns, c, [], li0. do 4 (split; [done|]).
           intros c' li' Hc'. by apply elem_of_nil in Hc'.
        -- rewrite lookup_insert_ne in Hlk by done.
           apply (IH m Hm) in Hlk
             as (c1 & cn & c2 & li & -> & Hli & Hint & Hfrom & Hlater).
           exists c1, cn, (c2 ++ [c])%list, li.
           split; [by rewrite <- (assoc_L (++)%list)|].
           do 3 (split; [done|]).
           intros c' li' Hc'. apply elem_of_app in Hc' as [Hc'|Hc'].
           ++ by apply Hlater.
           ++ apply list_elem_of_singleton in Hc' as ->.
              intros Hli'. rewrite Hli0 in Hli'. injection Hli' as <-.
              congruence.
      * intros (c1 & cn & c2 & li & Heq & Hli & Hint & Hfrom & Hlater).
        apply snoc_split in Heq as [(-> & -> & ->)|(c2' & -> & ->)].
        -- rewrite Hli0 in Hli. injection Hli as <-.
           rewrite Hint0 in Hint. injection Hint as <-.
           rewrite lookup_insert_eq. congruence.
        -- assert (lnk0 <> lnk) as Hne.
           { intros ->. apply (Hlater c li0); [|done..].
             apply elem_of_app. right. left. }
           rewrite lookup_insert_ne by done. apply (IH m Hm).
           exists c1, cn, c2', li. do 4 (split; [done|]).
           intros c' li' Hc'. apply Hlater. apply elem_of_app. by left.
Qed.

(** Every link index that a connection carries has an entry. *)
Lemma links_of_key conns links c li lnk :
  links_of int conns = Ok links ->
  c ∈ conns -> c !! "linkIndex" = Some li -> int li = Ok lnk ->
  is_Some (links !! lnk).
Proof.
  intros Hl Hc Hli Hint. apply list_elem_of_split in Hc as (l1 & l2 & ->).
  unfold links_of, dict_comp in Hl. rewrite foldM_app in Hl. inv_bind Hl.
  simpl in Hl. inv_bind Hl. rename a0 into m1.
  assert (is_Some (m1 !! lnk)) as Hm1.
  { apply links_turn_inv in Ha0
      as [[Hno _]|(li' & lnk' & e' & Hli' & Hint' & _ & ->)]; [congruence|].
    assert (lnk' = lnk) as -> by congruence. rewrite lookup_insert_eq.
    by eexists. }
  apply (foldM_inv (fun m => is_Some (m !! lnk)) _ _ _ _ Hl Hm1).
  intros m0 y m2 _ Hm0 Ht.
  apply links_turn_inv in Ht as [[_ ->]|(li' & lnk' & e' & _ & _ & _ & ->)];
    [done|].
  destruct (decide (lnk' = lnk)) as [->|Hne].
  - rewrite lookup_insert_eq. by eexists.
  - by rewrite lookup_insert_ne.
Qed.

(** A connection of the list sits on a signal that is green in [state]. *)
Definition on_green (conns : list (gmap string string)) (state : string)
    : Prop :=
  exists c li lnk, c ∈ conns /\ c !! "linkIndex" = Some li /\
                   int li = Ok lnk /\ green_at state lnk.

(** C1, amended: for a traffic-light node whose states are those of the
    docstring, each of whose connections has a [from] edge and a link index
    that is a position of the ten-signal states, and which has a connection
    on a green signal of the first state and one on a green signal of the
    third, the loop of [phases] leaves exactly two phases.  Index 0 holds
    the sorted, duplicate-free list of the [from] edges of the connections
    that are the last of the node to carry their link index and whose signal
    is green in the first state, index 1 that of the third state; the second
    and the fourth state give no phase.  A connection whose link index is
    carried by a later connection of the node gives nothing.  The two
    phases are the entry of the node in [phases] when the phases of the
    other traffic-light nodes can be derived. *)
Theorem docstring_states_give_two_phases (self : Network) ids nid S :
  tls_ids self = Ok ids -> nid ∈ ids ->
  states self = Ok S -> S !! nid = Some docstring_states ->
  Forall (fun c => exists li lnk,
            c !! "linkIndex" = Some li /\ int li = Ok lnk /\
            -10 <= lnk < 10 /\ is_Some (c !! "from"))
         (controlled self nid) ->
  on_green (controlled self nid) "GGrrrGGrrr" ->
  on_green (controlled self nid) "rrGGGrrGGG" ->
  exists l0 l1 : list string,
    phases_of int self nid = Ok (<[0%nat := l0]> (<[1%nat := l1]> ∅)) /\
    (Sorted String.le l0 /\ NoDup l0 /\
     forall e, e ∈ l0 <->
       exists lnk, last_on (controlled self nid) lnk e /\
                   green_at "GGrrrGGrrr" lnk) /\
    (Sorted String.le l1 /\ NoDup l1 /\
     forall e, e ∈ l1 <->
       exists lnk, last_on (controlled self nid) lnk e /\
                   green_at "rrGGGrrGGG" lnk) /\
    (others_ok (phases_of int self) ids nid ->
     exists P, phases int self = Ok P /\
               P !! nid = Some (<[0%nat := l0]> (<[1%nat := l1]> ∅))).
Proof.
  intros Hids Hnid HS HSn Hall Hg1 Hg3.
  destruct (links_of_total (controlled self nid)) as [links Hlinks].
  { eapply Forall_impl; [exact Hall|].
    intros c (li & lnk & Hli & Hint & _ & Hfrom). exists li.
    split; [done|]. split; [by exists lnk|done]. }
  assert (forall state, on_green (controlled self nid) state ->
            exists lnk e, links !! lnk = Some e /\ green_at state lnk)
    as Hgreen.
  { intros state (c & li & lnk & Hc & Hli & Hint & Hg).
    destruct (links_of_key _ _ _ _ _ Hlinks Hc Hli Hint) as [e He]. eauto. }
  destruct (two_phases_of_links self ids nid S links Hids Hnid HS HSn Hlinks)
    as (l0 & l1 & Hof & (Hs0 & Hn0 & Hl0) & (Hs1 & Hn1 & Hl1) & HP).
  - intros lnk e Hl.
    apply (links_of_last _ _ _ _ Hlinks) in Hl
      as (c1 & cn & c2 & li & Heq & Hli & Hint & _).
    rewrite Forall_forall in Hall.
    destruct (Hall cn) as (li' & lnk' & Hli' & Hint' & Hrange & _).
    { unfold controlled in *. rewrite Heq. apply elem_of_app. right. left. }
    rewrite Hli in Hli'. injection Hli' as <-. congruence.
  - by apply Hgreen.
  - by apply Hgreen.
  - exists l0, l1. split; [done|]. split; [|split; [|done]].
    + split; [done|]. split; [done|]. intros e. rewrite Hl0.
      split; intros (lnk & Hl & Hg); exists lnk; split; try done;
        by apply (links_of_last _ _ _ _ Hlinks).
    + split; [done|]. split; [done|]. intros e. rewrite Hl1.
      split; intros (lnk & Hl & Hg); exists lnk; split; try done;
        by apply (links_of_last _ _ _ _ Hlinks).
Qed.

End WithInt.

(** C9 on the junction of the docstrings; there [phases] keeps two of the
    four entries. *)
Lemma durations_cover_every_state_witness :
  exists S D ss ds,
    states intersection = Ok S /\ durations dec_int intersection = Ok D /\
    S !! "247123161" = Some ss /\ D !! "247123161" = Some ds /\
    Forall2 (fun p s => p !! "state" = Some s)
            [attrs [("duration", "39"); ("state", "GGrrrGGrrr")];
             attrs [("duration", "6"); ("state", "yyrrryyrrr")];
             attrs [("duration", "39"); ("state", "rrGGGrrGGG")];
             attrs [("duration", "6"); ("state", "rryyyrryyy")]] ss /\
    Forall2 (fun p d => exists t, p !! "duration" = Some t /\
                                  dec_int t = Ok d)
            [attrs [("duration", "39"); ("state", "GGrrrGGrrr")];
             attrs [("duration", "6"); ("state", "yyrrryyrrr")];
             attrs [("duration", "39"); ("state", "rrGGGrrGGG")];
             attrs [("duration", "6"); ("state", "rryyyrryyy")]] ds /\
    length ds = 4%nat /\ length ds = length ss.
Proof.
  apply (durations_cover_every_state dec_int intersection
           ["247123161"] "247123161" _ _
           eq_refl (list_elem_of_here _ _) eq_refl eq_refl eq_refl eq_refl).
  - repeat constructor; try (by eexists); eexists; split;
      try reflexivity; by eexists.
  - intros nid' Hin Hne. apply list_elem_of_singleton in Hin. done.
  - intros nid' Hin Hne. apply list_elem_of_singleton in Hin. done.
Defined.

Lemma only_node_others_ok {V} (f : string -> result V) (nid : string) :
  others_ok f [nid] nid.
Proof. intros nid' Hin Hne. apply list_elem_of_singleton in Hin. done. Qed.

(** C1 on the junction of the docstrings, and on the same junction with a
    connection from [zzz] that a later connection on signal 0 overwrites:
    [zzz] is in no phase. *)
Lemma docstring_states_give_two_phases_witness :
  (exists l0 l1 : list string,
     phases_of dec_int intersection "247123161"
     = Ok (<[0%nat := l0]> (<[1%nat := l1]> ∅)) /\
     exists P, phases dec_int intersection = Ok P /\
               P !! "247123161"
               = Some (<[0%nat := l0]> (<[1%nat := l1]> ∅))) /\
  (exists l0 l1 : list string,
     phases_of dec_int overwritten_signal_network "247123161"
     = Ok (<[0%nat := l0]> (<[1%nat := l1]> ∅)) /\
     l0 = ["-238059324"; "383432312"] /\
     l1 = ["-238059328"; "309265401"]).
Proof.
  assert (forall net : Network,
            connections net = connections intersection \/
            connections net = connections overwritten_signal_network ->
            Forall (fun c => exists li lnk,
                      c !! "linkIndex" = Some li /\ dec_int li = Ok lnk /\
                      -10 <= lnk < 10 /\ is_Some (c !! "from"))
                   (controlled net "247123161") /\
            on_green dec_int (controlled net "247123161") "GGrrrGGrrr" /\
            on_green dec_int (controlled net "247123161") "rrGGGrrGGG")
    as Hconns.
  { intros net Hnet. unfold controlled.
    assert (forall c, c ∈ connections overwritten_signal_network ->
              fn_conn "247123161" c = true ->
              exists li lnk,
                c !! "linkIndex" = Some li /\ dec_int li = Ok lnk /\
                -10 <= lnk < 10 /\ is_Some (c !! "from")) as Hc.
    { intros c Hin Hfn. unfold overwritten_signal_network in Hin.
      simpl in Hin.
      repeat (apply elem_of_cons in Hin as [->|Hin];
              [do 2 eexists; split; [reflexivity|];
               split; [reflexivity|]; split; [lia|by eexists]|]).
      apply elem_of_cons in Hin as [->|Hin]; [by vm_compute in Hfn|].
      by apply elem_of_nil in Hin. }
    split; [|split].
    - apply Forall_forall. intros c Hin.
      apply list_elem_of_filter in Hin as [Hfn Hin]. apply Hc; [|done].
      destruct Hnet as [Hnet|Hnet]; rewrite Hnet in Hin; [by right|done].
    - exists (attrs [("from", "-238059324"); ("to", "b");
                     ("tl", "247123161"); ("linkIndex", "1")]), "1", 1.
      split; [|split; [reflexivity|split; [reflexivity|]]].
      + apply list_elem_of_filter. split; [reflexivity|].
        destruct Hnet as [Hnet|Hnet]; rewrite Hnet.
        * apply list_elem_of_further, list_elem_of_here.
        * do 2 apply list_elem_of_further. apply list_elem_of_here.
      + exists "G"%char. by vm_compute.
    - exists (attrs [("from", "-238059328"); ("to", "c");
                     ("tl", "247123161"); ("linkIndex", "2")]), "2", 2.
      split; [|split; [reflexivity|split; [reflexivity|]]].
      + apply list_elem_of_filter. split; [reflexivity|].
        destruct Hnet as [Hnet|Hnet]; rewrite Hnet.
        * do 2 apply list_elem_of_further. apply list_elem_of_here.
        * do 3 apply list_elem_of_further. apply list_elem_of_here.
      + exists "G"%char. by vm_compute. }
  split.
  - assert (exists S, states intersection = Ok S /\
                      S !! "247123161" = Some docstring_states)
      as (S & HS & HSn) by (eexists; split; vm_compute; reflexivity).
    destruct (Hconns intersection) as (Hall & Hg1 & Hg3); [by left|].
    destruct (docstring_states_give_two_phases dec_int intersection
                ["247123161"] "247123161" S
                eq_refl (list_elem_of_here _ _) HS HSn Hall Hg1 Hg3)
      as (l0 & l1 & Hof & _ & _ & HP).
    exists l0, l1. split; [done|]. apply HP, only_node_others_ok.
  - assert (exists S, states overwritten_signal_network = Ok S /\
                      S !! "247123161" = Some docstring_states)
      as (S & HS & HSn) by (eexists; split; vm_compute; reflexivity).
    destruct (Hconns overwritten_signal_network) as (Hall & Hg1 & Hg3);
      [by right|].
    destruct (docstring_states_give_two_phases dec_int
                overwritten_signal_network
                ["247123161"] "247123161" S
                eq_refl (list_elem_of_here _ _) HS HSn Hall Hg1 Hg3)
      as (l0 & l1 & Hof & _ & _ & _).
    exists l0, l1. split; [done|].
    assert (phases_of dec_int overwritten_signal_network "247123161"
            = Ok (<[0%nat := ["-238059324"; "383432312"]]>
                    (<[1%nat := ["-238059328"; "309265401"]]> ∅))) as Hc
      by (vm_compute; reflexivity).
    rewrite Hof in Hc.
    assert (forall a b : gmap nat (list string),
              (Ok a : result _) = Ok b -> a = b) as Hinj
      by (by intros a b [= ->]).
    apply Hinj in Hc.
    assert (Some l0 = Some ["-238059324"; "383432312"]) as H0.
    { rewrite <- (lookup_insert_eq (<[1%nat := l1]> ∅) 0%nat l0), Hc.
      apply lookup_insert_eq. }
    assert (Some l1 = Some ["-238059328"; "309265401"]) as H1.
    { rewrite <- (lookup_insert_eq ∅ 1%nat l1).
      rewrite <- (lookup_insert_ne (<[1%nat := l1]> ∅) 0%nat 1%nat l0)
        by done.
      rewrite Hc. by rewrite lookup_insert_ne, lookup_insert_eq. }
    split; congruence.
Defined.

(** C1 as stated fails when no connection sits on a green signal of the
    third state: the node has the four states of the docstring and a single
    phase. *)
Lemma crossing_network_has_one_phase :
  (S ← states crossing_network; getitem S "247123161") = Ok docstring_states /\
  phases dec_int crossing_network
  = Ok {[ "247123161" := {[ 0%nat := ["-238059324"; "383432312"] ]} ]}.
Proof. split; vm_compute; reflexivity. Qed.

(** C2 on the junction of the docstrings. *)
Lemma phases_invariant_witness :
  exists ph : gmap nat (list string),
    (P ← phases dec_int intersection; getitem P "247123161") = Ok ph /\
    (size ph <= 4)%nat /\
    (forall i, is_Some (ph !! i) <-> (i < size ph)%nat) /\
    (forall i l, ph !! i = Some l ->
       l <> [] /\ Sorted String.le l /\ NoDup l /\
       forall e, e ∈ l ->
         exists conn, conn ∈ connections intersection /\
                      conn !! "tl" = Some "247123161" /\
                      is_Some (conn !! "linkIndex") /\
                      conn !! "from" = Some e).
Proof.
  assert (exists P ph, phases dec_int intersection = Ok P /\
                       P !! "247123161" = Some ph)
    as (P & ph & HP & Hph) by (do 2 eexists; split; vm_compute; reflexivity).
  destruct (phases_invariant dec_int intersection P "247123161" ph HP Hph)
    as (ids & sts & links & comps & _ & _ & (S & HS & HSn) & _ & _ & _ &
        Hsize & Hdense & Hmembers).
  exists ph. split.
  { rewrite HP. simpl. unfold getitem. by rewrite Hph. }
  assert (sts = docstring_states) as ->.
  { assert (states intersection ≫= (fun S => getitem S "247123161")
            = Ok sts) as Heq
      by (rewrite HS; simpl; unfold getitem; by rewrite HSn).
    vm_compute in Heq. by injection Heq as <-. }
  done.
Defined.

(** C2 as stated fails: [e1], the only member of phase 0 of node [n], ends
    at junction [m]; the approaches of [n] are [e2] alone. *)
Lemma shared_signal_not_an_approach :
  approaches shared_signal_network = Ok {[ "n" := ["e2"] ]} /\
  phases dec_int shared_signal_network
  = Ok {[ "n" := {[ 0%nat := ["e1"] ]} ]}.
Proof. split; vm_compute; reflexivity. Qed.

(** C3 on a junction whose program is actuated. *)
Lemma other_program_gives_empty_witness :
  (exists S, states actuated_network = Ok S /\ S !! "n" = Some []) /\
  (exists D, durations dec_int actuated_network = Ok D /\
             D !! "n" = Some []) /\
  (exists P, phases dec_int actuated_network = Ok P /\ P !! "n" = Some ∅).
Proof.
  destruct (other_program_gives_empty dec_int actuated_network ["n"] "n"
              _ _ "actuated" eq_refl (list_elem_of_here _ _)
              eq_refl eq_refl eq_refl)
    as (_ & HS & HD & HP).
  - left. discriminate.
  - split; [apply HS, only_node_others_ok|].
    split; [apply HD, only_node_others_ok|].
    apply HP; try apply only_node_others_ok.
    repeat constructor. exists "0".
    split; [reflexivity|]. split; by eexists.
Defined.

(** C3 as stated fails for a traffic-light node without a registered
    program.  [states] and [durations] raise, at every access, since they
    assign their attribute after the comprehension.  The first access of
    [phases] raises too; it leaves the attribute assigned, with an empty
    entry for the node, and this is what a later access returns. *)
Lemma unregistered_node_raises :
  tls_ids unregistered_network = Ok ["n"] /\
  traffic_lights unregistered_network !! "n" = None /\
  states unregistered_network = Raise (KeyError "n") /\
  durations dec_int unregistered_network = Raise (KeyError "n") /\
  phases_access dec_int unregistered_network None
  = (Raise (KeyError "n"), Some {[ "n" := ∅ ]}) /\
  phases_access dec_int unregistered_network (Some {[ "n" := ∅ ]})
  = (Ok {[ "n" := ∅ ]}, Some {[ "n" := ∅ ]}).
Proof. repeat split; vm_compute; reflexivity. Qed.

End NetFacts.

(** ** The XML extractor, routes and edges *)

Module ScenariosFacts.
Import Py PyFacts Scenarios.

Section WithEnvironment.
Variable ILURL_HOME : string.
Variable fs : string -> file.
Variable float : Type.
Variable float_of_str : string -> result float.
Variable max_floats : list float -> result float.

(** C6: when the file of the network and file type is missing, and when it
    is a document without an element on the target path, the extractor
    returns the empty list. *)
Theorem extractor_empty (network_id : string) (target : list string)
    (file_type : string) (ignore key child_key : option string) :
  fs (get_path ILURL_HOME network_id file_type) = Missing \/
  (exists root, fs (get_path ILURL_HOME network_id file_type) = Document root
                /\ findall target root = []) ->
  get_generic_element ILURL_HOME fs (float:=float) network_id target
    file_type ignore key child_key
  = Ok [].
Proof.
  intros [Hmiss|(root & Hdoc & Hnone)]; unfold Scenarios.get_generic_element.
  - by rewrite Hmiss.
  - rewrite Hdoc, Hnone. reflexivity.
Qed.

(** *** The entries of the extractor *)

(** The value of the key attribute of an element, when a key is given and
    the element has it. *)
Definition key_value (key : option string) (elem : element)
    : option string :=
  k ← key; attrib elem !! k.

(** The entry of an element in the words of the description: the bare value
    of the key attribute when there is one, else the attribute mapping, which
    with a child tag also carries the attribute maps of the children of that
    tag under the tag followed by [s]. *)
Definition entry_spec (key child_key : option string) (elem : element)
    : entry float :=
  match key_value key elem with
  | Some v => EStr v
  | None =>
      let d : gmap string (value float) := VStr <$> attrib elem in
      match child_key with
      | Some ck =>
          EDict (<[ck ++ "s" :=
                   VMaps (attrib <$> filter (fun c => tag c = ck)
                                            (children elem))]> d)
      | None => EDict d
      end
  end.

(** A bare string cannot take the list of the children. *)
Definition clash (key child_key : option string) (elem : element) : Prop :=
  is_Some (key_value key elem) /\ is_Some child_key.

Lemma findall_child (ck : string) (elem : element) :
  findall [ck] elem = filter (fun c => tag c = ck) (children elem).
Proof.
  unfold findall. simpl. by rewrite (right_id_L [] (++)).
Qed.

Lemma emit_ignored ignore key child_key elem :
  is_in ignore (attrib elem) = true ->
  emit (float:=float) ignore key child_key elem = Ok None.
Proof. intros Hi. unfold emit. by rewrite Hi. Qed.

Lemma emit_entry ignore key child_key elem :
  is_in ignore (attrib elem) = false ->
  ~ clash key child_key elem ->
  emit ignore key child_key elem = Ok (Some (entry_spec key child_key elem)).
Proof.
  intros Hi Hclash. unfold emit, entry_spec, key_value, clash in *.
  rewrite Hi. simpl.
  destruct key as [k|]; simpl in *.
  - destruct (attrib elem !! k) as [v|] eqn:Hk; simpl in *.
    + destruct child_key as [ck|]; [|done].
      destruct Hclash. split; by eauto.
    + destruct child_key; by rewrite ?findall_child.
  - destruct child_key; by rewrite ?findall_child.
Qed.

Lemma emit_clash ignore key child_key elem :
  is_in ignore (attrib elem) = false ->
  clash key child_key elem ->
  emit (float:=float) ignore key child_key elem = Raise TypeError.
Proof.
  intros Hi [[v Hv] [ck ->]]. unfold emit, key_value in *. rewrite Hi. simpl.
  destruct key as [k|]; simpl in Hv; [|discriminate]. by rewrite Hv.
Qed.

(** The loop of the extractor appends the entries in document order. *)
Lemma extractor_loop ignore key child_key (elems : list element)
    (acc : list (entry float)) :
  (forall elem, elem ∈ elems -> is_in ignore (attrib elem) = false ->
                ~ clash key child_key elem) ->
  foldM (fun elements elem =>
           o ← emit ignore key child_key elem;
           Ok (elements ++ option_list o)%list)
        acc elems
  = Ok (acc ++ (entry_spec key child_key
                  <$> filter (fun e => is_in ignore (attrib e) = false)
                             elems))%list.
Proof.
  revert acc. induction elems as [|elem elems IH]; intros acc Hok; simpl.
  - by rewrite (right_id_L [] (++)%list).
  - rewrite filter_cons.
    destruct (is_in ignore (attrib elem)) eqn:Hi.
    + rewrite emit_ignored by done. simpl.
      rewrite (right_id_L [] (++)%list).
      destruct (decide (true = false)); [done|].
      apply IH. intros e' He. apply Hok. by right.
    + rewrite emit_entry; [|done|apply Hok; [left|done]]. simpl.
      destruct (decide (false = false)); [|done].
      rewrite IH by (intros e' He; apply Hok; by right).
      by rewrite <- (assoc_L (++)%list).
Qed.

(** On a document the extractor maps [entry_spec] over the matched elements
    it keeps, unless one of them would have to be a bare string carrying
    children. *)
Lemma extractor_on_document (network_id : string) (target : list string)
    (file_type : string) (ignore key child_key : option string)
    (root : element) :
  fs (get_path ILURL_HOME network_id file_type) = Document root ->
  (forall elem, elem ∈ findall target root ->
                is_in ignore (attrib elem) = false ->
                ~ clash key child_key elem) ->
  get_generic_element ILURL_HOME fs network_id target file_type
    ignore key child_key
  = Ok (entry_spec key child_key
          <$> filter (fun e => is_in ignore (attrib e) = false)
                     (findall target root)).
Proof.
  intros Hdoc Hok. unfold Scenarios.get_generic_element. rewrite Hdoc.
  by rewrite extractor_loop.
Qed.

(** C7, amended: on a document, when no matched element that is kept has
    both the key attribute and a child tag to attach, the extractor returns,
    in document order, one entry for every matched element without the
    ignore attribute: the bare value of the key attribute when a key is given
    and the element has it, otherwise the attribute mapping, which carries
    the attribute maps of the children under the child tag followed by [s]
    when a child tag is given. *)
Theorem extractor_entries (network_id : string) (target : list string)
    (file_type : string) (ignore key child_key : option string)
    (root : element) :
  fs (get_path ILURL_HOME network_id file_type) = Document root ->
  (forall elem, elem ∈ findall target root ->
                is_in ignore (attrib elem) = false ->
                ~ clash key child_key elem) ->
  get_generic_element ILURL_HOME fs network_id target file_type
    ignore key child_key
  = Ok (entry_spec key child_key
          <$> filter (fun e => is_in ignore (attrib e) = false)
                     (findall target root)) /\
  (forall elem k v,
     key = Some k -> attrib elem !! k = Some v ->
     entry_spec key child_key elem = EStr v) /\
  (forall elem,
     key_value key elem = None -> child_key = None ->
     entry_spec key child_key elem = EDict (VStr <$> attrib elem)) /\
  (forall elem ck,
     key_value key elem = None -> child_key = Some ck ->
     entry_spec key child_key elem
     = EDict (<[ck ++ "s" :=
                VMaps (attrib <$> filter (fun c => tag c = ck)
                                         (children elem))]>
                (VStr <$> attrib elem))).
Proof.
  intros Hdoc Hok. split; [by apply extractor_on_document|].
  unfold entry_spec, key_value. split; [|split].
  - intros elem k v -> Hv. simpl. by rewrite Hv.
  - intros elem Hnone ->. by rewrite Hnone.
  - intros elem ck Hnone ->. by rewrite Hnone.
Qed.

(** Whatever network is asked for, [get_edges] reads the net file of the
    network [intersection]. *)
Lemma get_edges_ignores_network_id (network_id : string) :
  get_edges ILURL_HOME fs float float_of_str max_floats network_id
  = (edges ← get_generic_element ILURL_HOME fs "intersection" ["edge"] "net"
               (Some "function") None (Some "lane");
     list_comp always (edge_of_entry float float_of_str max_floats) edges).
Proof. reflexivity. Qed.

End WithEnvironment.

(** *** [split] *)

Lemma split_nonempty (sep : ascii) (s : string) : split sep s <> [].
Proof.
  destruct s as [|c s]; simpl; [done|].
  destruct (bool_decide (c = sep)); [done|]. by destruct (split sep s).
Qed.

(** [sep.join(l)] *)
Fixpoint join (sep : ascii) (l : list string) : string :=
  match l with
  | [] => ""
  | w :: l' =>
      match l' with
      | [] => w
      | _ :: _ => w ++ String sep (join sep l')
      end
  end.

Lemma join_split (sep : ascii) (s : string) : join sep (split sep s) = s.
Proof.
  induction s as [|c s IH]; [done|]. simpl.
  pose proof (split_nonempty sep s) as Hne.
  destruct (bool_decide (c = sep)) eqn:Hc.
  - apply bool_decide_eq_true in Hc as ->.
    simpl. destruct (split sep s) as [|w ws]; [done|]. by rewrite IH.
  - destruct (split sep s) as [|w ws]; [done|]. simpl in *.
    destruct ws; by rewrite <- IH.
Qed.

#[local] Instance split_inj (sep : ascii) : Inj (=) (=) (split sep).
Proof.
  intros s1 s2 Heq. rewrite <- (join_split sep s1), <- (join_split sep s2).
  by rewrite Heq.
Qed.

(** *** Sums of probabilities *)

Import QArith_base.

Definition sum_Q (l : list Q) : Q := foldr Qplus (0 # 1)%Q l.

Lemma sum_Q_const (n : positive) (l : list Q) :
  Forall (fun p => p = (1 # n)%Q) l ->
  Qeq (sum_Q l) (Z.of_nat (length l) # n)%Q.
Proof.
  induction 1 as [|p l -> _ IH]; simpl.
  - reflexivity.
  - rewrite IH. unfold Qeq, Qplus. simpl. lia.
Qed.

Lemma sum_Q_uniform (l : list Q) :
  l <> [] ->
  Forall (fun p => p = (1 # Pos.of_nat (length l))%Q) l ->
  Qeq (sum_Q l) (1 # 1)%Q.
Proof.
  intros Hne Hall. rewrite (sum_Q_const _ _ Hall).
  unfold Qeq. simpl. destruct l; [done|]. simpl length. lia.
Qed.

(** *** [get_routes] *)

Lemma filter_all {A} (P : A -> Prop) `{forall x, Decision (P x)} (l : list A) :
  (forall x, x ∈ l -> P x) -> filter P l = l.
Proof.
  induction l as [|x l IH]; intros HP; [done|].
  rewrite filter_cons_True by (apply HP; left).
  f_equal. apply IH. intros y Hy. apply HP. by right.
Qed.

(** The probability attached to every route of a group. *)
Definition pairs (rou : list (list string)) : list (list string * Q) :=
  (fun r => (r, (1 # Pos.of_nat (length rou))%Q)) <$> rou.

Lemma equiprobable (rou : list (list string)) :
  list_comp always (fun r => p ← true_div_1 (length rou); Ok (r, p)) rou
  = Ok (pairs rou).
Proof.
  rewrite (list_comp_pure _ _ (fun _ => true)
             (fun r => (r, (1 # Pos.of_nat (length rou))%Q))).
  - unfold pairs. by rewrite filter_all.
  - done.
  - intros r Hr _. destruct rou; [by apply elem_of_nil in Hr|]. reflexivity.
Qed.

(** The routes of a list that start at [k]. *)
Definition group (routes : list (list string)) (k : string)
    : list (list string) :=
  filter (fun r => bool_decide (head r = Some k) = true) routes.

Lemma routes_from (routes : list (list string)) (k : string) :
  Forall (fun r => r <> []) routes ->
  list_comp (fun r => r0 ← first r; Ok (bool_decide (k = r0))) Ok routes
  = Ok (group routes k).
Proof.
  intros Hne.
  rewrite (list_comp_pure _ _ (fun r => bool_decide (head r = Some k)) id).
  - unfold group. by rewrite list_fmap_id.
  - intros r Hr. rewrite Forall_forall in Hne. specialize (Hne r Hr).
    destruct r as [|r0 r]; [done|]. simpl. f_equal.
    apply bool_decide_ext. split; [by intros ->|by intros [= ->]].
  - done.
Qed.

Section Routes.
Variable ILURL_HOME : string.
Variable fs : string -> file.
Variable float : Type.

(** The [edges] attributes of the routes of a document, in document
    order. *)
Definition route_strings (root : element) : list string :=
  omap (fun e => attrib e !! "edges") (findall ["vehicle"; "route"] root).

Lemma route_entries_map (es : list element) :
  Forall (fun e => is_Some (attrib e !! "edges")) es ->
  entry_spec float (Some "edges") None <$> es
  = EStr <$> omap (fun e => attrib e !! "edges") es.
Proof.
  induction 1 as [|e es [v Hv] _ IH]; [done|].
  rewrite fmap_cons, IH. simpl. rewrite Hv. simpl. f_equal.
  unfold entry_spec, key_value. simpl. by rewrite Hv.
Qed.

Lemma route_entries (network_id : string) (root : element) :
  fs (get_path ILURL_HOME network_id "rou") = Document root ->
  Forall (fun e => is_Some (attrib e !! "edges"))
         (findall ["vehicle"; "route"] root) ->
  get_generic_element ILURL_HOME fs (float:=float) network_id
    ["vehicle"; "route"] "rou" None (Some "edges") None
  = Ok (EStr <$> route_strings root).
Proof.
  intros Hdoc Hall.
  rewrite (extractor_on_document _ _ _ _ _ _ _ _ _ root Hdoc).
  - f_equal. rewrite filter_all by done. by apply route_entries_map.
  - intros elem _ _ [_ [ck Hck]]. discriminate.
Qed.

Lemma get_routes_spec (network_id : string) (root : element) :
  fs (get_path ILURL_HOME network_id "rou") = Document root ->
  Forall (fun e => is_Some (attrib e !! "edges"))
         (findall ["vehicle"; "route"] root) ->
  exists (uniq : gset string) R,
    (forall s, s ∈ uniq <-> s ∈ route_strings root) /\
    get_routes ILURL_HOME fs float network_id = Ok R /\
    forall k,
      R !! k = (let grp := group (split " " <$> elements uniq) k in
                if decide (grp = []) then None else Some (pairs grp)).
Proof.
  intros Hdoc Hall. unfold get_routes.
  rewrite (route_entries _ _ Hdoc Hall). simpl.
  (* set(routes) *)
  destruct (set_comp_ok always hashable (EStr (float:=float) <$> route_strings root))
    as [uniq Huniq].
  { intros x Hx. right. split; [done|].
    apply list_elem_of_fmap in Hx as (s & -> & _). by exists s. }
  rewrite Huniq. simpl.
  assert (forall s, s ∈ uniq <-> s ∈ route_strings root) as Hmem.
  { intros s. split.
    - intros Hs.
      destruct (set_comp_elem_inv _ _ _ _ _ Huniq Hs) as (x & Hx & _ & Hh).
      apply list_elem_of_fmap in Hx as (s' & -> & Hs'). by injection Hh as <-.
    - intros Hs. eapply (set_comp_elem _ _ _ _ (EStr s)); [exact Huniq| |done..].
      apply list_elem_of_fmap. eauto. }
  set (routes := split " " <$> elements uniq).
  assert (Forall (fun r => r <> []) routes) as Hne.
  { apply Forall_forall. intros r Hr.
    apply list_elem_of_fmap in Hr as (s & -> & _). apply split_nonempty. }
  (* starting edges *)
  destruct (set_comp_ok always first routes) as [keys Hkeys].
  { intros r Hr. right. split; [done|]. rewrite Forall_forall in Hne.
    specialize (Hne r Hr). destruct r as [|k r]; [done|]. by exists k. }
  rewrite Hkeys. simpl.
  assert (forall k, k ∈ keys <-> group routes k <> []) as Hkmem.
  { intros k. split.
    - intros Hk.
      destruct (set_comp_elem_inv _ _ _ _ _ Hkeys Hk) as (r & Hr & _ & Hf).
      intros Hg. eapply (filter_nil_not_elem_of _ _ r Hg); [|done].
      destruct r; [discriminate|]. injection Hf as ->.
      by apply bool_decide_eq_true.
    - intros Hg. destruct (group routes k) as [|r g] eqn:Heq; [done|].
      assert (r ∈ group routes k) as Hr by (rewrite Heq; left).
      apply list_elem_of_filter in Hr as [Hh Hr].
      apply bool_decide_eq_true in Hh.
      eapply (set_comp_elem _ _ _ _ r); [exact Hkeys|done|done|].
      destruct r; [discriminate|]. by injection Hh as ->. }
  (* routes by starting edge *)
  destruct (dict_comp_ok always Ok
              (fun k => list_comp (fun r => r0 ← first r;
                                            Ok (bool_decide (k = r0)))
                                  Ok routes)
              (elements keys)) as [G HG].
  { intros k _. right. split; [done|]. split; [by exists k|].
    rewrite routes_from by done. by eexists. }
  rewrite HG. simpl.
  assert (forall k, G !! k = if decide (group routes k = []) then None
                             else Some (group routes k)) as HGk.
  { intros k. destruct (per_node_inv _ _ _ HG k) as [Hin Hout].
    destruct (decide (group routes k = [])) as [Hg|Hg].
    - apply Hout. rewrite elem_of_elements, Hkmem. by intros ?.
    - destruct Hin as (v & Hv & ->).
      { by rewrite elem_of_elements, Hkmem. }
      rewrite routes_from in Hv by done. by injection Hv as <-. }
  (* probabilities *)
  destruct (dict_comp_ok always
              (fun '(k, _) => Ok k : result string)
              (fun '(_, rou) =>
                 list_comp always
                   (fun r : list string =>
                      p ← true_div_1 (length rou); Ok (r, p)) rou)
              (map_to_list G)) as [R HR].
  { intros [k rou] _. right. split; [done|]. split; [by exists k|].
    rewrite equiprobable. by eexists. }
  exists uniq, R. split; [done|]. split; [exact HR|].
  intros k. simpl. fold routes. specialize (HGk k).
  destruct (decide (group routes k = [])) as [Hg|Hg].
  - eapply dict_comp_None; [exact HR|].
    intros [k' rou] Hx _ [= ->]. apply elem_of_map_to_list in Hx. congruence.
  - eapply (dict_comp_lookup _ _ _ _ _ (k, group routes k));
      [exact HR|by apply elem_of_map_to_list|done|done|].
    intros [k' rou] Hx _ [= ->]. apply elem_of_map_to_list in Hx.
    rewrite HGk in Hx. injection Hx as <-. apply equiprobable.
Qed.

(** C4: for a route file all of whose [vehicle/route] elements carry an
    [edges] attribute, [get_routes] returns a dictionary whose keys are the
    first edges of the routes; under an origin the routes are pairwise
    distinct and are exactly the routes of the file that start there, every
    one of them is paired with [1/n], [n] being the number of these routes,
    and the probabilities of the origin sum to 1. *)
Theorem get_routes_uniform (network_id : string) (root : element) :
  fs (get_path ILURL_HOME network_id "rou") = Document root ->
  Forall (fun e => is_Some (attrib e !! "edges"))
         (findall ["vehicle"; "route"] root) ->
  exists R,
    get_routes ILURL_HOME fs float network_id = Ok R /\
    (forall k, is_Some (R !! k) <->
               exists s, s ∈ route_strings root /\
                         head (split " " s) = Some k) /\
    forall k grp, R !! k = Some grp ->
      NoDup grp.*1 /\
      (forall r, r ∈ grp.*1 <->
                 (exists s, s ∈ route_strings root /\ r = split " " s) /\
                 head r = Some k) /\
      grp <> [] /\
      Forall (fun rp => rp.2 = (1 # Pos.of_nat (length grp))%Q) grp /\
      Qeq (sum_Q grp.*2) (1 # 1)%Q.
Proof.
  intros Hdoc Hall.
  destruct (get_routes_spec network_id root Hdoc Hall)
    as (uniq & R & Hmem & HR & HRk).
  exists R. split; [done|].
  set (routes := split " " <$> elements uniq) in *.
  assert (forall r, r ∈ routes <->
                    exists s, s ∈ route_strings root /\ r = split " " s)
    as Hroutes.
  { intros r. unfold routes. rewrite list_elem_of_fmap.
    split; intros (s & Hs1 & Hs2); exists s.
    - split; [|done]. by apply Hmem, elem_of_elements.
    - split; [done|]. by apply elem_of_elements, Hmem. }
  assert (forall k r, r ∈ group routes k <-> r ∈ routes /\ head r = Some k)
    as Hgroup.
  { intros k r. unfold group. rewrite list_elem_of_filter.
    rewrite bool_decide_eq_true. tauto. }
  split.
  - intros k. rewrite HRk. simpl. fold routes.
    destruct (decide (group routes k = [])) as [Hg|Hg]; split.
    + by intros [? ?].
    + intros (s & Hs & Hk). exfalso.
      eapply (filter_nil_not_elem_of _ _ (split " " s) Hg).
      * by apply bool_decide_eq_true.
      * apply Hroutes. eauto.
    + intros _. destruct (group routes k) as [|r g] eqn:Heq; [done|].
      assert (r ∈ group routes k) as Hr by (rewrite Heq; left).
      apply Hgroup in Hr as [Hr Hh]. apply Hroutes in Hr as (s & Hs & ->).
      eauto.
    + by eauto.
  - intros k grp Hk. rewrite HRk in Hk. simpl in Hk. fold routes in Hk.
    destruct (decide (group routes k = [])) as [Hg|Hg]; [discriminate|].
    injection Hk as <-.
    assert ((pairs (group routes k)).*1 = group routes k) as Hfst.
    { unfold pairs. rewrite <- list_fmap_compose. apply list_fmap_id. }
    assert (length (pairs (group routes k)) = length (group routes k))
      as Hlen by (unfold pairs; apply length_fmap).
    assert (Forall (fun rp : list string * Q =>
                      rp.2 = (1 # Pos.of_nat (length (group routes k)))%Q)
                   (pairs (group routes k))) as Hprob.
    { apply Forall_forall. intros rp Hrp. unfold pairs in Hrp.
      apply list_elem_of_fmap in Hrp as (r & -> & _). done. }
    rewrite Hfst, Hlen. split; [|split; [|split; [|split]]].
    + unfold group. apply NoDup_filter. unfold routes.
      apply (NoDup_fmap_2 _), NoDup_elements.
    + intros r. rewrite Hgroup, Hroutes. tauto.
    + unfold pairs. intros Hnil. apply fmap_nil_inv in Hnil. done.
    + done.
    + apply sum_Q_uniform.
      * intros Hnil. apply fmap_nil_inv in Hnil. unfold pairs in Hnil.
        apply fmap_nil_inv in Hnil. done.
      * rewrite length_fmap, Hlen. apply Forall_fmap.
        eapply Forall_impl; [exact Hprob|]. done.
Qed.

End Routes.


(** C6 on a file system without the route file of [grid], and on the net
    file of [grid], which has no [tlLogic]. *)
Lemma extractor_empty_witness :
  get_generic_element "/home/ilu" grid_only (float:=unit) "grid"
    ["vehicle"; "route"] "rou" None (Some "edges") None = Ok [] /\
  get_generic_element "/home/ilu" grid_only (float:=unit) "grid" ["tlLogic"]
    "net" None None (Some "phase") = Ok [].
Proof.
  split.
  - apply (extractor_empty "/home/ilu" grid_only unit). left. reflexivity.
  - apply (extractor_empty "/home/ilu" grid_only unit). right.
    exists (edge_doc "g1"). split; reflexivity.
Defined.

(** C7 on the edges of the net file of [grid]: the internal edge is
    skipped, the other edge comes with its lanes. *)
Lemma extractor_entries_witness :
  get_generic_element "/home/ilu" grid_only (float:=unit) "grid" ["edge"]
    "net" (Some "function") None (Some "lane")
  = Ok [EDict (list_to_map
          [("id", VStr "g1"); ("from", VStr "a"); ("to", VStr "b");
           ("lanes", VMaps [list_to_map [("id", "g1_0"); ("speed", "13.89");
                                         ("length", "100.00")]])])].
Proof.
  destruct (extractor_entries "/home/ilu" grid_only unit "grid" ["edge"]
              "net" (Some "function") None (Some "lane") (edge_doc "g1")
              eq_refl) as [Hentries _].
  - intros elem _ _ [[v Hv] _]. discriminate.
  - rewrite Hentries. vm_compute. reflexivity.
Defined.

(** C7 as stated fails when a key that the element has and a child tag are
    both given: the bare string cannot receive the list of the children. *)
Lemma key_and_child_tag_raise :
  get_generic_element "/home/ilu" grid_only (float:=unit) "grid" ["edge"]
    "net" (Some "function") (Some "id") (Some "lane")
  = Raise TypeError.
Proof. vm_compute. reflexivity. Qed.

(** C5, at a failing input: the net file of [grid] holds two [edge]
    elements, there is no net file of [intersection], and [get_edges] of
    [grid] is empty, where the edges of the net file of [grid] are
    expected. *)
Lemma get_edges_of_grid_reads_intersection :
  forall (float : Type) (float_of_str : string -> result float)
         (max_floats : list float -> result float),
    grid_only (get_path "/home/ilu" "grid" "net") = Document (edge_doc "g1") /\
    length (findall ["edge"] (edge_doc "g1")) = 2%nat /\
    get_edges "/home/ilu" grid_only float float_of_str max_floats "grid"
    = Ok [].
Proof. intros. repeat split. Qed.

(** C4 on a route file with four vehicles: two distinct routes start at
    [a], each with probability 1/2. *)
Lemma get_routes_uniform_witness :
  exists R grp,
    get_routes "/home/ilu" route_files unit "grid" = Ok R /\
    R !! "a" = Some grp /\ grp.*1 ≡ₚ [["a"; "b"; "c"]; ["a"; "d"]] /\
    Forall (fun rp => rp.2 = (1 # 2)%Q) grp /\
    Qeq (sum_Q grp.*2) (1 # 1)%Q.
Proof.
  assert (Forall (fun e => is_Some (attrib e !! "edges"))
                 (findall ["vehicle"; "route"] route_doc)) as Hall
    by (vm_compute findall; repeat constructor; by eexists).
  destruct (get_routes_uniform "/home/ilu" route_files unit "grid" route_doc
              eq_refl Hall) as (R & HR & _ & Hgrp).
  assert (exists grp, R !! "a" = Some grp /\
                      grp.*1 ≡ₚ [["a"; "b"; "c"]; ["a"; "d"]])
    as (grp & Ha & Hperm).
  { pose proof HR as HR'. vm_compute in HR'. injection HR' as HR'.
    rewrite <- HR'.
    eexists. split; [vm_compute; reflexivity|]. simpl.
    first [reflexivity | apply perm_swap]. }
  destruct (Hgrp "a" grp Ha) as (_ & _ & _ & Hprob & Hsum).
  exists R, grp. split; [exact HR|]. split; [exact Ha|].
  split; [exact Hperm|]. split; [|exact Hsum].
  assert (length grp = 2%nat) as Hlen
    by (rewrite <- (length_fmap fst grp), Hperm; reflexivity).
  by rewrite Hlen in Hprob.
Defined.

End ScenariosFacts.

(** ** Merging rollout evaluations *)

Module RolloutsFacts.
Import Py PyFacts Rollouts.
Local Open Scope list_scope.

Section Concat.
Context {scalar coll : Type} `{Countable scalar} `{EqDecision coll}.

Local Notation "'rdict'" := (gmap string (@rvalue scalar coll _ _)).
Local Notation "'qdict'" := (dict scalar coll).
Local Notation "'qvalue'" := (value scalar coll).

(** *** [pop] *)

Lemma pop_inv (k : string) (d d' : qdict) (v : qvalue) :
  pop k d = Ok (v, d') ->
  (k, v) ∈ d /\ d' = filter (fun kv => kv.1 <> k) d.
Proof.
  unfold pop. destruct (list_find _ d) as [[i [k' v']]|] eqn:Hf;
    [|discriminate].
  intros [= <- <-].
  destruct (proj1 (list_find_Some _ _ _ _) Hf) as (Hi & Hk & _).
  simpl in Hk. subst k'. split; [|done]. by eapply list_elem_of_lookup_2.
Qed.

Lemma elem_of_popped (k : string) (d d' : qdict) (v : qvalue) kv :
  pop k d = Ok (v, d') ->
  kv ∈ d' <-> kv.1 <> k /\ kv ∈ d.
Proof.
  intros Hp. apply pop_inv in Hp as [_ ->]. by rewrite list_elem_of_filter.
Qed.

(** *** One field *)

Lemma merge_field_scalar_inv ex qid (r r' : rdict) k s :
  merge_field ex qid r (k, VScalar s) = Ok r' ->
  (r !! k = None /\ r' = <[k := RScalar s]> r) \/
  (r !! k = Some (RScalar s) /\ r' = r).
Proof.
  simpl. destruct (r !! k) as [rv|]; [|intros [= <-]; by left].
  case_bool_decide as Hne; [discriminate|]. intros [= <-]. right.
  split; [|done]. f_equal. by destruct (decide (rv = RScalar s)).
Qed.

Lemma merge_field_coll_inv ex qid (r r' : rdict) k c :
  merge_field ex qid r (k, VColl c) = Ok r' ->
  exists l d q,
    read r k = RList l /\
    (if bool_decide (ex = length l) then l ++ [IDict ∅] else l) !! ex
    = Some (IDict d) /\
    qid = VScalar q /\
    r' = <[k := RList (<[ex := IDict (<[q := default [] (d !! q) ++ [c]]> d)]>
                         (if bool_decide (ex = length l)
                          then l ++ [IDict ∅] else l))]> r.
Proof.
  simpl. destruct (read r k) as [s|l]; [discriminate|].
  destruct (_ !! ex) as [[v|d]|] eqn:Hl; try discriminate.
  destruct qid as [q|c']; [|discriminate]. intros [= <-].
  exists l, d, q. done.
Qed.

(** *** Scalars are kept or refused *)

Lemma merge_field_sets_scalar ex qid (r r' : rdict) k s :
  merge_field ex qid r (k, VScalar s) = Ok r' ->
  r' !! k = Some (RScalar s).
Proof.
  intros Hm. apply merge_field_scalar_inv in Hm as [[_ ->]|[Hk ->]];
    [apply lookup_insert_eq|done].
Qed.

Lemma merge_field_keeps_scalar ex qid (r r' : rdict) kv k s :
  r !! k = Some (RScalar s) ->
  merge_field ex qid r kv = Ok r' ->
  r' !! k = Some (RScalar s).
Proof.
  intros Hk Hm. destruct kv as [k' [s'|c]].
  - apply merge_field_scalar_inv in Hm as [[Hnone ->]|[_ ->]]; [|done].
    rewrite lookup_insert_ne; [done|]. intros ->. congruence.
  - apply merge_field_coll_inv in Hm as (l & d & q & Hread & _ & _ & ->).
    rewrite lookup_insert_ne; [done|]. intros ->.
    unfold read in Hread. rewrite Hk in Hread. discriminate.
Qed.

Lemma merge_fields_keep_scalar ex qid (fields : qdict) (r r' : rdict) k s :
  r !! k = Some (RScalar s) ->
  foldM (merge_field ex qid) r fields = Ok r' ->
  r' !! k = Some (RScalar s).
Proof.
  intros Hk Hm.
  apply (foldM_inv (fun r => r !! k = Some (RScalar s)) _ _ _ _ Hm Hk).
  intros r0 kv r1 _. apply merge_field_keeps_scalar.
Qed.

Lemma merge_fields_set_scalar ex qid (fields : qdict) (r r' : rdict) k s :
  (k, VScalar s) ∈ fields ->
  foldM (merge_field ex qid) r fields = Ok r' ->
  r' !! k = Some (RScalar s).
Proof.
  intros Hin Hm. apply list_elem_of_split in Hin as (l1 & l2 & ->).
  rewrite foldM_app in Hm. inv_bind Hm. simpl in Hm. inv_bind Hm.
  apply (merge_fields_keep_scalar ex qid l2 a0 r' k s); [|exact Hm].
  exact (merge_field_sets_scalar ex qid a a0 k s Ha0).
Qed.

(** *** One evaluation *)

Lemma merge_evaluation_inv (r r' : rdict) (d : qdict) :
  merge_evaluation r d = Ok r' ->
  exists exid qid d1 d2 ids ex_idx,
    pop "id" d = Ok (exid, d1) /\
    pop "rollout" d1 = Ok (qid, d2) /\
    read r "id" = RList ids /\
    index (IVal exid)
      (if bool_decide (IVal exid ∉ ids) then ids ++ [IVal exid] else ids)
    = Ok ex_idx /\
    foldM (merge_field ex_idx qid)
      (<["id" := RList (if bool_decide (IVal exid ∉ ids)
                        then ids ++ [IVal exid] else ids)]> r) d2
    = Ok r'.
Proof.
  unfold merge_evaluation. intros Hm.
  inv_bind Hm. destruct a as [exid d1]. inv_bind Hm. destruct a as [qid d2].
  destruct (read r "id") as [s|ids] eqn:Hread; [discriminate|].
  inv_bind Hm. exists exid, qid, d1, d2, ids, a. done.
Qed.

Lemma field_of_evaluation (d d1 d2 : qdict) (exid qid : qvalue) kv :
  pop "id" d = Ok (exid, d1) ->
  pop "rollout" d1 = Ok (qid, d2) ->
  kv ∈ d2 <-> kv ∈ d /\ kv.1 <> "id" /\ kv.1 <> "rollout".
Proof.
  intros H1 H2. rewrite (elem_of_popped _ _ _ _ _ H2).
  rewrite (elem_of_popped _ _ _ _ _ H1). tauto.
Qed.

Lemma merge_evaluation_keeps_scalar (r r' : rdict) (d : qdict) k s :
  k <> "id" ->
  r !! k = Some (RScalar s) ->
  merge_evaluation r d = Ok r' ->
  r' !! k = Some (RScalar s).
Proof.
  intros Hne Hk Hm.
  apply merge_evaluation_inv in Hm
    as (exid & qid & d1 & d2 & ids & ex & _ & _ & _ & _ & Hm).
  refine (merge_fields_keep_scalar ex qid d2 _ r' k s _ Hm).
  by rewrite lookup_insert_ne.
Qed.

Lemma merge_evaluation_sets_scalar (r r' : rdict) (d : qdict) k s :
  (k, VScalar s) ∈ d -> k <> "id" -> k <> "rollout" ->
  merge_evaluation r d = Ok r' ->
  r' !! k = Some (RScalar s).
Proof.
  intros Hin Hid Hro Hm.
  apply merge_evaluation_inv in Hm
    as (exid & qid & d1 & d2 & ids & ex & Hp1 & Hp2 & _ & _ & Hm).
  refine (merge_fields_set_scalar ex qid d2 _ r' k s _ Hm).
  by apply (field_of_evaluation _ _ _ _ _ _ Hp1 Hp2).
Qed.


(** *** Evaluations of one experiment *)

Section OneExperiment.
Variable exid : qvalue.

(** [result['id']] once the experiment is known, and before. *)
Definition started (r : rdict) : Prop :=
  r !! "id" = Some (RList [IVal exid]).

Definition fresh_or_started (r : rdict) : Prop :=
  r !! "id" = None \/ started r.

(** Every list under a key other than [id] holds the one aggregate of the
    experiment. *)
Definition one_aggregate (r : rdict) : Prop :=
  forall k l, k <> "id" -> r !! k = Some (RList l) -> exists m, l = [IDict m].

(** [c] was appended under key [k] and rollout id [q]. *)
Definition contains (r : rdict) (k : string) (q : scalar) (c : coll)
    : Prop :=
  exists m cs, r !! k = Some (RList [IDict m]) /\ m !! q = Some cs /\ c ∈ cs.

Lemma index_of_experiment (r : rdict) :
  fresh_or_started r ->
  exists ids,
    read r "id" = RList ids /\
    (if bool_decide (IVal exid ∉ ids) then ids ++ [IVal exid] else ids)
    = [IVal exid] /\
    index (IVal exid) [IVal exid] = Ok 0%nat.
Proof.
  assert (index (IVal exid) [IVal exid] = Ok 0%nat) as Hidx.
  { unfold index. simpl. by rewrite decide_True. }
  intros [Hnone|Hst]; unfold read.
  - rewrite Hnone. exists []. split; [done|]. split; [|done].
    rewrite bool_decide_eq_true_2; [done|]. apply not_elem_of_nil.
  - rewrite Hst. exists [IVal exid]. split; [done|]. split; [|done].
    rewrite bool_decide_eq_false_2; [done|]. intros Hn. apply Hn. left.
Qed.

(** What a list or mapping does to the aggregate of its key. *)
Lemma merge_coll_inv qid (r r' : rdict) k c :
  one_aggregate r -> k <> "id" ->
  merge_field 0 qid r (k, VColl c) = Ok r' ->
  exists m q,
    (r !! k = None /\ m = ∅ \/ r !! k = Some (RList [IDict m])) /\
    qid = VScalar q /\
    r' = <[k := RList [IDict (<[q := default [] (m !! q) ++ [c]]> m)]]> r.
Proof.
  intros Hagg Hk Hm.
  apply merge_field_coll_inv in Hm as (l & d & q & Hread & Hl & -> & ->).
  unfold read in Hread. destruct (r !! k) as [rv|] eqn:Hrk; simpl in Hread.
  - subst rv. destruct (Hagg k l Hk Hrk) as [m ->]. simpl in *.
    injection Hl as <-. exists m, q. eauto.
  - injection Hread as <-. simpl in *. injection Hl as <-.
    exists ∅, q. eauto.
Qed.

Lemma merge_field_aggregates qid (r r' : rdict) k v :
  started r -> one_aggregate r -> k <> "id" ->
  merge_field 0 qid r (k, v) = Ok r' ->
  started r' /\ one_aggregate r' /\
  (forall k' q c, contains r k' q c -> contains r' k' q c) /\
  (forall c, v = VColl c -> exists q, qid = VScalar q /\ contains r' k q c).
Proof.
  intros Hst Hagg Hk Hm. destruct v as [s|c].
  - apply merge_field_scalar_inv in Hm as [[Hnone ->]|[_ ->]].
    + split; [unfold started; by rewrite lookup_insert_ne|].
      split; [|split; [|done]].
      * intros k' l Hk' Hl. destruct (decide (k = k')) as [->|Hne].
        { rewrite lookup_insert_eq in Hl. discriminate. }
        rewrite lookup_insert_ne in Hl by done. by eapply Hagg.
      * intros k' q c (m & cs & Hm & Hq & Hc). exists m, cs.
        split; [|done]. rewrite lookup_insert_ne; [done|].
        intros ->. congruence.
    + done.
  - destruct (merge_coll_inv _ _ _ _ _ Hagg Hk Hm)
      as (m & q & Hrk & -> & ->).
    split; [unfold started; by rewrite lookup_insert_ne|].
    split; [|split].
    + intros k' l Hk' Hl. destruct (decide (k = k')) as [->|Hne].
      * rewrite lookup_insert_eq in Hl. injection Hl as <-. eauto.
      * rewrite lookup_insert_ne in Hl by done. by eapply Hagg.
    + intros k' q' c' (m' & cs & Hm' & Hq & Hc).
      destruct (decide (k = k')) as [->|Hne].
      * destruct Hrk as [[Hnone _]|Hsome]; [congruence|].
        rewrite Hsome in Hm'. injection Hm' as <-.
        destruct (decide (q = q')) as [->|Hq'].
        { exists (<[q' := default [] (m !! q') ++ [c]]> m),
                 (default [] (m !! q') ++ [c]).
          split; [apply lookup_insert_eq|].
          split; [apply lookup_insert_eq|].
          rewrite Hq. simpl. apply elem_of_app. by left. }
        exists (<[q := default [] (m !! q) ++ [c]]> m), cs.
        split; [apply lookup_insert_eq|].
        split; [by rewrite lookup_insert_ne|done].
      * exists m', cs. split; [by rewrite lookup_insert_ne|done].
    + intros c' [= <-]. exists q. split; [done|].
      exists (<[q := default [] (m !! q) ++ [c]]> m),
             (default [] (m !! q) ++ [c]).
      split; [apply lookup_insert_eq|]. split; [apply lookup_insert_eq|].
      apply elem_of_app. right. left.
Qed.

Lemma merge_fields_aggregate qid (fields : qdict) (r r' : rdict) :
  Forall (fun kv => kv.1 <> "id") fields ->
  started r -> one_aggregate r ->
  foldM (merge_field 0 qid) r fields = Ok r' ->
  started r' /\ one_aggregate r' /\
  (forall k q c, contains r k q c -> contains r' k q c) /\
  (forall k c, (k, VColl c) ∈ fields ->
               exists q, qid = VScalar q /\ contains r' k q c).
Proof.
  intros Hid. revert r.
  induction Hid as [|[k v] fields Hk _ IH]; intros r Hst Hagg Hm;
    simpl in Hm.
  - injection Hm as <-. repeat split; try done.
    intros k c Hin. by apply elem_of_nil in Hin.
  - inv_bind Hm. rename a into r1.
    destruct (merge_field_aggregates _ _ _ _ _ Hst Hagg Hk Ha)
      as (Hst1 & Hagg1 & Hmono1 & Hnew1).
    destruct (IH r1 Hst1 Hagg1 Hm) as (Hst' & Hagg' & Hmono' & Hnew').
    split; [done|]. split; [done|]. split; [by eauto|].
    intros k' c Hin. apply elem_of_cons in Hin as [[= -> <-]|Hin].
    + destruct (Hnew1 c eq_refl) as (q & Hq & Hc). eauto.
    + by apply Hnew'.
Qed.

(** The rollout id of an evaluation. *)
Definition rollout_of (d : qdict) (qid : qvalue) : Prop :=
  exists d1 d2,
    pop "id" d = Ok (exid, d1) /\ pop "rollout" d1 = Ok (qid, d2).

Lemma merge_evaluation_aggregates (r r' : rdict) (d : qdict) :
  fresh_or_started r -> one_aggregate r ->
  (exists d1, pop "id" d = Ok (exid, d1)) ->
  merge_evaluation r d = Ok r' ->
  started r' /\ one_aggregate r' /\
  (forall k q c, contains r k q c -> contains r' k q c) /\
  (forall k c, (k, VColl c) ∈ d -> k <> "id" -> k <> "rollout" ->
               exists q, rollout_of d (VScalar q) /\ contains r' k q c).
Proof.
  intros Hfs Hagg [d1 Hp1] Hm.
  apply merge_evaluation_inv in Hm
    as (exid' & qid & d1' & d2 & ids & ex & Hp1' & Hp2 & Hread & Hidx & Hm).
  rewrite Hp1 in Hp1'. injection Hp1' as <- <-.
  destruct (index_of_experiment r Hfs) as (ids' & Hread' & Hids & Hex).
  rewrite Hread in Hread'. injection Hread' as <-.
  rewrite Hids in Hidx, Hm. rewrite Hex in Hidx. injection Hidx as <-.
  destruct (merge_fields_aggregate qid d2 (<["id" := RList [IVal exid]]> r) r')
    as (Hst & Hagg' & Hmono & Hnew).
  - apply Forall_forall. intros kv Hkv.
    by apply (field_of_evaluation _ _ _ _ _ _ Hp1 Hp2) in Hkv as (_ & ? & _).
  - unfold started. apply lookup_insert_eq.
  - intros k l Hk. rewrite lookup_insert_ne by done. by apply Hagg.
  - exact Hm.
  - split; [done|]. split; [done|]. split.
    + intros k q c (m & cs & Hk & Hq & Hc). apply Hmono. exists m, cs.
      split; [|done]. rewrite lookup_insert_ne; [done|]. intros <-.
      destruct Hfs as [Hnone|Hst']; [congruence|].
      unfold started in Hst'. congruence.
    + intros k c Hin Hid Hro. destruct (Hnew k c) as (q & -> & Hc).
      { by apply (field_of_evaluation _ _ _ _ _ _ Hp1 Hp2). }
      exists q. split; [|done]. by exists d1, d2.
Qed.


(** *** Evaluations that can be merged *)








End OneExperiment.

(** *** Evaluations of several experiments *)

Lemma merge_field_other ex qid (r r' : rdict) kv k :
  merge_field ex qid r kv = Ok r' -> k <> kv.1 -> r' !! k = r !! k.
Proof.
  destruct kv as [k' [s|c]]; intros Hm Hne; simpl in Hne.
  - apply merge_field_scalar_inv in Hm as [[_ ->]|[_ ->]]; [|done].
    by rewrite lookup_insert_ne.
  - apply merge_field_coll_inv in Hm as (l & d & q & _ & _ & _ & ->).
    by rewrite lookup_insert_ne.
Qed.



















End Concat.


End RolloutsFacts.

(** ** The experiment runner *)

Module ExpFacts.
Import Py PyFacts Exp.

Section WithNumbers.
Variable num : Type.
Variable truediv : pyobj num -> pyobj num -> result (pyobj num).
Variable modulo : pyobj num -> pyobj num -> result (pyobj num).
Variable py_eq : pyobj num -> pyobj num -> bool.
Variable one zero zero_float : pyobj num.

(** The instance dictionary [__init__] leaves: [cycle] is there,
    [step_counter] is not. *)
Lemma init_attributes (env : Env num) dir_path train policies self :
  init truediv one env dir_path train policies = Ok self ->
  self !! "cycle" = Some (default PNone (cycle_time env)) /\
  self !! "step_counter" = None.
Proof.
  unfold init. destruct (negb train && is_None policies); [discriminate|].
  intros Hinit. inv_bind Hinit. injection Hinit as <-.
  split; by simplify_map_eq.
Qed.

(** C10: when the environment has no [cycle_time] attribute, the
    experiment that [__init__] builds has [cycle] equal to [None] and no
    [step_counter]; at every state of the environment the snapshot check
    then raises [AttributeError] on [self.step_counter]. *)
Theorem save_step_check_raises (env0 : Env num) dir_path train policies
    self :
  cycle_time env0 = None ->
  init truediv one env0 dir_path train policies = Ok self ->
  getattr self "cycle" = Ok PNone /\
  getattr self "step_counter" = Raise (AttributeError "step_counter") /\
  forall env : Env num,
    _is_save_step modulo py_eq zero zero_float self env
    = Raise (AttributeError "step_counter").
Proof.
  intros Hno Hinit.
  destruct (init_attributes _ _ _ _ _ Hinit) as [Hcycle Hsc].
  rewrite Hno in Hcycle. simpl in Hcycle.
  assert (getattr self "cycle" = Ok PNone) as Hc
    by (unfold getattr; by rewrite Hcycle).
  assert (getattr self "step_counter"
          = Raise (AttributeError "step_counter")) as Hs
    by (unfold getattr; by rewrite Hsc).
  split; [done|]. split; [done|].
  intros env. unfold _is_save_step. rewrite Hc. simpl. by rewrite Hs.
Qed.

End WithNumbers.

(** C10 on an environment whose simulation step is 1: the experiment is
    built, with save step 1, and the check raises before and after
    three steps. *)
Lemma save_step_check_raises_witness :
  exists self,
    init z_truediv (PNum 1) (plain_env 0) (PStr "emissions") true PNone
    = Ok self /\
    self !! "save_step" = Some (PNum 1) /\
    getattr self "cycle" = Ok PNone /\
    _is_save_step z_modulo z_eq (PNum 0) (PNum 0) self (plain_env 0)
    = Raise (AttributeError "step_counter") /\
    _is_save_step z_modulo z_eq (PNum 0) (PNum 0) self (plain_env 3)
    = Raise (AttributeError "step_counter").
Proof.
  eexists. split; [reflexivity|]. split; [reflexivity|].
  destruct (save_step_check_raises Z z_truediv z_modulo z_eq (PNum 1)
              (PNum 0) (PNum 0) (plain_env 0) (PStr "emissions") true PNone
              _ eq_refl eq_refl) as (Hc & _ & Hs).
  split; [exact Hc|]. split; apply Hs.
Defined.

End ExpFacts.

(** * Further properties of the sources *)

(** ** Loops that raise *)

Module Loops.
Import Py PyFacts.

(** A loop one of whose turns raises whatever the state, raises. *)
Lemma foldM_raises {A B} (f : B -> A -> result B) (l : list A) (b : B)
    (x : A) :
  x ∈ l -> (forall b, raises (f b x)) -> raises (foldM f b l).
Proof.
  intros Hx Hr. revert b. induction l as [|y l IH]; intros b; simpl.
  - by apply elem_of_nil in Hx.
  - destruct (f b y) as [b'|e] eqn:Hy; simpl; [|by exists e].
    apply elem_of_cons in Hx as [->|Hx]; [|by apply IH].
    destruct (Hr b) as [e He]. congruence.
Qed.

(** When the turns can only raise [e], so can the loop. *)
Lemma foldM_raises_only {A B} (f : B -> A -> result B) (e : exn)
    (l : list A) (b : B) (x : A) :
  (forall b y, y ∈ l -> is_ok (f b y) \/ f b y = Raise e) ->
  x ∈ l -> (forall b, f b x = Raise e) ->
  foldM f b l = Raise e.
Proof.
  intros Honly Hx Hr. revert b. induction l as [|y l IH]; intros b; simpl.
  - by apply elem_of_nil in Hx.
  - destruct (Honly b y) as [[b' Hy]|Hy]; [left| |]; rewrite Hy; simpl;
      [|done].
    apply elem_of_cons in Hx as [->|Hx].
    + rewrite Hr in Hy. discriminate.
    + apply IH; [|done]. intros b0 z Hz. apply Honly. by right.
Qed.

Lemma foldM_cons {A B} (f : B -> A -> result B) (b : B) (x : A)
    (l : list A) :
  foldM f b (x :: l) = (b' ← f b x; foldM f b' l).
Proof. reflexivity. Qed.

Lemma list_comp_always_cons {A B} (f : A -> result B) (x : A) (l : list A) :
  list_comp always f (x :: l)
  = (y ← f x; ys ← list_comp always f l; Ok (y :: ys)).
Proof. reflexivity. Qed.

End Loops.

(** ** The accesses of [phases] *)

Module NetCacheFacts.
Import Py PyFacts Net NetCache.

Section WithInt.
Variable int : string -> result Z.









End WithInt.

End NetCacheFacts.

(** ** Networks: approaches, links and positions *)

Module NetExtra.
Import Py PyFacts Loops Net NetFacts NetExamples NetCache NetCacheFacts.

Section WithInt.
Variable int : string -> result Z.

(** *** [tls_ids] and [approaches] *)

Lemma tls_ids_none (self : Network) :
  Forall (fun n => exists t, n !! "type" = Some t /\ t <> "traffic_light")
         (nodes self) ->
  tls_ids self = Ok [].
Proof.
  intros Hall. unfold tls_ids. apply list_comp_false. intros n Hn.
  rewrite Forall_forall in Hall. destruct (Hall n Hn) as (t & Ht & Hne).
  unfold getitem. rewrite Ht. simpl. by rewrite bool_decide_eq_false_2.
Qed.

(** X1: without a traffic-light node the four properties are empty
    dictionaries, whatever the edges, the connections and the programs are. *)
Theorem no_traffic_light_no_entry (self : Network) :
  Forall (fun n => exists t, n !! "type" = Some t /\ t <> "traffic_light")
         (nodes self) ->
  approaches self = Ok ∅ /\ states self = Ok ∅ /\
  durations int self = Ok ∅ /\ phases int self = Ok ∅.
Proof.
  intros Hall. pose proof (tls_ids_none self Hall) as Hids.
  unfold approaches, states, durations, phases. by rewrite Hids.
Qed.

(** The ids of the edges that end at a node, in the order of the edges. *)
Definition incoming (self : Network) (nid : string) : list string :=
  omap (fun e => e !! "id")
       (filter (fun e => e !! "to" = Some nid) (edges self)).

Lemma approaches_of_incoming (self : Network) (nid : string) :
  Forall (fun e => is_Some (e !! "to") /\ is_Some (e !! "id")) (edges self) ->
  approaches_of self nid = Ok (incoming self nid).
Proof.
  unfold approaches_of, incoming. generalize (edges self). intros es Hall.
  rewrite (list_comp_pure _ _
             (fun e => bool_decide (e !! "to" = Some nid))
             (fun e => default "" (e !! "id"))).
  - f_equal.
    rewrite (list_filter_iff _ (fun e => e !! "to" = Some nid))
      by (intros e; apply bool_decide_eq_true).
    induction Hall as [|e es [_ [i Hi]] _ IH]; [done|].
    rewrite !filter_cons.
    destruct (decide (e !! "to" = Some nid)); [|done].
    rewrite fmap_cons, IH. simpl. by rewrite Hi.
  - intros e He. rewrite Forall_forall in Hall.
    destruct (Hall e He) as [[t Ht] _]. unfold getitem. rewrite Ht. simpl.
    f_equal. apply bool_decide_ext. split; congruence.
  - intros e He _. rewrite Forall_forall in Hall.
    destruct (Hall e He) as [_ [i Hi]]. unfold getitem. by rewrite Hi.
Qed.

(** X2: when every node has a type, every traffic-light node an id and
    every edge an id and an end, [approaches] has exactly one entry per
    traffic-light node: the ids of the edges that end at the node, in the
    order of the edge list. *)
Theorem approaches_are_incoming_edges (self : Network) (ids : list string) :
  tls_ids self = Ok ids ->
  Forall (fun e => is_Some (e !! "to") /\ is_Some (e !! "id")) (edges self) ->
  exists A,
    approaches self = Ok A /\
    forall nid,
      A !! nid = (if decide (nid ∈ ids) then Some (incoming self nid)
                  else None).
Proof.
  intros Hids Hall.
  destruct (dict_comp_ok always Ok (approaches_of self) ids) as [A HA].
  { intros nid _. right. split; [done|]. split; [by exists nid|].
    rewrite approaches_of_incoming by done. by eexists. }
  exists A. unfold approaches. rewrite Hids. split; [done|].
  intros nid. destruct (per_node_inv _ _ _ HA nid) as [Hin Hout].
  destruct (decide (nid ∈ ids)) as [Hnid|Hnid]; [|by apply Hout].
  destruct (Hin Hnid) as (l & Hl & ->).
  rewrite approaches_of_incoming in Hl by done. congruence.
Qed.

(** X3: an edge without an end makes [approaches] raise as soon as there is
    a traffic-light node. *)
Theorem edge_without_end_raises (self : Network) (ids : list string) e :
  tls_ids self = Ok ids -> ids <> [] ->
  e ∈ edges self -> e !! "to" = None ->
  raises (approaches self).
Proof.
  intros Hids Hne He Hto. unfold approaches. rewrite Hids. simpl.
  destruct ids as [|nid ids]; [done|].
  apply (foldM_raises _ _ _ nid); [left|]. intros A. simpl.
  assert (raises (approaches_of self nid)) as [err Herr].
  { unfold approaches_of. revert He. generalize (edges self).
    intros es He. induction es as [|e' es IH]; [by apply elem_of_nil in He|].
    simpl. destruct (getitem e' "to" ≫= _) as [c|err] eqn:Hc; simpl;
      [|by exists err].
    apply elem_of_cons in He as [<-|He].
    { unfold getitem in Hc. rewrite Hto in Hc. discriminate. }
    destruct c.
    - destruct (getitem e' "id") as [i|err]; simpl; [|by exists err].
      destruct (IH He) as [err ->]. by exists err.
    - by apply IH. }
  rewrite Herr. by exists err.
Qed.

(** *** Links *)

(** What one connection does to [links]. *)
Definition link_turn (m : gmap Z string) (conn : gmap string string)
    : result (gmap Z string) :=
  c ← Ok (bool_decide (is_Some (conn !! "linkIndex")));
  if (c : bool)
  then k ← (li ← getitem conn "linkIndex"; int li);
       v ← getitem conn "from";
       Ok (<[k := v]> m)
  else Ok m.

Lemma links_of_fold (conns : list (gmap string string)) :
  links_of int conns = foldM link_turn ∅ conns.
Proof. reflexivity. Qed.

Lemma link_turn_inv m conn m' :
  link_turn m conn = Ok m' ->
  (conn !! "linkIndex" = None /\ m' = m) \/
  (exists li lnk e, conn !! "linkIndex" = Some li /\ int li = Ok lnk /\
                    conn !! "from" = Some e /\ m' = <[lnk := e]> m).
Proof.
  unfold link_turn, getitem. simpl.
  destruct (conn !! "linkIndex") as [li|] eqn:Hli; simpl.
  - rewrite ?bool_decide_eq_true_2 by eauto. simpl.
    destruct (int li) as [lnk|] eqn:Hint; simpl; [|discriminate].
    destruct (conn !! "from") as [e|] eqn:Hfrom; simpl; [|discriminate].
    intros [= <-]. right. eauto 10.
  - rewrite ?bool_decide_eq_false_2 by (by intros [? ?]). intros [= <-].
    by left.
Qed.

(** X4: when several connections of a node share a link index, [links]
    keeps the edge of the last of them. *)
Theorem shared_link_index_keeps_last (conns1 conns2 : list (gmap string string))
    (conn : gmap string string) li lnk e links :
  conn !! "linkIndex" = Some li -> int li = Ok lnk ->
  conn !! "from" = Some e ->
  (forall c li', c ∈ conns2 -> c !! "linkIndex" = Some li' ->
                 int li' <> Ok lnk) ->
  links_of int (conns1 ++ conn :: conns2) = Ok links ->
  links !! lnk = Some e.
Proof.
  intros Hli Hint Hfrom Hlater Hl. rewrite links_of_fold, foldM_app in Hl.
  apply bind_Ok in Hl as (m1 & _ & Hl). simpl in Hl.
  apply bind_Ok in Hl as (m2 & Hturn & Hl).
  assert (m2 !! lnk = Some e) as Hm2.
  { apply link_turn_inv in Hturn
      as [[Hnone _]|(li' & lnk' & e' & Hli' & Hint' & Hfrom' & ->)];
      [congruence|].
    assert (lnk' = lnk) as -> by congruence.
    rewrite lookup_insert_eq. congruence. }
  apply (foldM_inv (fun m => m !! lnk = Some e) _ _ _ _ Hl Hm2).
  intros m c m' Hc Hm Hturn'.
  apply link_turn_inv in Hturn'
    as [[_ ->]|(li' & lnk' & e' & Hli' & Hint' & _ & ->)]; [done|].
  rewrite lookup_insert_ne; [done|]. intros ->. by eapply Hlater.
Qed.

(** *** Positions *)







End WithInt.

Lemma no_traffic_light_no_entry_witness :
  approaches priority_network = Ok ∅ /\ states priority_network = Ok ∅ /\
  durations dec_int priority_network = Ok ∅ /\
  phases dec_int priority_network = Ok ∅.
Proof.
  apply (no_traffic_light_no_entry dec_int priority_network).
  repeat constructor. exists "priority". split; [reflexivity|discriminate].
Defined.

Lemma approaches_are_incoming_edges_witness :
  exists A,
    approaches intersection = Ok A /\
    A !! "247123161"
    = Some ["-238059324"; "383432312"; "-238059328"; "309265401"] /\
    A !! "gneJ0" = None.
Proof.
  destruct (approaches_are_incoming_edges intersection ["247123161"] eq_refl)
    as (A & HA & Hlook).
  { repeat constructor; by eexists. }
  exists A. split; [exact HA|]. split.
  - rewrite Hlook. reflexivity.
  - rewrite Hlook. reflexivity.
Defined.

Lemma edge_without_end_raises_witness :
  raises (approaches endless_edge_network).
Proof.
  apply (edge_without_end_raises endless_edge_network ["n"]
           (attrs [("id", "e2"); ("from", "n")]) eq_refl).
  - discriminate.
  - right. left.
  - reflexivity.
Defined.

Lemma shared_link_index_keeps_last_witness :
  exists links,
    links_of dec_int (connections grouped_signal_network) = Ok links /\
    links !! 0 = Some "e2" /\
    phases dec_int grouped_signal_network
    = Ok {[ "n" := {[ 0%nat := ["e2"] ]} ]}.
Proof.
  assert (exists links,
            links_of dec_int (connections grouped_signal_network) = Ok links)
    as [links Hlinks] by (eexists; vm_compute; reflexivity).
  exists links. split; [exact Hlinks|]. split.
  - apply (shared_link_index_keeps_last dec_int
             [attrs [("from", "e1"); ("to", "o"); ("tl", "n");
                     ("linkIndex", "0")]]
             []
             (attrs [("from", "e2"); ("to", "o"); ("tl", "n");
                     ("linkIndex", "0")])
             "0" 0 "e2" links eq_refl eq_refl eq_refl).
    + intros c li' Hc. by apply elem_of_nil in Hc.
    + exact Hlinks.
  - vm_compute. reflexivity.
Defined.


End NetExtra.

(** ** Networks: [make] and [load] *)

Module NetBuildFacts.
Import Py PyFacts Loops Scenarios ScenariosFacts NetBuild.

(** *** [split] after [join] *)

Definition free_of (sep : ascii) (w : string) : Prop :=
  sep ∉ list_ascii_of_string w.

Lemma split_free (sep : ascii) (w : string) :
  free_of sep w -> split sep w = [w].
Proof.
  unfold free_of. induction w as [|c w IH]; simpl; [done|].
  intros Hfree. rewrite not_elem_of_cons in Hfree. destruct Hfree as [Hc Hw].
  rewrite bool_decide_eq_false_2 by (intros ->; done).
  by rewrite IH.
Qed.

Lemma split_app (sep : ascii) (w rest : string) :
  free_of sep w ->
  split sep (w ++ String sep rest) = w :: split sep rest.
Proof.
  unfold free_of. induction w as [|c w IH]; intros Hfree.
  - change ("" ++ String sep rest) with (String sep rest). simpl.
    by rewrite bool_decide_eq_true_2.
  - change (String c w ++ String sep rest)
      with (String c (w ++ String sep rest)).
    simpl in Hfree. rewrite not_elem_of_cons in Hfree.
    destruct Hfree as [Hc Hw]. simpl.
    rewrite bool_decide_eq_false_2 by (intros ->; done).
    by rewrite IH.
Qed.

Lemma split_join (sep : ascii) (l : list string) :
  l <> [] -> Forall (free_of sep) l -> split sep (join sep l) = l.
Proof.
  intros Hne Hall. induction Hall as [|w l Hw Hl IH]; [done|].
  destruct l as [|w' l].
  - simpl. by apply split_free.
  - change (join sep (w :: w' :: l))
      with (w ++ String sep (join sep (w' :: l))).
    rewrite split_app by done. by rewrite IH.
Qed.

Lemma length_split (sep : ascii) (s : string) :
  length (split sep s)
  = S (length (filter (fun c => c = sep) (list_ascii_of_string s))).
Proof.
  induction s as [|c s IH]; [done|]. simpl. rewrite filter_cons.
  destruct (decide (c = sep)) as [->|Hc].
  - rewrite bool_decide_eq_true_2 by done. simpl. by rewrite IH.
  - rewrite bool_decide_eq_false_2 by done.
    destruct (split sep s) as [|w ws]; simpl in *; [lia|done].
Qed.

Lemma list_index_from_end {A} (pre : list A) (a b c d : A) :
  list_index (pre ++ [a; b; c; d]) (-4) = Ok a.
Proof.
  unfold list_index. rewrite length_app. simpl length.
  change (-4 <? 0) with true. cbv iota.
  destruct (Z.leb_spec 0 (-4 + Z.of_nat (length pre + 4))); [|lia].
  destruct (Z.ltb_spec (-4 + Z.of_nat (length pre + 4))
              (Z.of_nat (length pre + 4))); [|lia].
  simpl andb. cbv iota.
  replace (Z.to_nat (-4 + Z.of_nat (length pre + 4))) with (length pre)
    by lia.
  by rewrite list_lookup_middle.
Qed.

Lemma list_index_short {A} (l : list A) :
  (length l < 4)%nat -> list_index l (-4) = Raise IndexError.
Proof.
  intros Hlen. unfold list_index. change (-4 <? 0) with true. cbv iota.
  destruct (Z.leb_spec 0 (-4 + Z.of_nat (length l))); [lia|]. done.
Qed.

Section WithParams.
Variables net_params vehicle_params initial_config network : Type.
Variable NetParams_load : string -> string -> result net_params.
Variable NetParams_from_template :
  string -> Z -> string -> label1 -> option initial_config
  -> result net_params.
Variable VehicleParams : result vehicle_params.
Variable new_network :
  string -> Z -> net_params -> option initial_config -> vehicle_params
  -> result network.
Variable int : string -> result Z.
Variable str_of_nat : nat -> string.

(** X6: the horizon of a loaded network is read off the route path: it is
    the fourth part from the end, the parts being separated by dots. *)
Theorem load_reads_horizon (network_id : string) (pre : list string)
    (h a b c : string) :
  Forall (free_of ".") (pre ++ [h; a; b; c])%list ->
  load _ _ _ _ NetParams_load VehicleParams new_network int network_id
    (join "." (pre ++ [h; a; b; c])%list)
  = (net_params ← NetParams_load network_id
                    (join "." (pre ++ [h; a; b; c])%list);
     horizon ← int h;
     vehicles ← VehicleParams;
     new_network network_id horizon net_params None vehicles).
Proof.
  intros Hfree. unfold load. rewrite split_join; [|by destruct pre|done].
  by rewrite list_index_from_end.
Qed.

(** X7: a route path with fewer than three dots cannot be loaded. *)
Theorem load_short_path_raises (network_id route_path : string) :
  (length (filter (fun c => c = "."%char) (list_ascii_of_string route_path))
   < 3)%nat ->
  raises (load _ _ _ _ NetParams_load VehicleParams new_network int
            network_id route_path).
Proof.
  intros Hdots. unfold load.
  destruct (NetParams_load network_id route_path) as [p|e]; simpl;
    [|by exists e].
  rewrite list_index_short; [by eexists|]. rewrite length_split. lia.
Qed.

(** *** [make] *)

(** The label of repetition [nr]. *)
Definition label_of (num_reps : Z) (label : option string) (nr : nat)
    : label1 :=
  match label with
  | Some s =>
      if decide (s <> "" /\ 1 < num_reps)
      then LStr (str_of_nat nr ++ "." ++ s) else LInt nr
  | None => LInt nr
  end.

Lemma make_loop network_id horizon demand_type num_reps label ic
    (template : label1 -> net_params) (vehicles : vehicle_params)
    (build : net_params -> network) (acc : list network) (nrs : list nat) :
  (forall l, NetParams_from_template network_id horizon demand_type l ic
             = Ok (template l)) ->
  VehicleParams = Ok vehicles ->
  (forall p, new_network network_id horizon p ic vehicles = Ok (build p)) ->
  foldM (fun networks nr =>
           let label1 :=
             match label with
             | Some s =>
                 if negb (bool_decide (s = "")) && (1 <? num_reps)
                 then LStr (str_of_nat nr ++ "." ++ s)
                 else LInt nr
             | None => LInt nr
             end in
           net_params ← NetParams_from_template network_id horizon
                          demand_type label1 ic;
           vehicles ← VehicleParams;
           n ← new_network network_id horizon net_params ic vehicles;
           Ok (networks ++ [n])%list)
        acc nrs
  = Ok (acc ++ ((fun nr => build (template (label_of num_reps label nr)))
                  <$> nrs))%list.
Proof.
  intros Ht Hv Hb.
  match goal with |- foldM ?f _ _ = _ => set (body := f) end.
  assert (forall acc nr,
            body acc nr
            = Ok (acc ++ [build (template (label_of num_reps label nr))])%list)
    as Hbody.
  { intros acc' nr. unfold body. cbv zeta. rewrite Ht, Hv.
    cbn [mbind result_bind]. rewrite Hb. cbn [mbind result_bind].
    do 4 f_equal.
    unfold label_of. destruct label as [s|]; [|done].
    destruct (decide (s <> "" /\ 1 < num_reps)) as [[Hs Hn]|Hno].
    + rewrite bool_decide_eq_false_2 by done.
      by destruct (Z.ltb_spec 1 num_reps); [|lia].
    + destruct (decide (s = "")) as [->|Hs]; [done|].
      rewrite bool_decide_eq_false_2 by done.
      destruct (Z.ltb_spec 1 num_reps); [|done]. destruct Hno. done. }
  clearbody body. revert acc.
  induction nrs as [|nr nrs IH]; intros acc; simpl.
  - by rewrite (right_id_L [] (++)%list).
  - rewrite Hbody. simpl. rewrite IH. by rewrite <- (assoc_L (++)%list).
Qed.

(** X8: when the parameters and the networks can be built, [make] returns
    one network for one repetition, built with label 0 whatever label is
    given, and otherwise the list of the networks of the repetitions in
    order -- the empty list when no repetition is asked for --, built with
    the number of the repetition followed by a dot and the label when a
    label is given and is not empty, with the number alone when not. *)
Theorem make_result network_id horizon demand_type num_reps label ic
    (template : label1 -> net_params) (vehicles : vehicle_params)
    (build : net_params -> network) :
  (forall l, NetParams_from_template network_id horizon demand_type l ic
             = Ok (template l)) ->
  VehicleParams = Ok vehicles ->
  (forall p, new_network network_id horizon p ic vehicles = Ok (build p)) ->
  make _ _ _ _ NetParams_from_template VehicleParams new_network str_of_nat
    network_id horizon demand_type num_reps label ic
  = Ok (if decide (num_reps = 1) then One (build (template (LInt 0)))
        else Many ((fun nr => build (template (label_of num_reps label nr)))
                     <$> seq 0 (Z.to_nat num_reps))).
Proof.
  intros Ht Hv Hb. unfold make.
  rewrite (make_loop _ _ _ _ _ _ template vehicles build) by done. simpl.
  destruct (decide (num_reps = 1)) as [->|Hne].
  - simpl. do 3 f_equal. unfold label_of. destruct label as [s|]; [|done].
    destruct (decide _) as [[_ ?]|_]; [lia|done].
  - by destruct (Z.eqb_spec num_reps 1).
Qed.

End WithParams.

(** The route path of a network of horizon 3600. *)
Lemma load_reads_horizon_witness :
  load unit unit unit (string * Z) (fun _ _ => Ok tt) (Ok tt)
    (fun nid h _ _ _ => Ok (nid, h)) dec_int "intersection"
    "data/intersection.3600.w.rou.xml"
  = Ok ("intersection", 3600).
Proof.
  pose proof (load_reads_horizon unit unit unit (string * Z)
                (fun _ _ => Ok tt) (Ok tt) (fun nid h _ _ _ => Ok (nid, h))
                dec_int "intersection" ["data/intersection"]
                "3600" "w" "rou" "xml") as Hload.
  simpl in Hload. apply Hload.
  repeat constructor; unfold free_of; vm_compute;
    intros Hin; repeat (inversion Hin as [|? ? ? Hin']; clear Hin;
                        rename Hin' into Hin); inversion Hin.
Defined.

(** A route path without horizon. *)
Lemma load_short_path_raises_witness :
  raises (load unit unit unit (string * Z) (fun _ _ => Ok tt) (Ok tt)
            (fun nid h _ _ _ => Ok (nid, h)) dec_int "intersection"
            "intersection.rou.xml").
Proof.
  apply (load_short_path_raises unit unit unit (string * Z)
           (fun _ _ => Ok tt) (Ok tt) (fun nid h _ _ _ => Ok (nid, h))
           dec_int "intersection" "intersection.rou.xml").
  vm_compute. lia.
Defined.

(** One repetition with a label, and two. *)
Lemma make_result_witness :
  make unit unit unit label1 (fun _ _ _ l _ => Ok tt) (Ok tt)
    (fun _ _ _ _ _ => Ok (LInt 0)) (fun _ => "0") "grid" 3600 "lane" 1
    (Some "eval") None
  = Ok (One (LInt 0)) /\
  make unit unit unit label1 (fun _ _ _ l _ => Ok tt) (Ok tt)
    (fun _ _ _ _ _ => Ok (LInt 0)) (fun _ => "0") "grid" 3600 "lane" 0
    (Some "eval") None
  = Ok (Many []).
Proof.
  split.
  - apply (make_result unit unit unit label1 (fun _ _ _ l _ => Ok tt) (Ok tt)
             (fun _ _ _ _ _ => Ok (LInt 0)) (fun _ => "0") "grid" 3600 "lane"
             1 (Some "eval") None (fun _ => tt) tt (fun _ => LInt 0));
      reflexivity.
  - apply (make_result unit unit unit label1 (fun _ _ _ l _ => Ok tt) (Ok tt)
             (fun _ _ _ _ _ => Ok (LInt 0)) (fun _ => "0") "grid" 3600 "lane"
             0 (Some "eval") None (fun _ => tt) tt (fun _ => LInt 0));
      reflexivity.
Defined.

End NetBuildFacts.

(** ** Scenarios: paths, routes, edges and traffic-light programs *)

Module ScenariosExtra.
Import Py PyFacts Loops Scenarios ScenariosFacts ScenariosExamples ScenarioInit.

(** *** Paths *)

Lemma rev_app_app (s1 s2 acc : string) :
  String.rev_app (s1 ++ s2) acc = String.rev_app s2 (String.rev_app s1 acc).
Proof.
  revert acc. induction s1 as [|c s1 IH]; intros acc; [done|]. apply IH.
Qed.

Lemma DIR_ends_with_slash (home : string) :
  String.prefix "/" (String.rev (DIR home)) = true.
Proof.
  unfold DIR, String.rev. rewrite rev_app_app. reflexivity.
Qed.

Lemma prefix_empty (s : string) : String.prefix "" s = true.
Proof. by destruct s. Qed.

Lemma prefix_cons (a b : ascii) (s t : string) :
  String.prefix (String a s) (String b t)
  = if ascii_dec a b then String.prefix s t else false.
Proof. reflexivity. Qed.

Lemma string_app_assoc (a b c : string) : (a ++ b) ++ c = a ++ b ++ c.
Proof.
  induction a as [|x a IH]; [reflexivity|].
  change (String x ((a ++ b) ++ c) = String x (a ++ b ++ c)). by rewrite IH.
Qed.

Lemma DIR_not_empty (home : string) : DIR home <> "".
Proof. unfold DIR. destruct home; discriminate. Qed.

(** X9: the path of a file of a network lies under the data directory, at
    [{network_id}/{network_id}.{file_type}.xml], unless the network id is
    empty or starts with a slash: then the data directory and [ILURL_HOME]
    play no part in the path. *)
Theorem get_path_cases (home network_id file_type : string) :
  get_path home network_id file_type
  = (if bool_decide (network_id = "") || String.prefix "/" network_id
     then network_id ++ "/" ++ network_id ++ "." ++ file_type ++ ".xml"
     else home ++ "/data/networks/" ++ network_id ++ "/" ++ network_id
               ++ "." ++ file_type ++ ".xml").
Proof.
  unfold get_path, path_join. rewrite DIR_ends_with_slash.
  rewrite orb_true_r.
  destruct network_id as [|c nid]; [reflexivity|].
  rewrite bool_decide_eq_false_2 by discriminate.
  change (String c nid ++ "/" ++ String c nid ++ "." ++ file_type ++ ".xml")
    with (String c (nid ++ "/" ++ String c nid ++ "." ++ file_type ++ ".xml")).
  rewrite !prefix_cons, !prefix_empty.
  destruct (ascii_dec "/" c) as [<-|Hc]; [reflexivity|].
  unfold DIR. by rewrite string_app_assoc.
Qed.


(** *** [get_routes] without routes, and on a route without edges *)

Section Routes.
Variable ILURL_HOME : string.
Variable fs : string -> file.
Variable float : Type.

(** X10: without a route file, or with a route file that holds no route,
    the routes are the empty dictionary; nothing is raised. *)
Theorem no_route_file_no_routes (network_id : string) :
  fs (get_path ILURL_HOME network_id "rou") = Missing \/
  (exists root, fs (get_path ILURL_HOME network_id "rou") = Document root /\
                findall ["vehicle"; "route"] root = []) ->
  get_routes ILURL_HOME fs float network_id = Ok ∅.
Proof.
  intros Hno. unfold get_routes.
  assert (get_generic_element ILURL_HOME fs (float:=float) network_id
            ["vehicle"; "route"] "rou" None (Some "edges") None = Ok [])
    as ->.
  { unfold get_generic_element.
    destruct Hno as [->|(root & -> & ->)]; reflexivity. }
  reflexivity.
Qed.

(** X11: a [route] element without the attribute [edges] comes out of the
    extractor as its attribute dictionary, which [set] cannot hash:
    [get_routes] raises [TypeError], wherever the element stands in the
    file. *)
Theorem route_without_edges_raises (network_id : string)
    (root e : element) :
  fs (get_path ILURL_HOME network_id "rou") = Document root ->
  e ∈ findall ["vehicle"; "route"] root ->
  attrib e !! "edges" = None ->
  get_routes ILURL_HOME fs float network_id = Raise TypeError.
Proof.
  intros Hdoc He Hnone. unfold get_routes.
  rewrite (extractor_on_document _ _ _ _ _ _ _ _ _ root Hdoc).
  2: { intros elem _ _ [_ [ck Hck]]. discriminate. }
  rewrite filter_all by done. simpl.
  assert (set_comp always hashable
            (entry_spec float (Some "edges") None
               <$> findall ["vehicle"; "route"] root)
          = Raise TypeError) as ->; [|done].
  unfold set_comp.
  apply (foldM_raises_only _ _ _ _ (entry_spec float (Some "edges") None e)).
  - intros acc y _. simpl. destruct y; simpl; [left; by eexists|by right].
  - apply list_elem_of_fmap. eauto.
  - intros acc. unfold entry_spec, key_value. simpl. by rewrite Hnone.
Qed.

End Routes.

(** *** [get_edges] *)

Section Edges.
Variable ILURL_HOME : string.
Variable fs : string -> file.
Variable float : Type.
Variable float_of_str : string -> result float.
Variable max_floats : list float -> result float.

(** The edges [get_edges] keeps, the attribute maps of the lanes of an edge
    and the largest value of a lane attribute. *)
Definition kept_edges (root : element) : list element :=
  filter (fun e => attrib e !! "function" = None) (findall ["edge"] root).

Definition lanes (e : element) : list (gmap string string) :=
  attrib <$> filter (fun c => tag c = "lane") (children e).

Definition lane_max (k : string) (e : element) : result float :=
  xs ← list_comp always (fun lane => s ← getitem lane k; float_of_str s)
                 (lanes e);
  max_floats xs.

Definition edge_dict (e : element) : gmap string (value float) :=
  <["lanes" := VMaps (lanes e)]> (VStr <$> attrib e).

Lemma edge_entries (root : element) :
  fs (get_path ILURL_HOME "intersection" "net") = Document root ->
  get_generic_element ILURL_HOME fs "intersection" ["edge"] "net"
    (Some "function") None (Some "lane")
  = Ok ((fun e => EDict (edge_dict e)) <$> kept_edges root).
Proof.
  intros Hdoc. rewrite (extractor_on_document _ _ _ _ _ _ _ _ _ root Hdoc).
  - f_equal. unfold kept_edges.
    rewrite (list_filter_iff _ (fun e => attrib e !! "function" = None)).
    + reflexivity.
    + intros e. simpl. rewrite bool_decide_eq_false.
      by rewrite eq_None_not_Some.
  - intros elem _ _ [[v Hv] _]. discriminate.
Qed.

Lemma max_of_lanes_spec (k : string) (e : element)
    (d : gmap string (value float)) :
  d !! "lanes" = Some (VMaps (lanes e)) ->
  max_of_lanes float float_of_str max_floats k d = lane_max k e.
Proof.
  intros Hd. unfold max_of_lanes, lanes_of, getitem. by rewrite Hd.
Qed.

Lemma lanes_of_spec (e : element) (d : gmap string (value float)) :
  d !! "lanes" = Some (VMaps (lanes e)) ->
  lanes_of float d = Ok (lanes e).
Proof. intros Hd. unfold lanes_of, getitem. by rewrite Hd. Qed.

(** What [get_edges] makes of the entry of an edge. *)
Definition edge_record (e : element) (o : entry float) : Prop :=
  exists d speed len,
    o = EDict d /\
    lane_max "speed" e = Ok speed /\ lane_max "length" e = Ok len /\
    d !! "speed" = Some (VFloat speed) /\
    d !! "length" = Some (VFloat len) /\
    d !! "numLanes" = Some (VInt (Z.of_nat (length (lanes e)))) /\
    d !! "lanes" = None /\
    forall k, k ∉ ["speed"; "length"; "numLanes"; "lanes"] ->
              d !! k = VStr <$> attrib e !! k.

Lemma edge_of_entry_inv (e : element) (o : entry float) :
  edge_of_entry float float_of_str max_floats (EDict (edge_dict e)) = Ok o ->
  edge_record e o.
Proof.
  unfold edge_of_entry. intros Ho.
  rewrite (max_of_lanes_spec _ e) in Ho
    by (unfold edge_dict; by simplify_map_eq).
  inv_bind Ho. rename a into speed.
  rewrite (max_of_lanes_spec _ e) in Ho
    by (unfold edge_dict; by simplify_map_eq).
  inv_bind Ho. rename a into len.
  rewrite (lanes_of_spec e) in Ho by (unfold edge_dict; by simplify_map_eq).
  simpl in Ho. unfold getitem in Ho.
  assert (<["numLanes" := VInt (Z.of_nat (length (lanes e)))]>
            (<["length" := VFloat len]>
               (<["speed" := VFloat speed]> (edge_dict e))) !! "lanes"
          = Some (VMaps (lanes e))) as Hl
    by (unfold edge_dict; by simplify_map_eq).
  rewrite Hl in Ho. simpl in Ho.
  injection Ho as <-.
  exists (delete "lanes"
            (<["numLanes" := VInt (Z.of_nat (length (lanes e)))]>
               (<["length" := VFloat len]>
                  (<["speed" := VFloat speed]> (edge_dict e))))),
         speed, len.
  split; [done|]. split; [done|]. split; [done|].
  unfold edge_dict.
  split; [by simplify_map_eq|]. split; [by simplify_map_eq|].
  split; [by simplify_map_eq|]. split; [by simplify_map_eq|].
  intros k Hk. rewrite !elem_of_cons, elem_of_nil in Hk.
  rewrite lookup_delete_ne by (intros <-; tauto).
  rewrite !lookup_insert_ne by (intros <-; tauto).
  by rewrite lookup_fmap.
Qed.

(** A lane that gives a speed and a length. *)
Definition measured (lane : gmap string string) : Prop :=
  exists speed len,
    lane !! "speed" = Some speed /\ is_ok (float_of_str speed) /\
    lane !! "length" = Some len /\ is_ok (float_of_str len).

Lemma lane_values_ok (k : string) (ls : list (gmap string string)) :
  Forall (fun lane => exists s, lane !! k = Some s /\ is_ok (float_of_str s))
         ls ->
  exists xs,
    list_comp always (fun lane => s ← getitem lane k; float_of_str s) ls
    = Ok xs /\ length xs = length ls.
Proof.
  unfold getitem.
  induction 1 as [|lane ls (s & Hs & [x Hx]) _ (xs & IH & Hlen)]; simpl.
  - by exists [].
  - rewrite Hs. simpl. rewrite Hx. simpl.
    rewrite IH. simpl. exists (x :: xs). split; [done|]. simpl. by rewrite Hlen.
Qed.

Lemma lane_max_ok (k : string) (e : element) :
  (forall xs, xs <> [] -> is_ok (max_floats xs)) ->
  lanes e <> [] ->
  Forall (fun lane => exists s, lane !! k = Some s /\ is_ok (float_of_str s))
         (lanes e) ->
  is_ok (lane_max k e).
Proof.
  intros Hmax Hne Hall. unfold lane_max.
  destruct (lane_values_ok k (lanes e) Hall) as (xs & -> & Hlen). simpl.
  apply Hmax. intros ->. destruct (lanes e); [done|discriminate].
Qed.

Lemma edge_of_entry_ok (e : element) :
  is_ok (lane_max "speed" e) -> is_ok (lane_max "length" e) ->
  is_ok (edge_of_entry float float_of_str max_floats (EDict (edge_dict e))).
Proof.
  intros [speed Hs] [len Hl]. unfold edge_of_entry.
  rewrite (max_of_lanes_spec _ e) by (unfold edge_dict; by simplify_map_eq).
  rewrite Hs. simpl.
  rewrite (max_of_lanes_spec _ e) by (unfold edge_dict; by simplify_map_eq).
  rewrite Hl. simpl.
  rewrite (lanes_of_spec e) by (unfold edge_dict; by simplify_map_eq).
  simpl. unfold getitem, edge_dict. simplify_map_eq. by eexists.
Qed.

(** X12: for a net file of [intersection] whose edges without [function]
    have at least one lane each, every lane giving a speed and a length
    that [float] reads, [get_edges] returns one dictionary per such edge,
    in the order of the file: [speed] and [length] are the largest values
    among the lanes, [numLanes] is the number of lanes, the list of the
    lanes is gone, and every other attribute of the edge is kept as it is. *)
Theorem get_edges_records (network_id : string) (root : element) :
  fs (get_path ILURL_HOME "intersection" "net") = Document root ->
  (forall xs, xs <> [] -> is_ok (max_floats xs)) ->
  Forall (fun e => lanes e <> [] /\ Forall measured (lanes e))
         (kept_edges root) ->
  exists out,
    get_edges ILURL_HOME fs float float_of_str max_floats network_id = Ok out
    /\ Forall2 edge_record (kept_edges root) out.
Proof.
  intros Hdoc Hmax Hall. unfold get_edges.
  rewrite (edge_entries root Hdoc). simpl.
  induction Hall as [|e es [Hne Hlanes] _ (out & IH & Hout)].
  - exists []. by split.
  - destruct (edge_of_entry_ok e) as [o Ho].
    + apply lane_max_ok; [done..|]. eapply Forall_impl; [exact Hlanes|].
      intros lane (s & l & ? & ? & _). eauto.
    + apply lane_max_ok; [done..|]. eapply Forall_impl; [exact Hlanes|].
      intros lane (s & l & _ & _ & ? & ?). eauto.
    + rewrite fmap_cons, list_comp_always_cons, Ho. simpl.
      rewrite IH. simpl. exists (o :: out).
      split; [done|]. constructor; [|done]. by apply edge_of_entry_inv.
Qed.

Lemma list_comp_raises {A B} (f : A -> result B) (l : list A) (x : A) :
  x ∈ l -> raises (f x) -> raises (list_comp always f l).
Proof.
  intros Hx Hr. induction l as [|y l IH]; [by apply elem_of_nil in Hx|].
  simpl. destruct (f y) as [b|err] eqn:Hy; simpl; [|by exists err].
  apply elem_of_cons in Hx as [->|Hx].
  - destruct Hr as [err Herr]. congruence.
  - destruct (IH Hx) as [err ->]. by exists err.
Qed.

(** X13: an edge without [function] and without a lane makes [get_edges]
    raise: [max] has nothing to choose from. *)
Theorem edge_without_lane_raises (network_id : string) (root e : element) :
  fs (get_path ILURL_HOME "intersection" "net") = Document root ->
  raises (max_floats []) ->
  e ∈ findall ["edge"] root -> attrib e !! "function" = None ->
  filter (fun c => tag c = "lane") (children e) = [] ->
  raises (get_edges ILURL_HOME fs float float_of_str max_floats network_id).
Proof.
  intros Hdoc Hmax He Hfun Hlanes. unfold get_edges.
  rewrite (edge_entries root Hdoc). simpl.
  apply (list_comp_raises _ _ (EDict (edge_dict e))).
  - apply list_elem_of_fmap. exists e. split; [done|].
    unfold kept_edges. by rewrite list_elem_of_filter.
  - unfold edge_of_entry.
    rewrite (max_of_lanes_spec _ e) by (unfold edge_dict; by simplify_map_eq).
    unfold lane_max, lanes. rewrite Hlanes. simpl.
    destruct Hmax as [err ->]. by exists err.
Qed.

End Edges.

(** *** The traffic-light programs of a scenario *)

Section TrafficLights.
Variable ILURL_HOME : string.
Variable fs : string -> file.
Variable float : Type.
Variable int : string -> result Z.
Variable int_of_float : float -> result Z.
Variable TrafficLightParams : Type.
Variable baseline_off : TrafficLightParams.
Variable add : TrafficLightParams -> value float ->
               gmap string (value float) -> result TrafficLightParams.

Definition phase_maps (e : element) : list (gmap string string) :=
  attrib <$> filter (fun c => tag c = "phase") (children e).

Definition program_dict (e : element) : gmap string (value float) :=
  <["phases" := VMaps (phase_maps e)]> (VStr <$> attrib e).

Lemma program_entries (root : element) :
  fs (get_path ILURL_HOME "intersection" "net") = Document root ->
  get_generic_element ILURL_HOME fs "intersection" ["tlLogic"] "net"
    None None (Some "phase")
  = Ok ((fun e => EDict (program_dict e)) <$> findall ["tlLogic"] root).
Proof.
  intros Hdoc. rewrite (extractor_on_document _ _ _ _ _ _ _ _ _ root Hdoc).
  - by rewrite filter_all.
  - intros elem _ _ [[v Hv] _]. discriminate.
Qed.

(** The call of [add] made for a [tlLogic] element: node id and keyword
    arguments. *)
Definition program_call (e : element)
    (a : value float * gmap string (value float)) : Prop :=
  exists id ty pid n,
    attrib e !! "id" = Some id /\ attrib e !! "type" = Some ty /\
    attrib e !! "programID" = Some pid /\ int pid = Ok n /\
    a.1 = VStr id /\
    a.2 !! "id" = None /\ a.2 !! "type" = None /\
    a.2 !! "tls_type" = Some (VStr ty) /\
    a.2 !! "programID" = Some (VInt (n + 1)) /\
    a.2 !! "phases" = Some (VMaps (phase_maps e)) /\
    forall k, k ∉ ["id"; "type"; "tls_type"; "programID"; "phases"] ->
              a.2 !! k = VStr <$> attrib e !! k.

(** A [tlLogic] element with what the loop pops. *)
Definition well_formed_program (e : element) : Prop :=
  is_Some (attrib e !! "id") /\ is_Some (attrib e !! "type") /\
  exists pid, attrib e !! "programID" = Some pid /\ is_ok (int pid).

Lemma program_arguments_ok (e : element) :
  well_formed_program e ->
  exists a, program_arguments int int_of_float (EDict (program_dict e)) = Ok a
            /\ program_call e a.
Proof.
  intros ([id Hid] & [ty Hty] & pid & Hpid & [n Hn]).
  unfold program_arguments, pop_key, getitem, program_dict.
  rewrite lookup_insert_ne, lookup_fmap, Hid by done. simpl.
  rewrite lookup_delete_ne, lookup_insert_ne, lookup_fmap, Hty by done.
  simpl.
  rewrite lookup_insert_ne, !lookup_delete_ne, lookup_insert_ne, lookup_fmap,
    Hpid by done.
  simpl. rewrite Hn. simpl. eexists. split; [reflexivity|].
  exists id, ty, pid, n. simpl.
  split; [done|]. split; [done|]. split; [done|]. split; [done|].
  split; [done|].
  split; [by simplify_map_eq|]. split; [by simplify_map_eq|].
  split; [by simplify_map_eq|]. split; [by simplify_map_eq|].
  split; [by simplify_map_eq|].
  intros k Hk. rewrite !elem_of_cons, elem_of_nil in Hk.
  rewrite lookup_insert_ne by (intros <-; tauto).
  rewrite lookup_delete_ne by (intros <-; tauto).
  rewrite lookup_insert_ne by (intros <-; tauto).
  rewrite !lookup_delete_ne by (intros <-; tauto).
  rewrite lookup_insert_ne by (intros <-; tauto).
  by rewrite lookup_fmap.
Qed.

Lemma program_loop (es : list element) (tl : TrafficLightParams) :
  Forall well_formed_program es ->
  exists calls,
    Forall2 program_call es calls /\
    foldM (fun traffic_lights prog =>
             '(prog_id, prog) ← program_arguments int int_of_float prog;
             add traffic_lights prog_id prog)
          tl ((fun e => EDict (program_dict e)) <$> es)
    = foldM (fun traffic_lights a => add traffic_lights a.1 a.2) tl calls.
Proof.
  intros Hall. revert tl.
  induction Hall as [|e es He _ IH]; intros tl.
  - exists []. by split.
  - destruct (program_arguments_ok e He) as ([id kw] & Ha & Hcall).
    destruct (add tl id kw) as [tl'|err] eqn:Hadd.
    + destruct (IH tl') as (calls & Hcalls & Heq).
      exists ((id, kw) :: calls). split; [by constructor|].
      rewrite fmap_cons, !foldM_cons, Ha. simpl. by rewrite Hadd.
    + destruct (IH tl) as (calls & Hcalls & _).
      exists ((id, kw) :: calls). split; [by constructor|].
      rewrite fmap_cons, !foldM_cons, Ha. simpl. by rewrite Hadd.
Qed.

(** X14: when every [tlLogic] element of the net file of [intersection] has
    an [id], a [type] and a [programID] that [int] reads, the scenario
    registers the programs in the order of the file, one call of [add] per
    element: the node id is the [id]; among the keyword arguments
    [tls_type] is the [type], [programID] is one more than in the file,
    [phases] are the attribute maps of the [phase] children, [id] and
    [type] are absent, and every other attribute is passed as it is. *)
Theorem programs_registered (root : element) :
  fs (get_path ILURL_HOME "intersection" "net") = Document root ->
  Forall well_formed_program (findall ["tlLogic"] root) ->
  exists calls,
    Forall2 program_call (findall ["tlLogic"] root) calls /\
    default_traffic_lights ILURL_HOME fs int int_of_float baseline_off add
    = foldM (fun traffic_lights a => add traffic_lights a.1 a.2)
            baseline_off calls.
Proof.
  intros Hdoc Hall. unfold default_traffic_lights.
  rewrite (program_entries root Hdoc). simpl.
  destruct (program_loop _ baseline_off Hall) as (calls & Hcalls & Heq).
  exists calls. split; [done|]. rewrite <- Heq.
  by destruct (findall ["tlLogic"] root).
Qed.

(** X15: a [tlLogic] element without [id], [type] or [programID] makes the
    construction of the scenario raise, whatever [add] does. *)
Theorem program_without_attribute_raises (root e : element) :
  fs (get_path ILURL_HOME "intersection" "net") = Document root ->
  e ∈ findall ["tlLogic"] root ->
  attrib e !! "id" = None \/ attrib e !! "type" = None \/
  attrib e !! "programID" = None ->
  raises (default_traffic_lights ILURL_HOME fs int int_of_float
            baseline_off add).
Proof.
  intros Hdoc He Hmiss. unfold default_traffic_lights.
  rewrite (program_entries root Hdoc). simpl.
  assert (raises (foldM
            (fun traffic_lights prog =>
               '(prog_id, prog) ← program_arguments int int_of_float prog;
               add traffic_lights prog_id prog)
            baseline_off
            ((fun e => EDict (program_dict e)) <$> findall ["tlLogic"] root)))
    as Hr.
  { apply (foldM_raises _ _ _ (EDict (program_dict e))).
    - apply list_elem_of_fmap. eauto.
    - intros tl.
      assert (raises (program_arguments int int_of_float
                        (EDict (program_dict e)))) as [err ->];
        [|by exists err].
      unfold program_arguments, pop_key, getitem, program_dict.
      rewrite lookup_insert_ne, lookup_fmap by done.
      destruct (attrib e !! "id") as [id|] eqn:Hid; simpl; [|by eexists].
      rewrite lookup_delete_ne, lookup_insert_ne, lookup_fmap by done.
      destruct (attrib e !! "type") as [ty|] eqn:Hty; simpl; [|by eexists].
      rewrite lookup_insert_ne, !lookup_delete_ne, lookup_insert_ne,
        lookup_fmap by done.
      destruct (attrib e !! "programID") as [pid|] eqn:Hpid; simpl;
        [|by eexists].
      destruct Hmiss as [?|[?|?]]; discriminate. }
  destruct (findall ["tlLogic"] root) eqn:Hf; [|exact Hr].
  by apply elem_of_nil in He.
Qed.

End TrafficLights.


(** No route file for [grid]: no routes. *)
Lemma no_route_file_no_routes_witness :
  get_routes "/home/ilu" grid_only unit "grid" = Ok ∅.
Proof.
  apply (no_route_file_no_routes "/home/ilu" grid_only unit "grid").
  left. reflexivity.
Defined.

(** The second route of the file names no edges. *)
Lemma route_without_edges_raises_witness :
  get_routes "/home/ilu" edgeless_route_files unit "grid" = Raise TypeError.
Proof.
  apply (route_without_edges_raises "/home/ilu" edgeless_route_files unit
           "grid" edgeless_route_doc
           (Element "route" (list_to_map [("id", "r1")]) [])).
  - reflexivity.
  - vm_compute. repeat constructor.
  - reflexivity.
Defined.

(** The edge of the net file of [intersection]: the larger speed and the
    larger length of its two lanes, two lanes, no internal edge. *)
Lemma get_edges_records_witness :
  get_edges "/home/ilu" intersection_files Z dec_int z_max "grid"
  = Ok [EDict (list_to_map
          [("id", VStr "e1"); ("from", VStr "a"); ("to", VStr "n");
           ("speed", VFloat 14); ("length", VFloat 100);
           ("numLanes", VInt 2)])].
Proof.
  destruct (get_edges_records "/home/ilu" intersection_files Z dec_int z_max
              "grid" intersection_doc eq_refl) as (out & Hout & _).
  - intros [|x xs] Hne; [done|by eexists].
  - set (es := kept_edges intersection_doc). vm_compute in es. subst es.
    constructor; [|constructor]. split; [vm_compute; discriminate|].
    set (ls := lanes _). vm_compute in ls. subst ls.
    constructor; [|constructor; [|constructor]].
    + exists "13", "100". repeat split; by eexists.
    + exists "14", "99". repeat split; by eexists.
  - rewrite Hout. pose proof Hout as Hout'. vm_compute in Hout'.
    injection Hout' as Hout'. rewrite <- Hout'. vm_compute. reflexivity.
Defined.

(** The only edge of the net file has no lane. *)
Lemma edge_without_lane_raises_witness :
  raises (get_edges "/home/ilu" laneless_files Z dec_int z_max "grid").
Proof.
  apply (edge_without_lane_raises "/home/ilu" laneless_files Z dec_int z_max
           "grid" laneless_doc
           (Element "edge"
              (list_to_map [("id", "e1"); ("from", "a"); ("to", "n")]) [])).
  - reflexivity.
  - by exists ValueError.
  - vm_compute. repeat constructor.
  - reflexivity.
  - reflexivity.
Defined.

Lemma recorded_calls (calls acc : list (value Z * gmap string (value Z))) :
  foldM (fun traffic_lights a => recorded_add traffic_lights a.1 a.2)
        acc calls
  = Ok (acc ++ calls)%list.
Proof.
  revert acc. induction calls as [|[id kw] calls IH]; intros acc; simpl.
  - by rewrite (right_id_L [] (++)%list).
  - rewrite IH. by rewrite <- (assoc_L (++)%list).
Qed.

(** With an [add] that records its calls: one call for the program of the
    net file of [intersection], as the theorem describes it. *)
Lemma programs_registered_witness :
  exists calls,
    default_traffic_lights "/home/ilu" intersection_files dec_int Ok
      [] recorded_add = Ok calls /\
    length calls = 1%nat /\
    Forall2 (program_call Z dec_int) (findall ["tlLogic"] intersection_doc)
            calls.
Proof.
  destruct (programs_registered "/home/ilu" intersection_files Z dec_int Ok
              _ [] recorded_add intersection_doc eq_refl)
    as (calls & Hcalls & Heq).
  - set (es := findall _ _). vm_compute in es. subst es.
    constructor; [|constructor]. split; [by eexists|]. split; [by eexists|].
    exists "0". split; [reflexivity|]. by eexists.
  - exists calls. rewrite Heq, recorded_calls. split; [done|].
    split; [|done]. by rewrite <- (Forall2_length _ _ _ Hcalls).
Defined.

(** The program of the file has no [programID]. *)
Lemma program_without_attribute_raises_witness :
  raises (default_traffic_lights "/home/ilu" unnumbered_program_files
            dec_int Ok [] recorded_add).
Proof.
  apply (program_without_attribute_raises "/home/ilu"
           unnumbered_program_files Z dec_int Ok _ [] recorded_add
           unnumbered_program_doc
           (Element "tlLogic" (list_to_map [("id", "n"); ("type", "static")])
              [Element "phase" (list_to_map [("duration", "39");
                                             ("state", "GGrr")]) []])).
  - reflexivity.
  - vm_compute. repeat constructor.
  - right. right. reflexivity.
Defined.

End ScenariosExtra.

(** ** Merging the evaluations of several experiments *)

Module RolloutsExtra.
Import Py PyFacts Loops Rollouts RolloutsFacts RolloutsExamples.
Local Open Scope list_scope.

Section Concat.
Context {scalar coll : Type} `{Countable scalar} `{EqDecision coll}.

Local Notation "'rdict'" := (gmap string (@rvalue scalar coll _ _)).
Local Notation "'qdict'" := (dict scalar coll).
Local Notation "'qvalue'" := (value scalar coll).

(** *** Evaluations without [id] or [rollout] *)

Lemma pop_missing (k : string) (d : qdict) :
  (forall v, (k, v) ∉ d) -> pop k d = Raise (KeyError k).
Proof.
  intros Hno. unfold pop.
  destruct (list_find _ d) as [[i [k' v]]|] eqn:Hf; [|done].
  destruct (proj1 (list_find_Some _ _ _ _) Hf) as (Hi & Hk & _).
  simpl in Hk. subst k'. destruct (Hno v). by eapply list_elem_of_lookup_2.
Qed.

(** X16: an evaluation without [id] or without [rollout] makes [concat]
    raise, wherever it stands among the evaluations. *)
Theorem evaluation_without_key_raises (evals : list qdict) (d : qdict) :
  d ∈ evals ->
  (forall v, ("id", v) ∉ d) \/ (forall v, ("rollout", v) ∉ d) ->
  raises (concat evals).
Proof.
  intros Hd Hno. unfold concat. apply (foldM_raises _ _ _ d Hd).
  intros r. unfold merge_evaluation.
  destruct (pop "id" d) as [[exid d1]|e] eqn:Hp1; simpl; [|by exists e].
  destruct Hno as [Hno|Hno].
  - rewrite pop_missing in Hp1 by done. discriminate.
  - rewrite (pop_missing "rollout" d1); [by eexists|].
    intros v Hv. apply (elem_of_popped _ _ _ _ _ Hp1) in Hv as [_ Hv].
    by apply (Hno v).
Qed.

(** *** Scalar fields across experiments *)

(** X17: when [concat] returns, a field that is neither a list nor a
    mapping has in the aggregate the value it has in the evaluation, and so
    the same value in every evaluation that has it, whatever their
    experiments. *)
Theorem scalar_fields_are_shared (evals : list qdict) (r : rdict)
    (d : qdict) (k : string) (s : scalar) :
  concat evals = Ok r ->
  d ∈ evals -> (k, VScalar s) ∈ d -> k <> "id" -> k <> "rollout" ->
  r !! k = Some (RScalar s) /\
  forall d' s', d' ∈ evals -> (k, VScalar s') ∈ d' -> s' = s.
Proof.
  intros Hc Hd Hk Hid Hro.
  assert (forall d' s', d' ∈ evals -> (k, VScalar s') ∈ d' ->
                        r !! k = Some (RScalar s')) as Hall.
  { intros d' s' Hd' Hk'. unfold concat in Hc.
    apply list_elem_of_split in Hd' as (l1 & l2 & ->).
    rewrite foldM_app in Hc. inv_bind Hc. simpl in Hc. inv_bind Hc.
    apply (foldM_inv (fun r => r !! k = Some (RScalar s')) _ _ _ _ Hc).
    - by eapply merge_evaluation_sets_scalar.
    - intros r0 d0 r1 _. by apply merge_evaluation_keeps_scalar. }
  split; [by eapply Hall|].
  intros d' s' Hd' Hk'. pose proof (Hall d s Hd Hk) as H1.
  pose proof (Hall d' s' Hd' Hk') as H2. congruence.
Qed.

(** *** The experiment ids *)

Lemma merge_fields_other ex qid (fields : qdict) (r r' : rdict) k :
  foldM (merge_field ex qid) r fields = Ok r' ->
  (forall v, (k, v) ∉ fields) ->
  r' !! k = r !! k.
Proof.
  intros Hm Hno.
  apply (foldM_inv (fun r0 => r0 !! k = r !! k) _ _ _ _ Hm); [done|].
  intros r0 [k' v] r1 Hin IH Hf. rewrite <- IH.
  apply (merge_field_other _ _ _ _ _ _ Hf). simpl. intros ->.
  by apply (Hno v).
Qed.

(** What an evaluation does to [result['id']]. *)
Lemma merge_evaluation_ids (r r' : rdict) (d : qdict) :
  merge_evaluation r d = Ok r' ->
  exists exid d1 ids,
    pop "id" d = Ok (exid, d1) /\ read r "id" = RList ids /\
    r' !! "id" = Some (RList (if bool_decide (IVal exid ∉ ids)
                              then ids ++ [IVal exid] else ids)).
Proof.
  intros Hm. apply merge_evaluation_inv in Hm
    as (exid & qid & d1 & d2 & ids & ex & Hp1 & Hp2 & Hread & _ & Hm).
  exists exid, d1, ids. split; [done|]. split; [done|].
  rewrite (merge_fields_other _ _ _ _ _ _ Hm).
  - apply lookup_insert_eq.
  - intros v Hv.
    by apply (field_of_evaluation _ _ _ _ _ _ Hp1 Hp2) in Hv as (_ & ? & _).
Qed.

Lemma ids_loop (evals : list qdict) (r0 r : rdict) (ids0 : list qvalue) :
  foldM merge_evaluation r0 evals = Ok r ->
  read r0 "id" = RList (IVal <$> ids0) -> NoDup ids0 ->
  exists ids,
    read r "id" = RList (IVal <$> ids) /\ NoDup ids /\
    (evals <> [] -> r !! "id" = Some (RList (IVal <$> ids))) /\
    forall x, x ∈ ids <->
              x ∈ ids0 \/ exists d d1, d ∈ evals /\ pop "id" d = Ok (x, d1).
Proof.
  revert r0 ids0.
  induction evals as [|d evals IH]; intros r0 ids0 Hm Hread Hnd; simpl in Hm.
  - injection Hm as <-. exists ids0. split; [done|]. split; [done|].
    split; [done|]. intros x. split; [by left|].
    intros [?|(d & d1 & Hd & _)]; [done|]. by apply elem_of_nil in Hd.
  - inv_bind Hm. rename a into r1.
    destruct (merge_evaluation_ids _ _ _ Ha)
      as (exid & d1 & ids & Hp & Hread' & Hr1).
    rewrite Hread in Hread'. injection Hread' as <-.
    set (ids1 := if bool_decide (exid ∉ ids0) then ids0 ++ [exid] else ids0).
    assert ((if bool_decide (IVal exid ∉ IVal <$> ids0)
             then (IVal <$> ids0) ++ [IVal exid] else IVal <$> ids0)
            = IVal <$> ids1) as Hids1.
    { unfold ids1. destruct (decide (exid ∈ ids0)) as [Hin|Hin].
      - rewrite !bool_decide_eq_false_2; [done|by intros ?|].
        intros Hn. apply Hn. by apply list_elem_of_fmap_2.
      - rewrite !bool_decide_eq_true_2; [by rewrite fmap_app|done|].
        intros Hn. apply list_elem_of_fmap in Hn as (y & [= <-] & Hy). done. }
    rewrite Hids1 in Hr1.
    assert (NoDup ids1) as Hnd1.
    { unfold ids1. destruct (decide (exid ∈ ids0)) as [Hin|Hin];
        [by rewrite bool_decide_eq_false_2 by (by intros ?)|].
      rewrite bool_decide_eq_true_2 by done.
      apply NoDup_app. split; [done|]. split; [|apply NoDup_singleton].
      intros x Hx Hx'. apply list_elem_of_singleton in Hx'. by subst. }
    destruct (IH r1 ids1 Hm) as (ids' & Hread' & Hnd' & Hsome & Hmem);
      [unfold read; by rewrite Hr1|done|].
    exists ids'. split; [done|]. split; [done|]. split.
    + intros _. destruct evals as [|d' evals'].
      * simpl in Hm. injection Hm as <-. rewrite Hr1. f_equal.
        unfold read in Hread'. rewrite Hr1 in Hread'. done.
      * by apply Hsome.
    + assert (forall x, x ∈ ids1 <-> x ∈ ids0 \/ x = exid) as Hids.
      { intros x. unfold ids1. destruct (decide (exid ∈ ids0)) as [Hin|Hin].
        - rewrite bool_decide_eq_false_2 by (by intros ?).
          split; [by left|]. intros [?| ->]; done.
        - rewrite bool_decide_eq_true_2 by done.
          by rewrite elem_of_app, list_elem_of_singleton. }
      intros x. rewrite Hmem, Hids. split.
      * intros [[Hx| ->]|(d' & d1' & Hd' & Hp')]; [by left| |].
        -- right. exists d, d1. split; [left|done].
        -- right. exists d', d1'. split; [by right|done].
      * intros [Hx|(d' & d1' & Hd' & Hp')]; [by left; left|].
        apply elem_of_cons in Hd' as [->|Hd'].
        -- left. right. rewrite Hp in Hp'. by injection Hp' as <- _.
        -- right. by exists d', d1'.
Qed.

(** X18: when [concat] returns on at least one evaluation, [result['id']]
    lists the experiment ids of the evaluations, each of them once. *)
Theorem experiment_ids_listed_once (evals : list qdict) (r : rdict) :
  concat evals = Ok r -> evals <> [] ->
  exists ids,
    r !! "id" = Some (RList (IVal <$> ids)) /\ NoDup ids /\
    forall x, x ∈ ids <-> exists d d1, d ∈ evals /\ pop "id" d = Ok (x, d1).
Proof.
  intros Hc Hne.
  destruct (ids_loop evals ∅ r [] Hc) as (ids & _ & Hnd & Hsome & Hmem).
  - done.
  - constructor.
  - exists ids. split; [by apply Hsome|]. split; [done|].
    intros x. rewrite Hmem. split; [|by right].
    intros [Hx|?]; [|done]. by apply elem_of_nil in Hx.
Qed.


(** *** A list field that a later experiment brings *)

Lemma foldM_raises_under {A B} (P : B -> Prop) (f : B -> A -> result B)
    (l : list A) (b : B) (x : A) :
  P b ->
  (forall b y b', y ∈ l -> P b -> f b y = Ok b' -> P b') ->
  x ∈ l -> (forall b, P b -> raises (f b x)) ->
  raises (foldM f b l).
Proof.
  intros Hb Hstep Hx Hr. revert b Hb.
  induction l as [|y l IH]; intros b Hb; [by apply elem_of_nil in Hx|].
  simpl. destruct (f b y) as [b'|e] eqn:Hy; simpl; [|by exists e].
  apply elem_of_cons in Hx as [->|Hx].
  - destruct (Hr b Hb) as [e He]. congruence.
  - apply IH; [|done|].
    + intros b0 z b1 Hz. apply Hstep. by right.
    + eapply Hstep; [left|done..].
Qed.

Lemma ids_head (evals : list qdict) (r0 r : rdict) x0 l0 :
  foldM merge_evaluation r0 evals = Ok r ->
  r0 !! "id" = Some (RList (x0 :: l0)) ->
  exists l, r !! "id" = Some (RList (x0 :: l)).
Proof.
  intros Hm H0.
  apply (foldM_inv (fun r => exists l, r !! "id" = Some (RList (x0 :: l)))
           _ _ _ _ Hm); [by eauto|].
  intros r1 d r2 _ [l Hl] Hd.
  destruct (merge_evaluation_ids _ _ _ Hd) as (exid & d1 & ids & _ & Hread & ->).
  unfold read in Hread. rewrite Hl in Hread. simpl in Hread.
  injection Hread as <-. destruct (bool_decide _); by eauto.
Qed.

Lemma absent_key_stays_absent (evals : list qdict) (r0 r : rdict) k :
  foldM merge_evaluation r0 evals = Ok r ->
  k <> "id" -> r0 !! k = None ->
  (forall d, d ∈ evals -> forall v, (k, v) ∉ d) ->
  r !! k = None.
Proof.
  intros Hm Hid H0 Hno.
  apply (foldM_inv (fun r => r !! k = None) _ _ _ _ Hm H0).
  intros r1 d r2 Hd Hr1 Hmd.
  apply merge_evaluation_inv in Hmd
    as (exid & qid & d1 & d2 & ids & ex & Hp1 & Hp2 & _ & _ & Hmd).
  rewrite (merge_fields_other _ _ _ _ _ _ Hmd).
  - by rewrite lookup_insert_ne.
  - intros v Hv.
    apply (field_of_evaluation _ _ _ _ _ _ Hp1 Hp2) in Hv as (Hv & _).
    by apply (Hno d Hd v).
Qed.

(** The state in which a list under [k] cannot be merged at position
    [ex_idx]: [result[k]] is a scalar, or a list too short for it. *)
Definition out_of_reach (ex_idx : nat) (k : string) (r : rdict) : Prop :=
  match read r k with
  | RScalar _ => True
  | RList l => (length l < ex_idx)%nat
  end.

Lemma out_of_reach_raises ex_idx qid k c (r : rdict) :
  out_of_reach ex_idx k r ->
  raises (merge_field ex_idx qid r (k, VColl c)).
Proof.
  unfold out_of_reach. simpl. destruct (read r k) as [s|l]; [by eexists|].
  intros Hlen. rewrite bool_decide_eq_false_2 by lia.
  rewrite (proj2 (lookup_ge_None l ex_idx)) by lia. by eexists.
Qed.

Lemma out_of_reach_kept ex_idx qid k (r r' : rdict) kv :
  out_of_reach ex_idx k r ->
  merge_field ex_idx qid r kv = Ok r' ->
  out_of_reach ex_idx k r'.
Proof.
  intros Hout Hm. destruct kv as [k' v].
  destruct (decide (k = k')) as [<-|Hne].
  - destruct v as [s|c].
    + apply merge_field_scalar_inv in Hm as [[_ ->]|[_ ->]]; [|done].
      unfold out_of_reach, read. by rewrite lookup_insert_eq.
    + destruct (out_of_reach_raises ex_idx qid k c r Hout) as [e He].
      congruence.
  - unfold out_of_reach, read in *.
    by rewrite (merge_field_other _ _ _ _ _ _ Hm) by done.
Qed.

(** X19: a list or mapping under a key that no earlier evaluation has, in
    an evaluation whose experiment is not the first one: [concat] raises.
    The aggregate has no place for the value, as places are made for the
    first experiment only, or one experiment at a time. *)
Theorem new_list_field_of_later_experiment_raises
    (d0 d : qdict) (evals1 evals2 : list qdict) (exid0 exid : qvalue)
    (rest0 rest : qdict) (k : string) (c : coll) :
  pop "id" d0 = Ok (exid0, rest0) ->
  pop "id" d = Ok (exid, rest) ->
  exid <> exid0 ->
  (k, VColl c) ∈ d -> k <> "id" -> k <> "rollout" ->
  (forall d', d' ∈ d0 :: evals1 -> forall v, (k, v) ∉ d') ->
  raises (concat (d0 :: evals1 ++ d :: evals2)).
Proof.
  intros Hp0 Hp Hne Hk Hid Hro Hno. unfold concat.
  change (d0 :: evals1 ++ d :: evals2) with ((d0 :: evals1) ++ d :: evals2).
  rewrite foldM_app.
  destruct (foldM merge_evaluation ∅ (d0 :: evals1)) as [r|e] eqn:H1;
    [|by exists e].
  assert (r !! k = None) as Hrk
    by (by apply (absent_key_stays_absent (d0 :: evals1) ∅ r k H1)).
  assert (exists l, r !! "id" = Some (RList (IVal exid0 :: l))) as [l Hl].
  { simpl in H1. inv_bind H1. rename a into r1.
    apply (ids_head evals1 r1 r _ [] H1).
    destruct (merge_evaluation_ids _ _ _ Ha)
      as (exid0' & d1 & ids & Hp0' & Hread & ->).
    rewrite Hp0 in Hp0'. injection Hp0' as <- <-.
    unfold read in Hread. rewrite lookup_empty in Hread. simpl in Hread.
    injection Hread as <-.
    rewrite bool_decide_eq_true_2; [done|]. apply not_elem_of_nil. }
  simpl. destruct (merge_evaluation r d) as [r'|e] eqn:Hd; simpl;
    [exfalso|by exists e].
  apply merge_evaluation_inv in Hd
    as (exid' & qid & d1 & d2 & ids & ex & Hp1 & Hp2 & Hread & Hidx & Hm).
  rewrite Hp in Hp1. injection Hp1 as <- <-.
  unfold read in Hread. rewrite Hl in Hread. simpl in Hread.
  injection Hread as <-.
  assert (exists i, ex = S i) as [i ->].
  { unfold index in Hidx.
    destruct (bool_decide _); simpl in Hidx;
      (destruct (decide (IVal exid0 = IVal exid)) as [[= ->]|_]; [done|]);
      destruct (list_find _ _) as [[j y]|]; simpl in Hidx;
      try discriminate; injection Hidx as <-; by eexists. }
  destruct (foldM_raises_under (out_of_reach (S i) k)
              (merge_field (S i) qid) d2
              (<["id" := RList (if bool_decide (IVal exid ∉ IVal exid0 :: l)
                                then (IVal exid0 :: l) ++ [IVal exid]
                                else IVal exid0 :: l)]> r)
              (k, VColl c)) as [e He].
  - unfold out_of_reach, read. rewrite lookup_insert_ne by done.
    rewrite Hrk. simpl. lia.
  - intros r0 kv r1 _. apply out_of_reach_kept.
  - by apply (field_of_evaluation _ _ _ _ _ _ Hp Hp2).
  - intros r0. apply out_of_reach_raises.
  - congruence.
Qed.

(** *** The values of one experiment, in order *)

(** The lists and mappings that the fields of an evaluation hold under
    [k], in the order of the fields. *)
Definition field_values (k : string) (fields : qdict) : list coll :=
  omap (fun kv => match kv.2 with
                  | VColl c => if decide (kv.1 = k) then Some c else None
                  | VScalar _ => None
                  end) fields.

(** What an evaluation gives to key [k] and rollout [q]. *)
Definition values_of (k : string) (q : scalar) (d : qdict) : list coll :=
  match pop "id" d with
  | Ok (_, d1) =>
      match pop "rollout" d1 with
      | Ok (VScalar q', d2) =>
          if decide (q' = q) then field_values k d2 else []
      | _ => []
      end
  | Raise _ => []
  end.

(** What the aggregate of a single experiment holds under [k] and [q]. *)
Definition aggregate (r : rdict) (k : string) (q : scalar) : list coll :=
  match r !! k with
  | Some (RList [IDict m]) => default [] (m !! q)
  | _ => []
  end.

Definition given (qid : qvalue) (q : scalar) (cs : list coll) : list coll :=
  match qid with
  | VScalar q' => if decide (q' = q) then cs else []
  | VColl _ => []
  end.

Lemma merge_field_values qid (r r' : rdict) k' v k q :
  one_aggregate r -> k' <> "id" ->
  merge_field 0 qid r (k', v) = Ok r' ->
  aggregate r' k q = aggregate r k q ++ given qid q (field_values k [(k', v)]).
Proof.
  intros Hagg Hk' Hm. destruct v as [s|c].
  - assert (given qid q (field_values k [(k', VScalar s)]) = []) as ->
      by (by destruct qid as [q'|?]; simpl; [destruct (decide (q' = q))|]).
    rewrite (right_id_L [] (++)).
    apply merge_field_scalar_inv in Hm as [[Hnone ->]|[_ ->]]; [|done].
    unfold aggregate. destruct (decide (k' = k)) as [->|Hne].
    + by rewrite lookup_insert_eq, Hnone.
    + by rewrite lookup_insert_ne.
  - destruct (merge_coll_inv _ _ _ _ _ Hagg Hk' Hm)
      as (m & q' & Hrk & -> & ->).
    unfold aggregate, field_values. simpl.
    destruct (decide (k' = k)) as [->|Hne].
    + rewrite lookup_insert_eq.
      assert (match r !! k with
              | Some (RList [IDict m0]) => default [] (m0 !! q)
              | _ => []
              end = default [] (m !! q)) as ->.
      { destruct Hrk as [[-> ->]| ->]; [by rewrite lookup_empty|done]. }
      destruct (decide (q' = q)) as [->|Hq].
      * by rewrite lookup_insert_eq.
      * rewrite lookup_insert_ne by done. by rewrite (right_id_L [] (++)).
    + rewrite lookup_insert_ne by done.
      destruct (decide (q' = q)); by rewrite (right_id_L [] (++)).
Qed.

Lemma given_app qid q (l1 l2 : list coll) :
  given qid q (l1 ++ l2) = given qid q l1 ++ given qid q l2.
Proof.
  destruct qid as [q'|?]; simpl; [|done]. by destruct (decide (q' = q)).
Qed.

Lemma merge_fields_values (exid : qvalue) qid (fields : qdict)
    (r r' : rdict) k q :
  Forall (fun kv => kv.1 <> "id") fields ->
  started exid r -> one_aggregate r ->
  foldM (merge_field 0 qid) r fields = Ok r' ->
  aggregate r' k q = aggregate r k q ++ given qid q (field_values k fields).
Proof.
  intros Hid. revert r.
  induction Hid as [|[k' v] fields Hk' _ IH]; intros r Hst Hagg Hm;
    simpl in Hm.
  - injection Hm as <-. destruct qid as [q'|?]; simpl;
      [destruct (decide (q' = q))|]; by rewrite (right_id_L [] (++)).
  - inv_bind Hm. rename a into r1.
    destruct (merge_field_aggregates exid _ _ _ _ _ Hst Hagg Hk' Ha)
      as (Hst1 & Hagg1 & _).
    rewrite (IH r1 Hst1 Hagg1 Hm).
    rewrite (merge_field_values _ _ _ _ _ k q Hagg Hk' Ha).
    rewrite <- (assoc_L (++)). f_equal. rewrite <- given_app. f_equal.
    unfold field_values. simpl. by destruct v as [?|?]; [|destruct (decide _)].
Qed.

Lemma merge_evaluation_values (exid : qvalue) (r r' : rdict) (d : qdict)
    k q :
  fresh_or_started exid r -> one_aggregate r ->
  (exists d1, pop "id" d = Ok (exid, d1)) ->
  k <> "id" ->
  merge_evaluation r d = Ok r' ->
  aggregate r' k q = aggregate r k q ++ values_of k q d.
Proof.
  intros Hfs Hagg [d1 Hp1] Hk Hm.
  apply merge_evaluation_inv in Hm
    as (exid' & qid & d1' & d2 & ids & ex & Hp1' & Hp2 & Hread & Hidx & Hm).
  rewrite Hp1 in Hp1'. injection Hp1' as <- <-.
  destruct (index_of_experiment exid r Hfs) as (ids' & Hread' & Hids & Hex).
  rewrite Hread in Hread'. injection Hread' as <-.
  rewrite Hids in Hidx, Hm. rewrite Hex in Hidx. injection Hidx as <-.
  rewrite (merge_fields_values exid qid d2 (<["id" := RList [IVal exid]]> r)
             r' k q); [| | | |exact Hm].
  - unfold values_of. rewrite Hp1, Hp2.
    assert (aggregate (<["id" := RList [IVal exid]]> r) k q
            = aggregate r k q) as ->
      by (unfold aggregate; by rewrite lookup_insert_ne).
    by destruct qid.
  - apply Forall_forall. intros kv Hkv.
    by apply (field_of_evaluation _ _ _ _ _ _ Hp1 Hp2) in Hkv as (_ & ? & _).
  - unfold started. apply lookup_insert_eq.
  - intros k0 l Hk0. rewrite lookup_insert_ne by done. by apply Hagg.
Qed.

Lemma concat_values (exid : qvalue) (evals : list qdict) (r0 r : rdict)
    k q :
  Forall (fun d => exists d1, pop "id" d = Ok (exid, d1)) evals ->
  fresh_or_started exid r0 -> one_aggregate r0 -> k <> "id" ->
  foldM merge_evaluation r0 evals = Ok r ->
  aggregate r k q = aggregate r0 k q ++ (evals ≫= values_of k q).
Proof.
  intros Hall. revert r0.
  induction Hall as [|d evals Hd _ IH]; intros r0 Hfs Hagg Hk Hm;
    simpl in Hm.
  - injection Hm as <-. simpl. by rewrite (right_id_L [] (++)).
  - inv_bind Hm. rename a into r1.
    destruct (merge_evaluation_aggregates exid _ _ _ Hfs Hagg Hd Ha)
      as (Hst1 & Hagg1 & _).
    rewrite (IH r1 (or_intror Hst1) Hagg1 Hk Hm).
    rewrite (merge_evaluation_values exid _ _ _ k q Hfs Hagg Hd Hk Ha).
    simpl. by rewrite <- (assoc_L (++)).
Qed.

(** X20: for evaluations of one experiment that [concat] merges, the
    aggregate holds under a key and a rollout id exactly the lists and
    mappings that the evaluations of this rollout have under this key, in
    the order of the evaluations, repeated values included. *)
Theorem aggregate_in_order (evals : list qdict) (exid : qvalue)
    (r : rdict) (k : string) (q : scalar) :
  Forall (fun d => exists d1, pop "id" d = Ok (exid, d1)) evals ->
  concat evals = Ok r -> k <> "id" ->
  aggregate r k q = evals ≫= values_of k q.
Proof.
  intros Hall Hc Hk.
  rewrite (concat_values exid evals ∅ r k q Hall); [done|by left| |done|done].
  intros k0 l _ Hl. by rewrite lookup_empty in Hl.
Qed.

End Concat.

Ltac in_evaluation :=
  rewrite ?elem_of_cons; auto 8.

Ltac not_in_evaluation Hv :=
  repeat (apply elem_of_cons in Hv as [[=]|Hv]); by apply elem_of_nil in Hv.

(** The second evaluation has no rollout id. *)
Lemma evaluation_without_key_raises_witness :
  raises (concat [rollout_0; rollout_5]).
Proof.
  apply (evaluation_without_key_raises [rollout_0; rollout_5] rollout_5).
  - in_evaluation.
  - right. intros v Hv. unfold rollout_5 in Hv. not_in_evaluation Hv.
Defined.

(** Experiments 7 and 8 have the same cycle, which the aggregate holds. *)
Lemma scalar_fields_are_shared_witness :
  exists r, concat [rollout_0; rollout_3] = Ok r /\
            r !! "cycle" = Some (RScalar 90).
Proof.
  assert (exists r, concat [rollout_0; rollout_3] = Ok r) as [r Hr]
    by (eexists; vm_compute; reflexivity).
  exists r. split; [exact Hr|].
  destruct (scalar_fields_are_shared [rollout_0; rollout_3] r rollout_3
              "cycle" 90 Hr) as [Hcycle _]; [in_evaluation| |done|done|done].
  unfold rollout_3. in_evaluation.
Defined.

(** Three evaluations of two experiments: two ids. *)
Lemma experiment_ids_listed_once_witness :
  exists r ids,
    concat [rollout_0; rollout_3; rollout_1] = Ok r /\
    r !! "id" = Some (RList (IVal <$> ids)) /\ NoDup ids /\
    VScalar 7 ∈ ids /\ VScalar 8 ∈ ids.
Proof.
  assert (exists r, concat [rollout_0; rollout_3; rollout_1] = Ok r)
    as [r Hr] by (eexists; vm_compute; reflexivity).
  destruct (experiment_ids_listed_once [rollout_0; rollout_3; rollout_1] r Hr)
    as (ids & Hids & Hnd & Hmem); [done|].
  exists r, ids. split; [exact Hr|]. split; [exact Hids|].
  split; [exact Hnd|]. split; apply Hmem.
  - exists rollout_0. eexists. split; [in_evaluation|reflexivity].
  - exists rollout_3. eexists. split; [in_evaluation|reflexivity].
Defined.

(** Experiment 8 comes second and brings the field [vehicles]. *)
Lemma new_list_field_of_later_experiment_raises_witness :
  raises (concat [rollout_0; rollout_4]).
Proof.
  apply (new_list_field_of_later_experiment_raises rollout_0 rollout_4 [] []
           (VScalar 7) (VScalar 8)
           [("rollout", VScalar 0); ("cycle", VScalar 90);
            ("rewards", VColl "r0"); ("velocities", VColl "v0")]
           [("rollout", VScalar 0); ("cycle", VScalar 90);
            ("rewards", VColl "r4"); ("vehicles", VColl "n4")]
           "vehicles" "n4").
  - reflexivity.
  - reflexivity.
  - discriminate.
  - unfold rollout_4. in_evaluation.
  - done.
  - done.
  - intros d' Hd' v Hv. apply list_elem_of_singleton in Hd' as ->.
    unfold rollout_0 in Hv. not_in_evaluation Hv.
Defined.

(** Rollout 0 merged twice and rollout 1 once: the rewards of rollout 0 are
    there twice. *)
Lemma aggregate_in_order_witness :
  exists r, concat [rollout_0; rollout_1; rollout_0] = Ok r /\
            aggregate r "rewards" 0 = ["r0"; "r0"] /\
            aggregate r "rewards" 1 = ["r1"].
Proof.
  assert (exists r, concat [rollout_0; rollout_1; rollout_0] = Ok r)
    as [r Hr] by (eexists; vm_compute; reflexivity).
  assert (Forall (fun d : dict Z string =>
                    exists d1, pop "id" d = Ok (VScalar 7, d1))
                 [rollout_0; rollout_1; rollout_0]) as Hall
    by (repeat constructor; by eexists).
  exists r. split; [exact Hr|]. split.
  - rewrite (aggregate_in_order _ (VScalar 7) r "rewards" 0 Hall Hr) by done.
    vm_compute. reflexivity.
  - rewrite (aggregate_in_order _ (VScalar 7) r "rewards" 1 Hall Hr) by done.
    vm_compute. reflexivity.
Defined.

End RolloutsExtra.

(** ** The experiment runner: the checks and [run] *)

Module RunnerFacts.
Import Py PyFacts Exp ExpFacts Runner RunnerExamples.

(** *** The monad of the environment *)

Lemma bind_inv {world A B} (m : M world A) (f : A -> M world B) w b w' :
  (m ≫= f) w = Ok (b, w') ->
  exists a w1, m w = Ok (a, w1) /\ f a w1 = Ok (b, w').
Proof.
  unfold mbind, M_bind. destruct (m w) as [[a w1]|e]; [by eauto|discriminate].
Qed.

Lemma bind_raises {world A B} (m : M world A) (f : A -> M world B) w :
  (forall a w1, m w = Ok (a, w1) -> raises (f a w1)) ->
  raises ((m ≫= f) w).
Proof.
  unfold mbind, M_bind. destruct (m w) as [[a w1]|e]; [by eauto|].
  intros _. by exists e.
Qed.

Lemma bind_raises_left {world A B} (m : M world A) (f : A -> M world B) w :
  raises (m w) -> raises ((m ≫= f) w).
Proof. intros [e He]. unfold mbind, M_bind. rewrite He. by exists e. Qed.

Lemma bind_ext {world A B} (m : M world A) (f g : A -> M world B) w :
  (forall a w1, f a w1 = g a w1) -> (m ≫= f) w = (m ≫= g) w.
Proof.
  intros Hfg. unfold mbind, M_bind. by destruct (m w) as [[a w1]|e].
Qed.

Lemma bind_raises_ext {world A B} (m : M world A) (f g : A -> M world B) w :
  raises (m w) -> (m ≫= f) w = (m ≫= g) w.
Proof. intros [e He]. unfold mbind, M_bind. by rewrite He. Qed.

Lemma bind_Raise {world A B} (m : M world A) (f : A -> M world B) w e :
  m w = Raise e -> (m ≫= f) w = Raise e.
Proof. intros He. unfold mbind, M_bind. by rewrite He. Qed.

Lemma lift_inv {world A} (r : result A) (w w' : world) (a : A) :
  lift r w = Ok (a, w') -> r = Ok a /\ w' = w.
Proof. unfold lift. destruct r; [by intros [= -> ->]|discriminate]. Qed.

Lemma look_inv {world A} (f : world -> result A) (w w' : world) (a : A) :
  look f w = Ok (a, w') -> f w = Ok a /\ w' = w.
Proof. unfold look. destruct (f w); [by intros [= -> ->]|discriminate]. Qed.

Section WithSimulator.
Context {num : Type} `{Objects num} `{Environment num} `{!Library num}.
Variable truediv : pyobj num -> pyobj num -> result (pyobj num).
Variable one : pyobj num.

Lemma on_env_look_inv {A} (self : gmap string (pyobj num))
    (f : world -> result A) (w w' : world) (a : A) :
  on_env self (look f) w = Ok (a, w') -> f w = Ok a /\ w' = w.
Proof.
  unfold on_env. intros Hm. apply bind_inv in Hm as (x & w1 & Hx & Hm).
  apply lift_inv in Hx as [_ ->]. by apply look_inv.
Qed.

(** The attributes of an experiment that [__init__] builds. *)
Lemma init_inv (env0 : Env num) dir_path train policies self :
  init truediv one env0 dir_path train policies = Ok self ->
  getattr self "env" = Ok PEnv /\
  getattr self "train" = Ok (PBool train) /\
  getattr self "dir_path" = Ok dir_path /\
  getattr self "Qs" = Ok policies /\
  getattr self "cycle" = Ok (default PNone (cycle_time env0)) /\
  is_ok (getattr self "save_step").
Proof.
  unfold init. destruct (negb train && is_None policies); [discriminate|].
  intros Hinit. inv_bind Hinit. injection Hinit as <-.
  unfold getattr. simplify_map_eq. repeat (split; [done|]). by eexists.
Qed.

(** *** The checks *)

(** X21: for an experiment built with a cycle time that is not [None], the
    snapshot check reads the duration of the environment and nothing else:
    the step is a snapshot step when the duration equals 0.0, and the check
    raises [AttributeError] when the environment has no duration. *)
Theorem save_step_follows_duration (env0 : Env num) dir_path train policies
    self c :
  cycle_time env0 = Some c -> is_None c = false ->
  init truediv one env0 dir_path train policies = Ok self ->
  forall env : Env num,
    _is_save_step modulo py_eq zero zero_float self env
    = match duration env with
      | Some d => Ok (py_eq d zero_float)
      | None => Raise (AttributeError "duration")
      end.
Proof.
  intros Hc Hnone Hinit env.
  destruct (init_inv _ _ _ _ _ Hinit) as (Henv & _ & _ & _ & Hcycle & _).
  rewrite Hc in Hcycle. simpl in Hcycle.
  unfold _is_save_step. rewrite Hcycle. simpl. rewrite Hnone. simpl.
  rewrite Henv. simpl. by destruct (duration env).
Qed.

(** X22: for an experiment that [__init__] builds, the Q-table is saved in
    training mode only, and then only when the environment has a [dump]
    method and the directory path is true; it is swapped in validation mode
    only; and the two checks raise on the same states of the environment. *)
Theorem q_table_checks_follow_mode (env0 : Env num) dir_path train policies
    self :
  (forall b, truthy (PBool b) = b) ->
  init truediv one env0 dir_path train policies = Ok self ->
  forall (env : Env num) (dump : bool),
    (forall v, _is_save_q_table self env dump = Ok v -> truthy v = true ->
               train = true /\ dump = true /\ v = dir_path) /\
    (_is_swap_q_table self env = Ok true -> train = false) /\
    (is_ok (_is_save_q_table self env dump)
     <-> is_ok (_is_swap_q_table self env)).
Proof.
  intros Hbool Hinit env dmp.
  destruct (init_inv _ _ _ _ _ Hinit) as (Henv & Htrain & Hdir & _).
  unfold _is_save_q_table, _is_swap_q_table.
  destruct (is_hundredth_save_step self env) as [[|]|e]; simpl.
  - rewrite Htrain, Henv. simpl. rewrite Hbool.
    destruct train; simpl.
    + split; [|split].
      * intros v Hv Ht. destruct dmp.
        -- rewrite Hdir in Hv. by injection Hv as <-.
        -- injection Hv as <-. by rewrite Hbool in Ht.
      * discriminate.
      * destruct dmp; [rewrite Hdir|]; split; intros _; by eexists.
    + split; [|split].
      * intros v [= <-] Ht. by rewrite Hbool in Ht.
      * done.
      * split; intros _; by eexists.
  - split; [|split].
    + intros v [= <-] Ht. by rewrite Hbool in Ht.
    + discriminate.
    + split; intros _; by eexists.
  - split; [|split]; [discriminate|discriminate|].
    split; intros [? ?]; discriminate.
Qed.

(** *** [run] *)

Variable no_action : action.

Lemma convert_emissions_inv conv (self : gmap string (pyobj num)) w w' :
  (forall w, emission_pathself w = Raise (AttributeError "emission_pathself"))
  ->
  convert_emissions conv self true w = Ok (tt, w') ->
  w' = w /\ exists p, emission_path w = Ok p /\ truthy p = false.
Proof.
  intros Hno Hc. unfold convert_emissions in Hc.
  apply bind_inv in Hc as (p & w1 & Hp & Hc).
  apply on_env_look_inv in Hp as [Hp ->].
  destruct (truthy p) eqn:Ht.
  - apply bind_inv in Hc as (name & w1 & Hname & Hc).
    apply bind_inv in Hc as (q & w2 & Hq & _).
    apply on_env_look_inv in Hq as [Hq _]. rewrite Hno in Hq. discriminate.
  - injection Hc as <-. split; [done|]. by exists p.
Qed.

Lemma convert_emissions_ext conv conv' (self : gmap string (pyobj num))
    c w :
  (forall w, emission_pathself w = Raise (AttributeError "emission_pathself"))
  ->
  convert_emissions conv self c w = convert_emissions conv' self c w.
Proof.
  intros Hno. unfold convert_emissions.
  apply bind_ext. intros p w1.
  destruct (truthy p); [|done]. destruct c; [|done].
  apply bind_ext. intros name w2.
  apply bind_raises_ext. unfold on_env.
  apply bind_raises. intros _ w3 _. unfold look. rewrite Hno. by eexists.
Qed.

(** X23: with [convert_to_csv] the emission file is never converted. For an
    experiment that [__init__] builds, on an environment whose simulation
    parameters have no attribute [emission_pathself]: [run] raises
    [ValueError] at once when the emission path is [None]; when it returns,
    the emission path is false at the end; and what [run] does, with or
    without [convert_to_csv], does not depend on [emission_to_csv]. *)
Theorem emissions_never_converted (env0 : Env num) dir_path train policies
    self (num_runs num_steps : nat)
    (rl_actions : option (obs -> M world action))
    (emission_to_csv emission_to_csv' : string -> M world unit) :
  (forall w, emission_pathself w = Raise (AttributeError "emission_pathself"))
  ->
  init truediv one env0 dir_path train policies = Ok self ->
  (forall w, emission_path w = Ok PNone ->
             run emission_to_csv no_action self num_runs num_steps
               rl_actions true w = Raise ValueError) /\
  (forall w info_dict w',
     run emission_to_csv no_action self num_runs num_steps rl_actions true w
     = Ok (info_dict, w') ->
     exists p, emission_path w' = Ok p /\ truthy p = false) /\
  (forall convert_to_csv w,
     run emission_to_csv no_action self num_runs num_steps rl_actions
       convert_to_csv w
     = run emission_to_csv' no_action self num_runs num_steps rl_actions
         convert_to_csv w).
Proof.
  intros Hno Hinit.
  destruct (init_inv _ _ _ _ _ Hinit) as (Henv & _).
  split; [|split].
  - intros w Hp. unfold run. apply bind_Raise.
    unfold check_emission_path.
    assert (on_env self (look emission_path) w = Ok (PNone, w)) as Hl.
    { unfold on_env. unfold mbind, M_bind, lift, look. by rewrite Henv, Hp. }
    unfold mbind, M_bind. by rewrite Hl.
  - intros w info_dict w' Hrun. unfold run in Hrun.
    apply bind_inv in Hrun as (? & w1 & _ & Hrun). cbv zeta in Hrun.
    apply bind_inv in Hrun as (acc & w2 & _ & Hrun).
    apply bind_inv in Hrun as (id & w3 & _ & Hrun).
    apply bind_inv in Hrun as (cycle & w4 & _ & Hrun).
    apply bind_inv in Hrun as (save_step & w5 & _ & Hrun).
    apply bind_inv in Hrun as (? & w6 & _ & Hrun).
    apply bind_inv in Hrun as (? & w7 & _ & Hrun).
    apply bind_inv in Hrun as (? & w8 & _ & Hrun).
    apply bind_inv in Hrun as (? & w9 & _ & Hrun).
    apply bind_inv in Hrun as ([] & w10 & Hconv & Hrun).
    injection Hrun as _ <-.
    by destruct (convert_emissions_inv _ _ _ _ Hno Hconv) as [-> ?].
  - intros c w. unfold run.
    apply bind_ext. intros ? w1. cbv zeta.
    apply bind_ext. intros acc w2.
    apply bind_ext. intros id w3.
    apply bind_ext. intros cycle w4.
    apply bind_ext. intros save_step w5.
    apply bind_ext. intros ? w6.
    apply bind_ext. intros ? w7.
    apply bind_ext. intros ? w8.
    apply bind_ext. intros ? w9.
    unfold mbind, M_bind. by rewrite (convert_emissions_ext _ emission_to_csv').
Qed.

Lemma one_step_raises (self : gmap string (pyobj num))
    (rl_actions : obs -> M world action) i s j w :
  (forall env : Env num,
     raises (_is_save_step modulo py_eq zero zero_float self env)) ->
  raises (one_step self rl_actions i s j w).
Proof.
  intros Hsave. unfold one_step.
  apply bind_raises. intros _ w1 _.
  apply bind_raises. intros a w2 _.
  apply bind_raises. intros [[state' rw] dn] w3 _.
  apply bind_raises. intros ids w4 _.
  apply bind_raises. intros ids' w5 _.
  apply bind_raises. intros sp w6 _.
  apply bind_raises. intros v w7 _.
  apply bind_raises_left. unfold look.
  destruct (Hsave (env_of w7)) as [e ->]. by exists e.
Qed.

(** X24: an experiment built on an environment without cycle time cannot be
    run: whatever the environment does, [run] raises as soon as one run of
    one step is asked for. *)
Theorem run_without_cycle_time_raises (env0 : Env num) dir_path train
    policies self (num_runs num_steps : nat)
    (rl_actions : option (obs -> M world action))
    (emission_to_csv : string -> M world unit) (convert_to_csv : bool) :
  cycle_time env0 = None ->
  init truediv one env0 dir_path train policies = Ok self ->
  (0 < num_runs)%nat -> (0 < num_steps)%nat ->
  forall w,
    raises (run emission_to_csv no_action self num_runs num_steps rl_actions
              convert_to_csv w).
Proof.
  intros Hno Hinit Hruns Hsteps w.
  assert (forall env : Env num,
            raises (_is_save_step modulo py_eq zero zero_float self env))
    as Hsave.
  { intros env. destruct (init_attributes _ _ _ _ _ _ _ _ Hinit) as [Hc Hs].
    rewrite Hno in Hc. simpl in Hc.
    unfold _is_save_step, getattr. rewrite Hc. simpl. rewrite Hs. simpl.
    by eexists. }
  destruct num_runs as [|nr]; [lia|]. destruct num_steps as [|ns]; [lia|].
  unfold run. apply bind_raises. intros ? w1 _. cbv zeta.
  apply bind_raises_left.
  change (seq 0 (S nr)) with (0%nat :: seq 1 nr).
  change (seq 0 (S ns)) with (0%nat :: seq 1 ns).
  cbn [for_each]. apply bind_raises_left. unfold one_run.
  apply bind_raises. intros st w2 _.
  apply bind_raises_left. cbn [for_each_break].
  apply bind_raises_left. by apply one_step_raises.
Qed.

End WithSimulator.

(** With a cycle time of 90 the check follows the duration, which the
    counting simulator derives from the step counter. *)
Lemma save_step_follows_duration_witness :
  exists self,
    init z_truediv (PNum 1) (counter (Some (PNum 90)) 0) (PStr "emissions")
      true PNone = Ok self /\
    _is_save_step z_modulo z_eq (PNum 0) (PNum 0) self
      (counter (Some (PNum 90)) 180) = Ok true /\
    _is_save_step z_modulo z_eq (PNum 0) (PNum 0) self
      (counter (Some (PNum 90)) 45) = Ok false /\
    _is_save_step z_modulo z_eq (PNum 0) (PNum 0) self (plain_env 45)
    = Raise (AttributeError "duration").
Proof.
  eexists. split; [reflexivity|].
  pose proof (save_step_follows_duration (H:=z_objects) z_truediv (PNum 1)
                (counter (Some (PNum 90)) 0) (PStr "emissions") true PNone
                _ (PNum 90) eq_refl eq_refl eq_refl) as Hs.
  split; [exact (Hs (counter (Some (PNum 90)) 180))|].
  split; [exact (Hs (counter (Some (PNum 90)) 45))|].
  exact (Hs (plain_env 45)).
Defined.

(** In training mode, at step 200 of an experiment whose save step is 1:
    the Q-table is saved to the directory path, and is not swapped. *)
Lemma q_table_checks_follow_mode_witness :
  exists self v,
    init z_truediv (PNum 1) (plain_env 0) (PStr "emissions") true PNone
    = Ok self /\
    _is_save_q_table self (plain_env 200) true = Ok v /\
    v = PStr "emissions" /\
    _is_swap_q_table self (plain_env 200) = Ok false.
Proof.
  eexists. eexists. split; [reflexivity|].
  destruct (q_table_checks_follow_mode (H:=z_objects) z_truediv (PNum 1)
              (plain_env 0) (PStr "emissions") true PNone _
              (fun b => eq_refl) eq_refl (plain_env 200) true)
    as (Hsave & _ & _).
  split; [reflexivity|].
  split; [|reflexivity].
  destruct (Hsave (PStr "emissions") eq_refl eq_refl) as (_ & _ & Hv).
  exact Hv.
Defined.

(** On the counting simulator without an emission path, [run] with
    [convert_to_csv] raises at once; with the empty string as emission path
    it returns, and nothing is converted. *)
Lemma emissions_never_converted_witness :
  exists self,
    init z_truediv (PNum 1) (counter (Some (PNum 2)) 0) (PStr "emissions")
      true PNone = Ok self /\
    counting_run PNone (Some (PNum 2)) self 1 4 true = Raise ValueError /\
    is_ok (counting_run (PStr "") (Some (PNum 2)) self 1 4 true).
Proof.
  eexists. split; [reflexivity|]. split.
  - destruct (@emissions_never_converted Z z_objects
                (counting_environment PNone (Some (PNum 2)))
                (counting_library PNone (Some (PNum 2)))
                z_truediv (PNum 1) tt
                (counter (Some (PNum 2)) 0) (PStr "emissions") true PNone _
                1%nat 4%nat None (fun _ w => Ok (tt, w))
                (fun _ w => Ok (tt, w)) (fun _ => eq_refl) eq_refl)
      as (Hnone & _ & _).
    apply Hnone. reflexivity.
  - eexists. vm_compute. reflexivity.
Defined.

(** On the counting simulator without cycle time, one run of one step
    raises. *)
Lemma run_without_cycle_time_raises_witness :
  exists self,
    init z_truediv (PNum 1) (plain_env 0) (PStr "emissions") true PNone
    = Ok self /\
    raises (counting_run (PStr "emissions") None self 1 1 false).
Proof.
  eexists. split; [reflexivity|].
  apply (@run_without_cycle_time_raises Z z_objects
           (counting_environment (PStr "emissions") None)
           (counting_library (PStr "emissions") None)
           z_truediv (PNum 1) tt
           (plain_env 0) (PStr "emissions") true PNone _
           1%nat 1%nat None (fun _ w => Ok (tt, w)) false
           eq_refl eq_refl); lia.
Defined.

End RunnerFacts.
